(** * WebXR webcam emulator: pose synthesis and session state machine

    A shallow embedding of [src/polyfill.js].

    Numbers.  Every JavaScript number of the polyfill is modelled by a
    mathematical real ([R]): arithmetic is exact, there is no rounding, no
    NaN and no infinity.  [Math.sqrt] is [sqrt]; a comparison [a < b] is
    the boolean [a <? b] obtained from [Rlt_dec].

    Objects.  Plain [{x, y, z}] objects are [Vec3.t]; [{x, y, z, w}]
    objects and [DOMPointReadOnly] instances are [Vec4.t].  Arrays without
    holes are lists; a read past the end of an array, which JavaScript
    answers with [undefined], is the [None] of [!!].  A function of the
    polyfill that would throw a [TypeError] on such a read returns [None].

    Module-level variables of the polyfill that a function reads or
    writes are passed to it explicitly and returned by it. *)

From Stdlib Require Import Reals Lra Lia List String Bool.
From stdpp Require Import base option list gmap strings.
Import ListNotations.

Local Open Scope R_scope.

(** ** Comparisons on numbers *)

Definition Rltb (a b : R) : bool := if Rlt_dec a b then true else false.
Definition Rgtb (a b : R) : bool := Rltb b a.
Definition Reqb (a b : R) : bool := if Req_dec_T a b then true else false.

Notation "a <? b" := (Rltb a b) (at level 70, no associativity) : R_scope.
Notation "a >? b" := (Rgtb a b) (at level 70, no associativity) : R_scope.

(** ** Points and quaternions *)

Module Vec3.
Record t : Type := mk { x : R; y : R; z : R }.
End Vec3.

Module Vec4.
Record t : Type := mk { x : R; y : R; z : R; w : R }.
End Vec4.

(** [new DOMPointReadOnly( x, y, z, w )] *)
Definition DOMPointReadOnly (x y z w : R) : Vec4.t := Vec4.mk x y z w.

(** ** Configuration ([const config]); only [stereo] is ever reassigned, so
    it is the one field that is threaded as state. *)

Definition positionScale : R := 0.5.
Definition depthScale : R := 0.3.
Definition smoothing : R := 0.7.
Definition standingHeight : R := 1.8.

(** ** [lerp] *)

Definition lerp (a b t : R) : R := a + (b - a) * t.

(** ** Rotation matrix to quaternion

    The branch structure of [updateHeadFromMatrix] (lines 249-284), written
    there on [m11 .. m33], and of [computeJointOrientation] (lines
    1023-1058), written there on [m00 .. m22]: the two copies are the same
    text up to the index base, [mij] here being row [i], column [j]
    counted from 1. *)

Definition quaternionFromRotationMatrix
    (m11 m12 m13 m21 m22 m23 m31 m32 m33 : R) : Vec4.t :=
  let trace := m11 + m22 + m33 in
  if trace >? 0 then
    let s := 0.5 / sqrt (trace + 1.0) in
    {| Vec4.w := 0.25 / s;
       Vec4.x := (m32 - m23) * s;
       Vec4.y := (m13 - m31) * s;
       Vec4.z := (m21 - m12) * s |}
  else if (m11 >? m22) && (m11 >? m33) then
    let s := 2.0 * sqrt (1.0 + m11 - m22 - m33) in
    {| Vec4.w := (m32 - m23) / s;
       Vec4.x := 0.25 * s;
       Vec4.y := (m12 + m21) / s;
       Vec4.z := (m13 + m31) / s |}
  else if m22 >? m33 then
    let s := 2.0 * sqrt (1.0 + m22 - m11 - m33) in
    {| Vec4.w := (m13 - m31) / s;
       Vec4.x := (m12 + m21) / s;
       Vec4.y := 0.25 * s;
       Vec4.z := (m23 + m32) / s |}
  else
    let s := 2.0 * sqrt (1.0 + m33 - m11 - m22) in
    {| Vec4.w := (m21 - m12) / s;
       Vec4.x := (m13 + m31) / s;
       Vec4.y := (m23 + m32) / s;
       Vec4.z := 0.25 * s |}.

(** A 4x4 matrix is the list of its 16 entries, column-major.  [m[ k ]];
    the statements about matrices below take the 16 entries to be there. *)
Definition entry (m : list R) (k : nat) : R := nth k m 0.

(** The quaternion read off the upper-left 3x3 block of a column-major
    4x4 matrix: lines 245-284 of [updateHeadFromMatrix]. *)
Definition matrixRotation (m : list R) : Vec4.t :=
  let m11 := entry m 0 in let m12 := entry m 4 in let m13 := entry m 8 in
  let m21 := entry m 1 in let m22 := entry m 5 in let m23 := entry m 9 in
  let m31 := entry m 2 in let m32 := entry m 6 in let m33 := entry m 10 in
  quaternionFromRotationMatrix m11 m12 m13 m21 m22 m23 m31 m32 m33.

(** [Math.sqrt( qx * qx + qy * qy + qz * qz + qw * qw )] *)
Definition quatLength (q : Vec4.t) : R :=
  sqrt (Vec4.x q * Vec4.x q + Vec4.y q * Vec4.y q
        + Vec4.z q * Vec4.z q + Vec4.w q * Vec4.w q).

(** Division of the four components by the length (lines 287-291 without
    the sign of the first component, lines 300-304). *)
Definition quatNormalize (q : Vec4.t) : Vec4.t :=
  let len := quatLength q in
  {| Vec4.x := Vec4.x q / len; Vec4.y := Vec4.y q / len;
     Vec4.z := Vec4.z q / len; Vec4.w := Vec4.w q / len |}.

(** ** [XRRigidTransform] *)

Record XRRigidTransform : Type := mkXRRigidTransform {
  position : Vec4.t;
  orientation : Vec4.t
}.

(** The constructor: a missing argument is replaced by (0, 0, 0, 1). *)
Definition XRRigidTransform_new (p o : option Vec4.t) : XRRigidTransform :=
  {| position := default (DOMPointReadOnly 0 0 0 1) p;
     orientation := default (DOMPointReadOnly 0 0 0 1) o |}.

(** [get matrix]: the 16 entries, column-major. *)
Definition matrix (t : XRRigidTransform) : list R :=
  let x := Vec4.x (orientation t) in let y := Vec4.y (orientation t) in
  let z := Vec4.z (orientation t) in let w := Vec4.w (orientation t) in
  let x2 := x + x in let y2 := y + y in let z2 := z + z in
  let xx := x * x2 in let xy := x * y2 in let xz := x * z2 in
  let yy := y * y2 in let yz := y * z2 in let zz := z * z2 in
  let wx := w * x2 in let wy := w * y2 in let wz := w * z2 in
  [ 1 - (yy + zz); xy + wz; xz - wy; 0;
    xy - wz; 1 - (xx + zz); yz + wx; 0;
    xz + wy; yz - wx; 1 - (xx + yy); 0;
    Vec4.x (position t); Vec4.y (position t); Vec4.z (position t); 1 ].

(** [get inverse] *)
Definition inverse (t : XRRigidTransform) : XRRigidTransform :=
  let invQ := DOMPointReadOnly (- Vec4.x (orientation t)) (- Vec4.y (orientation t))
                               (- Vec4.z (orientation t)) (Vec4.w (orientation t)) in
  let p := position t in
  let qx := Vec4.x invQ in let qy := Vec4.y invQ in
  let qz := Vec4.z invQ in let qw := Vec4.w invQ in
  let ix := qw * - Vec4.x p + qy * - Vec4.z p - qz * - Vec4.y p in
  let iy := qw * - Vec4.y p + qz * - Vec4.x p - qx * - Vec4.z p in
  let iz := qw * - Vec4.z p + qx * - Vec4.y p - qy * - Vec4.x p in
  let iw := - qx * - Vec4.x p - qy * - Vec4.y p - qz * - Vec4.z p in
  let invP := DOMPointReadOnly
                (ix * qw + iw * qx + iy * qz - iz * qy)
                (iy * qw + iw * qy + iz * qx - ix * qz)
                (iz * qw + iw * qz + ix * qy - iy * qx)
                1 in
  XRRigidTransform_new (Some invP) (Some invQ).

(** ** Head tracking state ([headPosition], [headRotation]) *)

Record HeadState : Type := mkHeadState {
  headPosition : Vec3.t;
  headRotation : Vec4.t
}.

(** [let headPosition = { x: 0, y: 0, z: - 0.5 }],
    [let headRotation = { x: 0, y: 0, z: 0, w: 1 }] *)
Definition initialHead : HeadState :=
  {| headPosition := Vec3.mk 0 0 (- 0.5);
     headRotation := Vec4.mk 0 0 0 1 |}.

(** [updateHeadFromMatrix( matrixData )] *)
Definition updateHeadFromMatrix (m : list R) (h : HeadState) : HeadState :=
  let tx := entry m 12 in
  let ty := entry m 13 in
  let tz := entry m 14 in
  let targetX := - tx * 0.02 in
  let targetY := - ty * 0.02 in
  let targetZ := - (tz + 50) * 0.02 in
  let px := lerp (Vec3.x (headPosition h)) targetX (1 - smoothing) in
  let py := lerp (Vec3.y (headPosition h)) targetY (1 - smoothing) in
  let pz := lerp (Vec3.z (headPosition h)) targetZ (1 - smoothing) in
  let q := matrixRotation m in
  let len := sqrt (Vec4.x q * Vec4.x q + Vec4.y q * Vec4.y q
                   + Vec4.z q * Vec4.z q + Vec4.w q * Vec4.w q) in
  let targetQx := - Vec4.x q / len in
  let targetQy := Vec4.y q / len in
  let targetQz := Vec4.z q / len in
  let targetQw := Vec4.w q / len in
  let rx := lerp (Vec4.x (headRotation h)) targetQx (1 - smoothing) in
  let ry := lerp (Vec4.y (headRotation h)) targetQy (1 - smoothing) in
  let rz := lerp (Vec4.z (headRotation h)) targetQz (1 - smoothing) in
  let rw := lerp (Vec4.w (headRotation h)) targetQw (1 - smoothing) in
  let rlen := sqrt (rx ^ 2 + ry ^ 2 + rz ^ 2 + rw ^ 2) in
  {| headPosition := Vec3.mk px py pz;
     headRotation := Vec4.mk (rx / rlen) (ry / rlen) (rz / rlen) (rw / rlen) |}.

(** [updateHeadFromLandmarks( landmarks )]; [None] when [landmarks[ 1 ]]
    is missing (the read of [nose.x] throws before anything is written). *)
Definition updateHeadFromLandmarks (landmarks : list Vec3.t) (h : HeadState)
    : option HeadState :=
  nose ← landmarks !! 1%nat;
  let targetX := - (Vec3.x nose - 0.5) * positionScale in
  let targetY := - (Vec3.y nose - 0.5) * positionScale in
  let targetZ := - 0.5 + Vec3.z nose * depthScale in
  Some {| headPosition :=
            Vec3.mk (lerp (Vec3.x (headPosition h)) targetX (1 - smoothing))
                    (lerp (Vec3.y (headPosition h)) targetY (1 - smoothing))
                    (lerp (Vec3.z (headPosition h)) targetZ (1 - smoothing));
          headRotation := headRotation h |}.

(** What the face detector hands to [processFrame] for one camera frame:
    a transformation matrix when there is one, else the landmark list of
    the first face, else nothing. *)
Inductive FaceResult : Type :=
  | FaceMatrix (matrixData : list R)
  | FaceLandmarks (landmarks : list Vec3.t)
  | NoFace.

(** The face branch of [processFrame] (lines 180-188).  A [TypeError]
    raised by the landmark path leaves the head state as it was. *)
Definition updateHead (f : FaceResult) (h : HeadState) : HeadState :=
  match f with
  | FaceMatrix m => updateHeadFromMatrix m h
  | FaceLandmarks l => default h (updateHeadFromLandmarks l h)
  | NoFace => h
  end.

(** ** Hand skeleton *)

Inductive Handedness : Type := left_hand | right_hand.

Module Joint.
Record t : Type := mk { position : Vec3.t; radius : R }.
End Joint.

Module HandData.
(** The object returned by [processHandLandmarks]; the placeholder
    [{ joints: [] }] has none of the other three properties. *)
Record t : Type := mk {
  joints : list Joint.t;
  visible : bool;
  palmNormal : option Vec3.t;
  handedness : option Handedness
}.
Definition empty : t :=
  {| joints := []; visible := false; palmNormal := None; handedness := None |}.
End HandData.

(** [interpolateJoint( a, b, t )] *)
Definition interpolateJoint (a b : Joint.t) (t : R) : Joint.t :=
  {| Joint.position :=
       Vec3.mk
         (Vec3.x (Joint.position a) + (Vec3.x (Joint.position b) - Vec3.x (Joint.position a)) * t)
         (Vec3.y (Joint.position a) + (Vec3.y (Joint.position b) - Vec3.y (Joint.position a)) * t)
         (Vec3.z (Joint.position a) + (Vec3.z (Joint.position b) - Vec3.z (Joint.position a)) * t);
     Joint.radius := 0.01 |}.

(** The anchor of the hand in front of the head (lines 328-340). *)
Definition handAnchor (headPos : Vec3.t) (wristScreen : Vec3.t) : Vec3.t :=
  let offsetX := - (Vec3.x wristScreen - 0.5) * 1.2 in
  let offsetY := - (Vec3.y wristScreen - 0.5) * 0.8 - 0.3 in
  let offsetZ := - 0.5 - Vec3.z wristScreen * 0.3 in
  Vec3.mk (Vec3.x headPos + offsetX)
          (Vec3.y headPos + standingHeight + offsetY)
          (Vec3.z headPos + offsetZ).

(** One turn of the loop over the 21 detector landmarks (lines 344-387). *)
Definition detectorJoint (screen : Vec3.t) (useWorld : bool)
    (landmarks worldLandmarks : list Vec3.t) (i : nat) : option Joint.t :=
  if useWorld then
    lm ← worldLandmarks !! i;
    wristWorld ← worldLandmarks !! 0%nat;
    let relX := Vec3.x lm - Vec3.x wristWorld in
    let relY := Vec3.y lm - Vec3.y wristWorld in
    let relZ := Vec3.z lm - Vec3.z wristWorld in
    Some {| Joint.position :=
              Vec3.mk (Vec3.x screen - relX) (Vec3.y screen - relY) (Vec3.z screen + relZ);
            Joint.radius := 0.01 |}
  else
    lm ← landmarks !! i;
    wristLm ← landmarks !! 0%nat;
    let relX := (Vec3.x lm - Vec3.x wristLm) * 0.3 in
    let relY := (Vec3.y lm - Vec3.y wristLm) * 0.3 in
    let relZ := (Vec3.z lm - Vec3.z wristLm) * 0.15 in
    Some {| Joint.position :=
              Vec3.mk (Vec3.x screen - relX) (Vec3.y screen - relY) (Vec3.z screen + relZ);
            Joint.radius := 0.01 |}.

(** The cross product of (wrist to pinky) and (wrist to index), before
    normalisation (lines 432-451). *)
Definition palmCross (wrist indexMcp pinkyMcp : Vec3.t) : Vec3.t :=
  let toIndexX := Vec3.x indexMcp - Vec3.x wrist in
  let toIndexY := Vec3.y indexMcp - Vec3.y wrist in
  let toIndexZ := Vec3.z indexMcp - Vec3.z wrist in
  let toPinkyX := Vec3.x pinkyMcp - Vec3.x wrist in
  let toPinkyY := Vec3.y pinkyMcp - Vec3.y wrist in
  let toPinkyZ := Vec3.z pinkyMcp - Vec3.z wrist in
  Vec3.mk (toPinkyY * toIndexZ - toPinkyZ * toIndexY)
          (toPinkyZ * toIndexX - toPinkyX * toIndexZ)
          (toPinkyX * toIndexY - toPinkyY * toIndexX).

(** [palmLen] *)
Definition vecLength (v : Vec3.t) : R :=
  sqrt (Vec3.x v * Vec3.x v + Vec3.y v * Vec3.y v + Vec3.z v * Vec3.z v).

(** Normalisation with the vertical fallback, then the flip for the left
    hand (lines 454-476). *)
Definition palmNormalOf (wrist indexMcp pinkyMcp : Vec3.t) (handedness : Handedness)
    : Vec3.t :=
  let n := palmCross wrist indexMcp pinkyMcp in
  let palmLen := vecLength n in
  let n1 :=
    if palmLen >? 0.0001
    then Vec3.mk (Vec3.x n / palmLen) (Vec3.y n / palmLen) (Vec3.z n / palmLen)
    else Vec3.mk 0 1 0 in
  match handedness with
  | left_hand => Vec3.mk (- Vec3.x n1) (- Vec3.y n1) (- Vec3.z n1)
  | right_hand => n1
  end.

(** The expansion of the 21 detector joints to the 25 joints of WebXR
    (lines 392-428). *)
Definition expandJoints (joints : list Joint.t) : option (list Joint.t) :=
  match joints with
  | [j0; j1; j2; j3; j4; j5; j6; j7; j8; j9; j10; j11; j12; j13; j14; j15;
     j16; j17; j18; j19; j20] =>
      Some [ j0;
             j1; j2; j3; j4;
             interpolateJoint j0 j5 0.5; j5; j6; j7; j8;
             interpolateJoint j0 j9 0.5; j9; j10; j11; j12;
             interpolateJoint j0 j13 0.5; j13; j14; j15; j16;
             interpolateJoint j0 j17 0.5; j17; j18; j19; j20 ]
  | _ => None
  end.

(** The first part of [processHandLandmarks] (lines 324-389): the 21
    detector joints, placed around the hand anchor. *)
Definition detectorJoints (headPos : Vec3.t) (landmarks : list Vec3.t)
    (worldLandmarks : option (list Vec3.t)) : option (list Joint.t) :=
  let useWorld :=
    match worldLandmarks with
    | Some wl => (0 <? length wl)%nat
    | None => false
    end in
  wristScreen ← landmarks !! 0%nat;
  let screen := handAnchor headPos wristScreen in
  mapM (detectorJoint screen useWorld landmarks (default [] worldLandmarks))
       (seq 0 21).

(** [processHandLandmarks( landmarks, worldLandmarks, handedness )], with
    the [headPosition] it reads.  [None] is a [TypeError] on a missing
    landmark. *)
Definition processHandLandmarks (headPos : Vec3.t)
    (landmarks : list Vec3.t) (worldLandmarks : option (list Vec3.t))
    (handedness : Handedness) : option HandData.t :=
  joints ← detectorJoints headPos landmarks worldLandmarks;
  webxrJoints ← expandJoints joints;
  wrist ← webxrJoints !! 0%nat;
  indexMcp ← webxrJoints !! 6%nat;
  pinkyMcp ← webxrJoints !! 21%nat;
  Some {| HandData.joints := webxrJoints;
          HandData.visible := true;
          HandData.palmNormal :=
            Some (palmNormalOf (Joint.position wrist) (Joint.position indexMcp)
                               (Joint.position pinkyMcp) handedness);
          HandData.handedness := Some handedness |}.

(** ** Joint orientation *)

(** [JOINT_CHAIN_NEXT] *)
Definition JOINT_CHAIN_NEXT (jointIndex : nat) : option nat :=
  match jointIndex with
  | 0 => Some 5
  | 1 => Some 2 | 2 => Some 3 | 3 => Some 4 | 4 => Some 4
  | 5 => Some 6 | 6 => Some 7 | 7 => Some 8 | 8 => Some 9 | 9 => Some 9
  | 10 => Some 11 | 11 => Some 12 | 12 => Some 13 | 13 => Some 14 | 14 => Some 14
  | 15 => Some 16 | 16 => Some 17 | 17 => Some 18 | 18 => Some 19 | 19 => Some 19
  | 20 => Some 21 | 21 => Some 22 | 22 => Some 23 | 23 => Some 24 | 24 => Some 24
  | _ => None
  end%nat.

(** [computeJointOrientation( joints, jointIndex, palmNormal, handedness )] *)
Definition computeJointOrientation (joints : list Joint.t) (jointIndex : nat)
    (palmNormal : Vec3.t) (handedness : Handedness) : Vec4.t :=
  let identity := Vec4.mk 0 0 0 1 in
  match joints !! jointIndex, JOINT_CHAIN_NEXT jointIndex ≫= (joints !!.) with
  | Some current, Some next =>
    if bool_decide (Some jointIndex = JOINT_CHAIN_NEXT jointIndex) then identity else
    let fwdX0 := Vec3.x (Joint.position next) - Vec3.x (Joint.position current) in
    let fwdY0 := Vec3.y (Joint.position next) - Vec3.y (Joint.position current) in
    let fwdZ0 := Vec3.z (Joint.position next) - Vec3.z (Joint.position current) in
    let fwdLen := sqrt (fwdX0 * fwdX0 + fwdY0 * fwdY0 + fwdZ0 * fwdZ0) in
    if fwdLen <? 0.0001 then identity else
    let fwdX := fwdX0 / fwdLen in
    let fwdY := fwdY0 / fwdLen in
    let fwdZ := fwdZ0 / fwdLen in
    let upRef :=
      if ((1 <=? jointIndex)%nat && (jointIndex <=? 4)%nat)%bool then
        let thumbRightX := Vec3.y palmNormal * fwdZ - Vec3.z palmNormal * fwdY in
        let thumbRightY := Vec3.z palmNormal * fwdX - Vec3.x palmNormal * fwdZ in
        let thumbRightZ := Vec3.x palmNormal * fwdY - Vec3.y palmNormal * fwdX in
        let thumbRightLen :=
          sqrt (thumbRightX * thumbRightX + thumbRightY * thumbRightY
                + thumbRightZ * thumbRightZ) in
        if thumbRightLen >? 0.0001 then
          let sign := match handedness with left_hand => - 1 | right_hand => 1 end in
          Vec3.mk (thumbRightX / thumbRightLen * sign)
                  (thumbRightY / thumbRightLen * sign)
                  (thumbRightZ / thumbRightLen * sign)
        else palmNormal
      else palmNormal in
    let rightX0 := fwdY * Vec3.z upRef - fwdZ * Vec3.y upRef in
    let rightY0 := fwdZ * Vec3.x upRef - fwdX * Vec3.z upRef in
    let rightZ0 := fwdX * Vec3.y upRef - fwdY * Vec3.x upRef in
    let rightLen0 := sqrt (rightX0 * rightX0 + rightY0 * rightY0 + rightZ0 * rightZ0) in
    let '(rightX1, rightY1, rightZ1, rightLen) :=
      if rightLen0 <? 0.0001 then
        let upRefX := 0 in let upRefY := 1 in let upRefZ := 0 in
        let rX := fwdY * upRefZ - fwdZ * upRefY in
        let rY := fwdZ * upRefX - fwdX * upRefZ in
        let rZ := fwdX * upRefY - fwdY * upRefX in
        let rLen := sqrt (rX * rX + rY * rY + rZ * rZ) in
        if rLen <? 0.0001 then (1, 0, 0, 1) else (rX, rY, rZ, rLen)
      else (rightX0, rightY0, rightZ0, rightLen0) in
    let rightX := rightX1 / rightLen in
    let rightY := rightY1 / rightLen in
    let rightZ := rightZ1 / rightLen in
    let upX := rightY * fwdZ - rightZ * fwdY in
    let upY := rightZ * fwdX - rightX * fwdZ in
    let upZ := rightX * fwdY - rightY * fwdX in
    quaternionFromRotationMatrix rightX upX (- fwdX)
                                 rightY upY (- fwdY)
                                 rightZ upZ (- fwdZ)
  | _, _ => identity
  end.

(** ** Spaces and poses *)

(** [XRSpace]: its [_transform]. *)
Record XRSpace : Type := mkXRSpace { _transform : XRRigidTransform }.

Definition XRSpace_new : XRSpace :=
  {| _transform := XRRigidTransform_new None None |}.

Module XRJointSpace.
Record t : Type := mk {
  space : XRSpace;                (* the XRSpace it extends *)
  jointName : string;
  _handData : HandData.t;
  _jointIndex : nat;
  _radius : R
}.

Definition set_handData (v : HandData.t) (s : t) : t :=
mk (space s) (jointName s) v (_jointIndex s) (_radius s).
End XRJointSpace.

(** [new XRJointSpace( jointName, handData, jointIndex )] *)
Definition XRJointSpace_new (jointName : string) (handData : HandData.t)
    (jointIndex : nat) : XRJointSpace.t :=
  {| XRJointSpace.space := XRSpace_new;
     XRJointSpace.jointName := jointName;
     XRJointSpace._handData := handData;
     XRJointSpace._jointIndex := jointIndex;
     XRJointSpace._radius := 0.01 |}.

Module XRPose.
Record t : Type := mk { transform : XRRigidTransform; emulatedPosition : bool }.
End XRPose.

Definition XRPose_new (transform : XRRigidTransform) : XRPose.t :=
  {| XRPose.transform := transform; XRPose.emulatedPosition := true |}.

Module XRJointPose.
Record t : Type := mk { pose : XRPose.t; radius : R }.
End XRJointPose.

Definition XRJointPose_new (transform : XRRigidTransform) (radius : R) : XRJointPose.t :=
  {| XRJointPose.pose := XRPose_new transform; XRJointPose.radius := radius |}.

(** [XRJointSpace._getPose()]; [None] is [null]. *)
Definition _getPose (js : XRJointSpace.t) : option XRPose.t :=
  let joints := HandData.joints (XRJointSpace._handData js) in
  match joints !! XRJointSpace._jointIndex js with
  | None => None
  | Some joint =>
    let palmNormal :=
      default (Vec3.mk 0 1 0) (HandData.palmNormal (XRJointSpace._handData js)) in
    let handedness :=
      default right_hand (HandData.handedness (XRJointSpace._handData js)) in
    let position :=
      DOMPointReadOnly (Vec3.x (Joint.position joint)) (Vec3.y (Joint.position joint))
                       (Vec3.z (Joint.position joint)) 1 in
    let q := computeJointOrientation joints (XRJointSpace._jointIndex js)
                                     palmNormal handedness in
    let orientation := DOMPointReadOnly (Vec4.x q) (Vec4.y q) (Vec4.z q) (Vec4.w q) in
    Some (XRPose_new (XRRigidTransform_new (Some position) (Some orientation)))
  end.

(** [XRJointSpace._getJointPose()] *)
Definition _getJointPose (js : XRJointSpace.t) : option XRJointPose.t :=
  match _getPose js with
  | None => None
  | Some pose => Some (XRJointPose_new (XRPose.transform pose) (XRJointSpace._radius js))
  end.

(** What an application can pass where the API expects a space. *)
Inductive SpaceArgument : Type :=
  | JointSpaceArg (js : XRJointSpace.t)
  | SpaceArg (s : XRSpace)
  | OtherArg.

(** [XRFrame.getPose( space )] *)
Definition getPose (space : SpaceArgument) : option XRPose.t :=
  match space with
  | JointSpaceArg js => _getPose js
  | SpaceArg s => Some (XRPose_new (_transform s))
  | OtherArg => None
  end.

(** [XRFrame.getJointPose( joint )] *)
Definition getJointPose (joint : SpaceArgument) : option XRJointPose.t :=
  match joint with
  | JointSpaceArg js => _getJointPose js
  | _ => None
  end.

(** ** [XRHand] *)

Definition HAND_JOINTS : list string :=
  [ "wrist";
    "thumb-metacarpal"; "thumb-phalanx-proximal"; "thumb-phalanx-distal"; "thumb-tip";
    "index-finger-metacarpal"; "index-finger-phalanx-proximal";
    "index-finger-phalanx-intermediate"; "index-finger-phalanx-distal"; "index-finger-tip";
    "middle-finger-metacarpal"; "middle-finger-phalanx-proximal";
    "middle-finger-phalanx-intermediate"; "middle-finger-phalanx-distal"; "middle-finger-tip";
    "ring-finger-metacarpal"; "ring-finger-phalanx-proximal";
    "ring-finger-phalanx-intermediate"; "ring-finger-phalanx-distal"; "ring-finger-tip";
    "pinky-finger-metacarpal"; "pinky-finger-phalanx-proximal";
    "pinky-finger-phalanx-intermediate"; "pinky-finger-phalanx-distal"; "pinky-finger-tip"
  ]%string.

Module XRHand.
(** The [Map] from joint name to joint space, and [_handData]. *)
Record t : Type := mk {
  entries : gmap string XRJointSpace.t;
  _handData : option HandData.t
}.
End XRHand.

(** The loop of the constructor, from index [i] on. *)
Fixpoint XRHand_fill (names : list string) (i : nat)
    (m : gmap string XRJointSpace.t) : gmap string XRJointSpace.t :=
  match names with
  | [] => m
  | name :: rest =>
      XRHand_fill rest (S i) (<[name := XRJointSpace_new name HandData.empty i]> m)
  end.

(** [new XRHand( handData )] *)
Definition XRHand_new (handData : option HandData.t) : XRHand.t :=
  {| XRHand.entries := XRHand_fill HAND_JOINTS 0 ∅;
     XRHand._handData := handData |}.

(** The loop of [_update]; [None] is the [TypeError] of a missing entry. *)
Fixpoint XRHand_assign (names : list string) (handData : HandData.t)
    (m : gmap string XRJointSpace.t) : option (gmap string XRJointSpace.t) :=
  match names with
  | [] => Some m
  | name :: rest =>
      js ← m !! name;
      XRHand_assign rest handData
        (<[name := XRJointSpace.set_handData handData js]> m)
  end.

(** [XRHand._update( handData )] *)
Definition XRHand_update (handData : option HandData.t) (h : XRHand.t) : option XRHand.t :=
  m ← XRHand_assign HAND_JOINTS (default HandData.empty handData) (XRHand.entries h);
  Some {| XRHand.entries := m; XRHand._handData := handData |}.

(** ** Reference spaces and the viewer pose *)

Module XRReferenceSpace.
Record t : Type := mk {
  _type : string;
  _originOffset : option XRRigidTransform
}.
End XRReferenceSpace.

(** [new XRReferenceSpace( type )] *)
Definition XRReferenceSpace_new (type : string) : XRReferenceSpace.t :=
  {| XRReferenceSpace._type := type; XRReferenceSpace._originOffset := None |}.

(** [getOffsetReferenceSpace( originOffset )] *)
Definition getOffsetReferenceSpace (this : XRReferenceSpace.t)
    (originOffset : XRRigidTransform) : XRReferenceSpace.t :=
  {| XRReferenceSpace._type := XRReferenceSpace._type this;
     XRReferenceSpace._originOffset := Some originOffset |}.

Inductive XREye : Type := eye_none | eye_left | eye_right.

Module XRView.
Record t : Type := mk {
  eye : XREye;
  transform : XRRigidTransform;
  projectionMatrix : list R;
  recommendedViewportScale : R
}.
End XRView.

(** [new XRView( eye, viewerTransform )] *)
Definition XRView_new (eye : XREye) (viewerTransform : XRRigidTransform) : XRView.t :=
  let eyeOffset :=
    match eye with eye_left => - 0.032 | eye_right => 0.032 | eye_none => 0 end in
  let position :=
    DOMPointReadOnly (Vec4.x (position viewerTransform) + eyeOffset)
                     (Vec4.y (position viewerTransform))
                     (Vec4.z (position viewerTransform))
                     1 in
  let near := 0.1 in let far := 1000 in let fov := PI / 2 in
  let f := 1.0 / tan (fov / 2) in
  {| XRView.eye := eye;
     XRView.transform :=
       XRRigidTransform_new (Some position) (Some (orientation viewerTransform));
     XRView.projectionMatrix :=
       [ f; 0; 0; 0;
         0; f; 0; 0;
         0; 0; (far + near) / (near - far); - 1;
         0; 0; (2 * far * near) / (near - far); 0 ];
     XRView.recommendedViewportScale := 1 |}.

Module XRViewerPose.
Record t : Type := mk {
  transform : XRRigidTransform;
  emulatedPosition : bool;
  views : list XRView.t
}.
End XRViewerPose.

(** [new XRViewerPose( referenceSpace )], with the [headPosition],
    [headRotation] and [config.stereo] it reads. *)
Definition XRViewerPose_new (head : HeadState) (stereo : bool)
    (referenceSpace : XRReferenceSpace.t) : XRViewerPose.t :=
  let heightOffset :=
    if String.eqb (XRReferenceSpace._type referenceSpace) "local-floor"
       || String.eqb (XRReferenceSpace._type referenceSpace) "bounded-floor"
    then standingHeight else 0 in
  let posX := Vec3.x (headPosition head) in
  let posY := Vec3.y (headPosition head) + heightOffset in
  let posZ := Vec3.z (headPosition head) in
  let '(posX, posY, posZ) :=
    match XRReferenceSpace._originOffset referenceSpace with
    | Some offset =>
        (posX - Vec4.x (position offset),
         posY - Vec4.y (position offset),
         posZ - Vec4.z (position offset))
    | None => (posX, posY, posZ)
    end in
  let position := DOMPointReadOnly posX posY posZ 1 in
  let orientation :=
    DOMPointReadOnly (Vec4.x (headRotation head)) (Vec4.y (headRotation head))
                     (Vec4.z (headRotation head)) (Vec4.w (headRotation head)) in
  let transform := XRRigidTransform_new (Some position) (Some orientation) in
  {| XRViewerPose.transform := transform;
     XRViewerPose.emulatedPosition := true;
     XRViewerPose.views :=
       if stereo
       then [ XRView_new eye_left transform; XRView_new eye_right transform ]
       else [ XRView_new eye_none transform ] |}.

(** [XRFrame.getViewerPose( referenceSpace )] *)
Definition getViewerPose (head : HeadState) (stereo : bool)
    (referenceSpace : XRReferenceSpace.t) : XRViewerPose.t :=
  XRViewerPose_new head stereo referenceSpace.

(** ** Events

    An event is recorded with the session it is dispatched on.  The
    [frame] property of a select event is not modelled. *)

Inductive XREvent : Type :=
  | XRSessionEvent (type : string)
  | XRSelectEvent (type : string) (inputSource : Handedness)
  | XRInputSourcesChangeEvent (type : string) (added removed : list Handedness).

Definition Dispatch : Type := (nat * XREvent)%type.

(** ** Input sources *)

Module GamepadButton.
Record t : Type := mk { pressed : bool; touched : bool; value : R }.
End GamepadButton.

Module Gamepad.
(** [timestamp], a reading of the clock, is left out. *)
Record t : Type := mk {
  axes : list R;
  buttons : list GamepadButton.t;
  connected : bool;
  hand : Handedness;
  index : nat
}.
End Gamepad.

Module XRInputSource.
Record t : Type := mk {
  handedness : Handedness;
  targetRaySpace : XRSpace;
  gripSpace : XRSpace;
  gamepad : Gamepad.t;
  profiles : list string;
  hand : option XRHand.t;
  _pinchThreshold : option R;      (* [undefined] with hand tracking *)
  _isPinching : option bool;       (* [undefined] with hand tracking *)
  _handTrackingEnabled : bool;
  _session : option nat
}.

Definition set_hand (v : option XRHand.t) (s : t) : t :=
  mk (handedness s) (targetRaySpace s) (gripSpace s) (gamepad s) (profiles s)
     v (_pinchThreshold s) (_isPinching s) (_handTrackingEnabled s) (_session s).
Definition set_spaces (v : XRSpace) (s : t) : t :=
  mk (handedness s) v v (gamepad s) (profiles s)
     (hand s) (_pinchThreshold s) (_isPinching s) (_handTrackingEnabled s) (_session s).
Definition set_gamepad (v : Gamepad.t) (s : t) : t :=
  mk (handedness s) (targetRaySpace s) (gripSpace s) v (profiles s)
     (hand s) (_pinchThreshold s) (_isPinching s) (_handTrackingEnabled s) (_session s).
Definition set_isPinching (v : bool) (s : t) : t :=
  mk (handedness s) (targetRaySpace s) (gripSpace s) (gamepad s) (profiles s)
     (hand s) (_pinchThreshold s) (Some v) (_handTrackingEnabled s) (_session s).
End XRInputSource.

(** The distance between the tips of the thumb and of the index finger,
    as [_updateGamepad] and [_detectGestures] compute it. *)
Definition pinchDist (thumbTip indexTip : Vec3.t) : R :=
  sqrt ((Vec3.x thumbTip - Vec3.x indexTip) ^ 2
        + (Vec3.y thumbTip - Vec3.y indexTip) ^ 2
        + (Vec3.z thumbTip - Vec3.z indexTip) ^ 2).

(** [XRInputSource._updateGamepad( handData )]: the three fields of
    [buttons[ 0 ]].  The [timestamp] of the gamepad, which the method sets
    last to the time of the call (line 1429), is not part of the model. *)
Definition _updateGamepad (handData : HandData.t) (this : XRInputSource.t)
    : XRInputSource.t :=
  let joints := HandData.joints handData in
  if (length joints <? 10)%nat then this else
  match joints !! 4%nat, joints !! 9%nat with
  | Some thumb, Some index =>
    let d := pinchDist (Joint.position thumb) (Joint.position index) in
    let pinchThreshold :=
      match XRInputSource._pinchThreshold this with
      | Some t => if Reqb t 0 then 0.05 else t
      | None => 0.05
      end in
    let triggerValue := Rmax 0 (1 - d / pinchThreshold) in
    let g := XRInputSource.gamepad this in
    XRInputSource.set_gamepad
      {| Gamepad.axes := Gamepad.axes g;
         Gamepad.buttons :=
           <[0%nat := {| GamepadButton.pressed := d <? pinchThreshold;
                         GamepadButton.touched := d <? pinchThreshold * 2;
                         GamepadButton.value := Rmin 1 triggerValue |}]>
             (Gamepad.buttons g);
         Gamepad.connected := Gamepad.connected g;
         Gamepad.hand := Gamepad.hand g;
         Gamepad.index := Gamepad.index g |}
      this
  | _, _ => this
  end.

(** [XRInputSource._detectGestures( handData )]: the input source after the
    call and the events dispatched, oldest first.  [None] is the
    [TypeError] of dispatching on a missing session. *)
Definition _detectGestures (handData : HandData.t) (this : XRInputSource.t)
    : option (XRInputSource.t * list Dispatch) :=
  let joints := HandData.joints handData in
  if (length joints <? 10)%nat then Some (this, []) else
  match joints !! 4%nat, joints !! 9%nat with
  | Some thumb, Some index =>
    let d := pinchDist (Joint.position thumb) (Joint.position index) in
    let isPinching :=
      match XRInputSource._pinchThreshold this with
      | Some t => d <? t
      | None => false
      end in
    let wasPinching := default false (XRInputSource._isPinching this) in
    if isPinching && negb wasPinching then
      session ← XRInputSource._session this;
      Some (XRInputSource.set_isPinching true this,
            [(session, XRSelectEvent "selectstart" (XRInputSource.handedness this))])
    else if negb isPinching && wasPinching then
      session ← XRInputSource._session this;
      Some (XRInputSource.set_isPinching false this,
            [(session, XRSelectEvent "selectend" (XRInputSource.handedness this))])
    else Some (this, [])
  | _, _ => Some (this, [])
  end.

(** [XRInputSource._updateHand( handData )] *)
Definition _updateHand (handData : option HandData.t) (this : XRInputSource.t)
    : option (XRInputSource.t * list Dispatch) :=
  this1 ←
    (match XRInputSource.hand this with
     | Some h =>
         if XRInputSource._handTrackingEnabled this
         then h' ← XRHand_update handData h; Some (XRInputSource.set_hand (Some h') this)
         else Some this
     | None => Some this
     end);
  match handData with
  | None => Some (this1, [])
  | Some hd =>
    match HandData.joints hd !! 0%nat with
    | None => Some (this1, [])
    | Some wrist =>
      let t :=
        XRRigidTransform_new
          (Some (DOMPointReadOnly (Vec3.x (Joint.position wrist))
                                  (Vec3.y (Joint.position wrist))
                                  (Vec3.z (Joint.position wrist)) 1))
          (Some (DOMPointReadOnly 0 0 0 1)) in
      let this2 := XRInputSource.set_spaces {| _transform := t |} this1 in
      let this3 := _updateGamepad hd this2 in
      if negb (XRInputSource._handTrackingEnabled this3)
         && bool_decide (is_Some (XRInputSource._session this3))
      then _detectGestures hd this3
      else Some (this3, [])
    end
  end.

(** [new XRInputSource( handedness, handData, handTrackingEnabled, session )] *)
Definition XRInputSource_new (handedness : Handedness) (handData : option HandData.t)
    (handTrackingEnabled : bool) (session : option nat)
    : option (XRInputSource.t * list Dispatch) :=
  let button := {| GamepadButton.pressed := false; GamepadButton.touched := false;
                   GamepadButton.value := 0 |} in
  _updateHand handData
    {| XRInputSource.handedness := handedness;
       XRInputSource.targetRaySpace := XRSpace_new;
       XRInputSource.gripSpace := XRSpace_new;
       XRInputSource.gamepad :=
         {| Gamepad.axes := [0; 0; 0; 0];
            Gamepad.buttons := [button; button; button; button];
            Gamepad.connected := true;
            Gamepad.hand := handedness;
            Gamepad.index := match handedness with left_hand => 0 | right_hand => 1 end |};
       XRInputSource.profiles :=
         if handTrackingEnabled
         then ["generic-hand"; "generic-hand-select"]%string
         else ["generic-trigger"; "generic-touchpad"]%string;
       XRInputSource.hand :=
         if handTrackingEnabled then Some (XRHand_new handData) else None;
       XRInputSource._pinchThreshold :=
         if handTrackingEnabled then None else Some 0.05;
       XRInputSource._isPinching :=
         if handTrackingEnabled then None else Some false;
       XRInputSource._handTrackingEnabled := handTrackingEnabled;
       XRInputSource._session := session |}.

Module XRInputSourceArray.
(** The array holds references to [_leftHand] and [_rightHand]: its
    elements are recorded by side. *)
Record t : Type := mk {
  items : list Handedness;
  _handTrackingEnabled : bool;
  _leftHand : option XRInputSource.t;
  _rightHand : option XRInputSource.t;
  _leftHandActive : bool;
  _rightHandActive : bool;
  _session : option nat
}.

Definition set_session (v : option nat) (handTracking : bool) (a : t) : t :=
mk (items a) handTracking (_leftHand a) (_rightHand a)
   (_leftHandActive a) (_rightHandActive a) v.
End XRInputSourceArray.

(** [new XRInputSourceArray()] *)
Definition XRInputSourceArray_new : XRInputSourceArray.t :=
  {| XRInputSourceArray.items := [];
     XRInputSourceArray._handTrackingEnabled := false;
     XRInputSourceArray._leftHand := None;
     XRInputSourceArray._rightHand := None;
     XRInputSourceArray._leftHandActive := false;
     XRInputSourceArray._rightHandActive := false;
     XRInputSourceArray._session := None |}.

Module SideUpdate.
(** What one of the two blocks of [_update] leaves behind. *)
Record t : Type := mk {
  source : option XRInputSource.t;
  active : bool;
  events : list Dispatch;
  added : list Handedness;
  removed : list Handedness
}.
End SideUpdate.

(** One of the two blocks "Handle left hand" / "Handle right hand" of
    [XRInputSourceArray._update], which are the same text with the side
    exchanged (lines 1229-1265 and 1268-1304). *)
Definition updateSide (side : Handedness) (handTrackingEnabled : bool)
    (session : option nat) (data : option HandData.t)
    (source : option XRInputSource.t) (active : bool) : option SideUpdate.t :=
  let isVisible := match data with Some d => HandData.visible d | None => false end in
  if isVisible && negb active then
    r ← (match source with
         | None => XRInputSource_new side data handTrackingEnabled session
         | Some src => _updateHand data src
         end);
    Some {| SideUpdate.source := Some r.1; SideUpdate.active := true;
            SideUpdate.events := r.2;
            SideUpdate.added := [side]; SideUpdate.removed := [] |}
  else if negb isVisible && active then
    r ← (if negb handTrackingEnabled
         then
           src ← source;
           if default false (XRInputSource._isPinching src)
           then
             s ← session;
             Some (Some (XRInputSource.set_isPinching false src),
                   [(s, XRSelectEvent "selectend" side)])
           else Some (source, [])
         else Some (source, []));
    Some {| SideUpdate.source := r.1; SideUpdate.active := false;
            SideUpdate.events := r.2;
            SideUpdate.added := []; SideUpdate.removed := [side] |}
  else
    match source with
    | Some src =>
      if isVisible then
        r ← _updateHand data src;
        Some {| SideUpdate.source := Some r.1; SideUpdate.active := active;
                SideUpdate.events := r.2;
                SideUpdate.added := []; SideUpdate.removed := [] |}
      else Some {| SideUpdate.source := source; SideUpdate.active := active;
                   SideUpdate.events := [];
                   SideUpdate.added := []; SideUpdate.removed := [] |}
    | None => Some {| SideUpdate.source := source; SideUpdate.active := active;
                      SideUpdate.events := [];
                      SideUpdate.added := []; SideUpdate.removed := [] |}
    end.

(** [XRInputSourceArray._update( leftData, rightData )] *)
Definition XRInputSourceArray_update (leftData rightData : option HandData.t)
    (this : XRInputSourceArray.t) : option (XRInputSourceArray.t * list Dispatch) :=
  l ← updateSide left_hand (XRInputSourceArray._handTrackingEnabled this)
        (XRInputSourceArray._session this) leftData
        (XRInputSourceArray._leftHand this) (XRInputSourceArray._leftHandActive this);
  r ← updateSide right_hand (XRInputSourceArray._handTrackingEnabled this)
        (XRInputSourceArray._session this) rightData
        (XRInputSourceArray._rightHand this) (XRInputSourceArray._rightHandActive this);
  let added := SideUpdate.added l ++ SideUpdate.added r in
  let removed := SideUpdate.removed l ++ SideUpdate.removed r in
  let change :=
    match XRInputSourceArray._session this with
    | Some s =>
        if ((0 <? length added)%nat || (0 <? length removed)%nat)%bool
        then [(s, XRInputSourcesChangeEvent "inputsourceschange" added removed)]
        else []
    | None => []
    end in
  Some ({| XRInputSourceArray.items :=
             (if SideUpdate.active l then [left_hand] else [])
             ++ (if SideUpdate.active r then [right_hand] else []);
           XRInputSourceArray._handTrackingEnabled :=
             XRInputSourceArray._handTrackingEnabled this;
           XRInputSourceArray._leftHand := SideUpdate.source l;
           XRInputSourceArray._rightHand := SideUpdate.source r;
           XRInputSourceArray._leftHandActive := SideUpdate.active l;
           XRInputSourceArray._rightHandActive := SideUpdate.active r;
           XRInputSourceArray._session := XRInputSourceArray._session this |},
        SideUpdate.events l ++ SideUpdate.events r ++ change).

(** ** Sessions *)

Module XRRenderState.
Record t : Type := mk {
  baseLayer : option nat;
  depthNear : R;
  depthFar : R;
  inlineVerticalFieldOfView : R
}.
End XRRenderState.

Module XRSessionInit.
(** The [options] of [requestSession]. *)
Record t : Type := mk {
  requiredFeatures : option (list string);
  optionalFeatures : option (list string)
}.
End XRSessionInit.

Module XRSession.
(** Frame callbacks are functions of the application; each is
    represented by a number.  [_frameCallbacks] keeps the insertion
    order of the [Map]. *)
Record t : Type := mk {
  mode : string;
  environmentBlendMode : string;
  visibilityState : string;
  renderState : XRRenderState.t;
  inputSources : XRInputSourceArray.t;
  _options : XRSessionInit.t;
  _frameCallbacks : list (nat * nat);
  _nextCallbackId : nat;
  _animationFrameId : option nat;
  _ended : bool;
  _referenceSpaces : gmap string XRReferenceSpace.t
}.

Definition set_animationFrameId (v : option nat) (s : t) : t :=
  mk (mode s) (environmentBlendMode s) (visibilityState s) (renderState s)
     (inputSources s) (_options s) (_frameCallbacks s) (_nextCallbackId s)
     v (_ended s) (_referenceSpaces s).
Definition set_ended (v : bool) (s : t) : t :=
  mk (mode s) (environmentBlendMode s) (visibilityState s) (renderState s)
     (inputSources s) (_options s) (_frameCallbacks s) (_nextCallbackId s)
     (_animationFrameId s) v (_referenceSpaces s).
Definition set_frameCallbacks (v : list (nat * nat)) (n : nat) (s : t) : t :=
  mk (mode s) (environmentBlendMode s) (visibilityState s) (renderState s)
     (inputSources s) (_options s) v n
     (_animationFrameId s) (_ended s) (_referenceSpaces s).
Definition set_referenceSpaces (v : gmap string XRReferenceSpace.t) (s : t) : t :=
  mk (mode s) (environmentBlendMode s) (visibilityState s) (renderState s)
     (inputSources s) (_options s) (_frameCallbacks s) (_nextCallbackId s)
     (_animationFrameId s) (_ended s) v.
Definition set_inputSources (v : XRInputSourceArray.t) (s : t) : t :=
  mk (mode s) (environmentBlendMode s) (visibilityState s) (renderState s)
     v (_options s) (_frameCallbacks s) (_nextCallbackId s)
     (_animationFrameId s) (_ended s) (_referenceSpaces s).
End XRSession.

(** [array.includes( 'hand-tracking' )] *)
Definition includes (feature : string) (l : list string) : bool :=
  existsb (String.eqb feature) l.

(** The [<video>] element: the stream it plays, if any. *)
Record VideoElement : Type := mkVideoElement { srcObject : option nat }.

Module World.
(** The module-level variables of the polyfill, the session objects, and
    what of the page the session code acts on: the animation frames the
    window holds pending (each with the session whose loop it will run),
    the camera streams whose tracks were stopped, the number of
    background tracking start-ups, and the events dispatched so far. *)
Record t : Type := mk {
  videoElement : option VideoElement;
  isTracking : bool;
  currentSession : option nat;
  head : HeadState;
  leftHandData : option HandData.t;
  rightHandData : option HandData.t;
  stereo : bool;
  sessions : gmap nat XRSession.t;
  animationFrames : gmap nat nat;
  nextAnimationFrame : nat;
  stoppedStreams : list nat;
  trackingStarts : nat;
  dispatched : list Dispatch
}.

Definition set_videoElement (v : option VideoElement) (l : list nat) (w : t) : t :=
  mk v (isTracking w) (currentSession w) (head w) (leftHandData w) (rightHandData w)
     (stereo w) (sessions w) (animationFrames w) (nextAnimationFrame w)
     l (trackingStarts w) (dispatched w).
Definition set_isTracking (v : bool) (w : t) : t :=
  mk (videoElement w) v (currentSession w) (head w) (leftHandData w) (rightHandData w)
     (stereo w) (sessions w) (animationFrames w) (nextAnimationFrame w)
     (stoppedStreams w) (trackingStarts w) (dispatched w).
Definition set_currentSession (v : option nat) (w : t) : t :=
  mk (videoElement w) (isTracking w) v (head w) (leftHandData w) (rightHandData w)
     (stereo w) (sessions w) (animationFrames w) (nextAnimationFrame w)
     (stoppedStreams w) (trackingStarts w) (dispatched w).
Definition set_sessions (v : gmap nat XRSession.t) (w : t) : t :=
  mk (videoElement w) (isTracking w) (currentSession w) (head w) (leftHandData w)
     (rightHandData w) (stereo w) v (animationFrames w) (nextAnimationFrame w)
     (stoppedStreams w) (trackingStarts w) (dispatched w).
Definition set_animationFrames (v : gmap nat nat) (n : nat) (w : t) : t :=
  mk (videoElement w) (isTracking w) (currentSession w) (head w) (leftHandData w)
     (rightHandData w) (stereo w) (sessions w) v n
     (stoppedStreams w) (trackingStarts w) (dispatched w).
Definition set_trackingStarts (v : nat) (w : t) : t :=
  mk (videoElement w) (isTracking w) (currentSession w) (head w) (leftHandData w)
     (rightHandData w) (stereo w) (sessions w) (animationFrames w) (nextAnimationFrame w)
     (stoppedStreams w) v (dispatched w).
Definition set_tracking (h : HeadState) (l r : option HandData.t) (w : t) : t :=
  mk (videoElement w) (isTracking w) (currentSession w) h l r
     (stereo w) (sessions w) (animationFrames w) (nextAnimationFrame w)
     (stoppedStreams w) (trackingStarts w) (dispatched w).
Definition set_dispatched (v : list Dispatch) (w : t) : t :=
  mk (videoElement w) (isTracking w) (currentSession w) (head w) (leftHandData w)
     (rightHandData w) (stereo w) (sessions w) (animationFrames w) (nextAnimationFrame w)
     (stoppedStreams w) (trackingStarts w) v.
End World.

(** The state in which the polyfill is installed. *)
Definition initialWorld : World.t :=
  {| World.videoElement := None;
     World.isTracking := false;
     World.currentSession := None;
     World.head := initialHead;
     World.leftHandData := None;
     World.rightHandData := None;
     World.stereo := false;
     World.sessions := ∅;
     World.animationFrames := ∅;
     World.nextAnimationFrame := 1;
     World.stoppedStreams := [];
     World.trackingStarts := 0;
     World.dispatched := [] |}.

(** [window.requestAnimationFrame( loop )] for the loop of session [s]:
    the handle returned, and the world with the frame pending. *)
Definition window_requestAnimationFrame (s : nat) (w : World.t) : nat * World.t :=
  let id := World.nextAnimationFrame w in
  (id, World.set_animationFrames (<[id := s]> (World.animationFrames w)) (S id) w).

(** [window.cancelAnimationFrame( id )] *)
Definition window_cancelAnimationFrame (id : nat) (w : World.t) : World.t :=
  World.set_animationFrames (delete id (World.animationFrames w))
                            (World.nextAnimationFrame w) w.

(** [stopCamera()] *)
Definition stopCamera (w : World.t) : World.t :=
  match World.videoElement w with
  | Some v =>
      World.set_videoElement None
        (World.stoppedStreams w
         ++ match srcObject v with Some stream => [stream] | None => [] end) w
  | None => w
  end.

(** The camera delivering stream [stream] to [startCamera()], once the
    background start-up gets that far. *)
Definition startCamera (stream : nat) (w : World.t) : World.t :=
  World.set_videoElement (Some {| srcObject := Some stream |}) (World.stoppedStreams w) w.

(** [new XRSession( mode, options )]: the session object is stored at a
    fresh address, with its first animation frame requested. *)
Definition XRSession_new (mode : string) (options : XRSessionInit.t) (w : World.t)
    : nat * World.t :=
  let this := fresh (dom (World.sessions w)) in
  let requiredFeatures := default [] (XRSessionInit.requiredFeatures options) in
  let optionalFeatures := default [] (XRSessionInit.optionalFeatures options) in
  let inputSources :=
    XRInputSourceArray.set_session (Some this)
      (includes "hand-tracking" requiredFeatures
       || includes "hand-tracking" optionalFeatures)
      XRInputSourceArray_new in
  let '(id, w1) := window_requestAnimationFrame this w in
  let session :=
    {| XRSession.mode := mode;
       XRSession.environmentBlendMode :=
         if String.eqb mode "immersive-ar" then "alpha-blend" else "opaque";
       XRSession.visibilityState := "visible";
       XRSession.renderState :=
         {| XRRenderState.baseLayer := None;
            XRRenderState.depthNear := 0.1;
            XRRenderState.depthFar := 1000.0;
            XRRenderState.inlineVerticalFieldOfView := PI / 2 |};
       XRSession.inputSources := inputSources;
       XRSession._options := options;
       XRSession._frameCallbacks := [];
       XRSession._nextCallbackId := 1;
       XRSession._animationFrameId := Some id;
       XRSession._ended := false;
       XRSession._referenceSpaces := ∅ |} in
  (this, World.set_sessions (<[this := session]> (World.sessions w1)) w1).

(** What a call of the API hands back: a value, or the exception thrown
    (the rejection of the promise, for an [async] method). *)
Inductive Completion (A : Type) : Type :=
  | Returned (a : A)
  | Thrown (name message : string).
Arguments Returned {A} a.
Arguments Thrown {A} name message.

(** [XRSystem.requestSession( mode, options )] *)
Definition requestSession (mode : string) (options : XRSessionInit.t) (w : World.t)
    : Completion nat * World.t :=
  match World.currentSession w with
  | Some _ => (Thrown "InvalidStateError" "Session already active", w)
  | None =>
      let '(s, w1) := XRSession_new mode options w in
      let w2 := World.set_currentSession (Some s) w1 in
      let w3 := World.set_isTracking true w2 in
      let w4 := World.set_trackingStarts (S (World.trackingStarts w3)) w3 in
      (Returned s, w4)
  end.

(** [XRSession.end()], on the session object at address [this].  [None]
    only when there is no object at that address. *)
Definition XRSession_end (this : nat) (w : World.t) : option World.t :=
  session ← World.sessions w !! this;
  let w1 := World.set_sessions
              (<[this := XRSession.set_ended true session]> (World.sessions w)) w in
  let w2 := World.set_isTracking false w1 in
  let w3 := match XRSession._animationFrameId session with
            | Some id => if (id =? 0)%nat then w2 else window_cancelAnimationFrame id w2
            | None => w2
            end in
  let w4 := stopCamera w3 in
  let w5 := World.set_currentSession None w4 in
  Some (World.set_dispatched (World.dispatched w5 ++ [(this, XRSessionEvent "end")]) w5).

(** [XRSession.requestReferenceSpace( type )] *)
Definition requestReferenceSpace (type : string) (s : XRSession.t)
    : XRReferenceSpace.t * XRSession.t :=
  match XRSession._referenceSpaces s !! type with
  | Some space => (space, s)
  | None =>
      let space := XRReferenceSpace_new type in
      (space, XRSession.set_referenceSpaces (<[type := space]> (XRSession._referenceSpaces s)) s)
  end.

(** [XRSession.requestAnimationFrame( callback )] *)
Definition requestAnimationFrame (callback : nat) (s : XRSession.t) : nat * XRSession.t :=
  let id := XRSession._nextCallbackId s in
  (id,
   XRSession.set_frameCallbacks
     (if bool_decide (id ∈ (XRSession._frameCallbacks s).*1)
      then (λ e, if (e.1 =? id)%nat then (id, callback) else e) <$> XRSession._frameCallbacks s
      else XRSession._frameCallbacks s ++ [(id, callback)])
     (S id) s).

(** [XRSession.cancelAnimationFrame( id )] *)
Definition cancelAnimationFrame (id : nat) (s : XRSession.t) : XRSession.t :=
  XRSession.set_frameCallbacks
    (filter (λ e, e.1 ≠ id) (XRSession._frameCallbacks s))
    (XRSession._nextCallbackId s) s.

(** ** The camera frame and the frame loop *)

Module HandResult.
(** One detected hand: the label of its first handedness category, its
    landmarks, and its world landmarks when the detector gives them. *)
Record t : Type := mk {
  categoryName : string;
  landmarks : list Vec3.t;
  worldLandmarks : option (list Vec3.t)
}.
End HandResult.

(** The loop over the detected hands (lines 198-215), on the pair
    ([leftHandData], [rightHandData]). *)
Fixpoint processHands (headPos : Vec3.t) (hands : list HandResult.t)
    (data : option HandData.t * option HandData.t)
    : option (option HandData.t * option HandData.t) :=
  match hands with
  | [] => Some data
  | h :: rest =>
      if String.eqb (HandResult.categoryName h) "Left" then
        d ← processHandLandmarks headPos (HandResult.landmarks h)
              (HandResult.worldLandmarks h) left_hand;
        processHands headPos rest (Some d, data.2)
      else
        d ← processHandLandmarks headPos (HandResult.landmarks h)
              (HandResult.worldLandmarks h) right_hand;
        processHands headPos rest (data.1, Some d)
  end.

(** [processFrame()] past its guards (lines 177-217), on a camera frame
    for which the detectors answer [face] and [hands]: the new values of
    [headPosition], [headRotation], [leftHandData] and [rightHandData].
    A call stopped by a guard changes nothing and is not a call here. *)
Definition processFrame (face : FaceResult) (hands : option (list HandResult.t))
    (h : HeadState)
    : option (HeadState * option HandData.t * option HandData.t) :=
  h' ← (match face with
        | FaceMatrix m => Some (updateHeadFromMatrix m h)
        | FaceLandmarks l => updateHeadFromLandmarks l h
        | NoFace => Some h
        end);
  d ← processHands (headPosition h') (default [] hands) (None, None);
  Some (h', d.1, d.2).

(** The frame loop of [_startFrameLoop], in the two parts that surround
    the calls of the application's callbacks. *)

Inductive LoopEntry : Type :=
  | LoopReturned (w : World.t)
  | LoopCalls (callbacks : list (nat * nat)) (w : World.t).

(** [loop_enter] is the window firing the pending frame [id].  When the
    session has ended the loop returns at once.  Otherwise [processFrame]
    runs ([camera] is what the detectors answer when its guards let a new
    camera frame through, [None] when they do not), the hand data are
    pushed to the input sources, and the callbacks registered so far are
    taken out, to be called in this order.  [None] when no such frame is
    pending or an exception escapes the loop. *)
Definition loop_enter (id : nat)
    (camera : option (FaceResult * option (list HandResult.t))) (w : World.t)
    : option LoopEntry :=
  this ← World.animationFrames w !! id;
  session ← World.sessions w !! this;
  let w1 := window_cancelAnimationFrame id w in
  if XRSession._ended session then Some (LoopReturned w1) else
  w2 ← (match camera with
        | Some c =>
            t ← processFrame c.1 c.2 (World.head w1);
            Some (World.set_tracking t.1.1 t.1.2 t.2 w1)
        | None => Some w1
        end);
  r ← XRInputSourceArray_update (World.leftHandData w2) (World.rightHandData w2)
        (XRSession.inputSources session);
  let callbacks := XRSession._frameCallbacks session in
  let session' :=
    XRSession.set_frameCallbacks [] (XRSession._nextCallbackId session)
      (XRSession.set_inputSources r.1 session) in
  let w3 := World.set_sessions (<[this := session']> (World.sessions w2)) w2 in
  Some (LoopCalls callbacks (World.set_dispatched (World.dispatched w3 ++ r.2) w3)).

(** [loop_leave]: after the callbacks, the next frame is requested and
    its handle stored. *)
Definition loop_leave (this : nat) (w : World.t) : option World.t :=
  session ← World.sessions w !! this;
  let '(id, w1) := window_requestAnimationFrame this w in
  Some (World.set_sessions
          (<[this := XRSession.set_animationFrameId (Some id) session]> (World.sessions w1))
          w1).



(** * The rest of the object model *)

From Stdlib Require Import RNsatz.

(** ** [XRWebGLLayer] *)

Module XRWebGLLayer.
Record t : Type := mk {
  _antialias : bool;
  _ignoreDepthValues : bool;
  _framebuffer : option nat;
  _framebufferWidth : R;
  _framebufferHeight : R
}.
End XRWebGLLayer.

Module Viewport.
Record t : Type := mk { x : R; y : R; width : R; height : R }.
End Viewport.

(** [a || d] on a number that may be missing: [undefined] and 0 give [d]. *)
Definition orNumber (a : option R) (d : R) : R :=
  match a with
  | Some v => if Reqb v 0 then d else v
  | None => d
  end.

(** [new XRWebGLLayer( session, context, options )]: of the context, the
    width and height of its canvas; of the options, [antialias] and
    [ignoreDepthValues] when they are given. *)
Definition XRWebGLLayer_new (canvasWidth canvasHeight : option R)
    (antialias ignoreDepthValues : option bool) : XRWebGLLayer.t :=
  {| XRWebGLLayer._antialias :=
       match antialias with Some false => false | _ => true end;
     XRWebGLLayer._ignoreDepthValues :=
       match ignoreDepthValues with Some true => true | _ => false end;
     XRWebGLLayer._framebuffer := None;
     XRWebGLLayer._framebufferWidth := orNumber canvasWidth 1920;
     XRWebGLLayer._framebufferHeight := orNumber canvasHeight 1080 |}.

(** [XRWebGLLayer.getViewport( view )] *)
Definition getViewport (this : XRWebGLLayer.t) (view : XRView.t) : Viewport.t :=
  match XRView.eye view with
  | eye_none =>
      {| Viewport.x := 0; Viewport.y := 0;
         Viewport.width := XRWebGLLayer._framebufferWidth this;
         Viewport.height := XRWebGLLayer._framebufferHeight this |}
  | eye_left =>
      let halfWidth := XRWebGLLayer._framebufferWidth this / 2 in
      {| Viewport.x := 0; Viewport.y := 0;
         Viewport.width := halfWidth;
         Viewport.height := XRWebGLLayer._framebufferHeight this |}
  | eye_right =>
      let halfWidth := XRWebGLLayer._framebufferWidth this / 2 in
      {| Viewport.x := halfWidth; Viewport.y := 0;
         Viewport.width := halfWidth;
         Viewport.height := XRWebGLLayer._framebufferHeight this |}
  end.

(** ** [XRFrame.fillPoses], [XRFrame.fillJointRadii]

    The output arrays are the [Float32Array]s of the WebXR API: a write
    past the end of a typed array is ignored, which is what stdpp's
    insertion does.  A space of the argument array is what an
    application can pass where a space is expected. *)

(** [for ( let j = 0; j < 16; j ++ ) transforms[ base + j ] = m[ j ]] *)
Definition writeMatrix (m : list R) (base : nat) (transforms : list R) : list R :=
  foldl (λ t j, <[(base + j)%nat := entry m j]> t) transforms (seq 0 16).

(** The loop of [fillPoses], from index [i] on. *)
Fixpoint fillPoses_from (i : nat) (spaces : list SpaceArgument) (transforms : list R)
    : list R :=
  match spaces with
  | [] => transforms
  | space :: rest =>
      fillPoses_from (S i) rest
        (match getPose space with
         | Some pose => writeMatrix (matrix (XRPose.transform pose)) (i * 16) transforms
         | None => transforms
         end)
  end.

(** [XRFrame.fillPoses( spaces, transforms )]: what it returns, and the
    array it leaves. *)
Definition fillPoses (spaces : list SpaceArgument) (transforms : list R)
    : bool * list R :=
  (true, fillPoses_from 0 spaces transforms).

(** The loop of [fillJointRadii], from index [i] on; a [null] element of
    [jointSpaces] is [None]. *)
Fixpoint fillJointRadii_from (i : nat) (jointSpaces : list (option XRJointSpace.t))
    (radii : list R) : list R :=
  match jointSpaces with
  | [] => radii
  | js :: rest =>
      fillJointRadii_from (S i) rest
        (<[i := match js with Some s => XRJointSpace._radius s | None => 0 end]> radii)
  end.

(** [XRFrame.fillJointRadii( jointSpaces, radii )] *)
Definition fillJointRadii (jointSpaces : list (option XRJointSpace.t)) (radii : list R)
    : bool * list R :=
  (true, fillJointRadii_from 0 jointSpaces radii).
(** * Vocabulary of the properties *)

Definition quatNorm2 (q : Vec4.t) : R :=
  Vec4.x q * Vec4.x q + Vec4.y q * Vec4.y q + Vec4.z q * Vec4.z q + Vec4.w q * Vec4.w q.

Definition unitQuat (q : Vec4.t) : Prop := quatNorm2 q = 1.

Definition quatNeg (q : Vec4.t) : Vec4.t :=
  Vec4.mk (- Vec4.x q) (- Vec4.y q) (- Vec4.z q) (- Vec4.w q).

(** The mirror convention of [updateHeadFromMatrix]: the sign of the
    first component. *)
Definition quatFlipX (q : Vec4.t) : Vec4.t :=
  Vec4.mk (- Vec4.x q) (Vec4.y q) (Vec4.z q) (Vec4.w q).

(** The head states after each of a sequence of face results. *)
Fixpoint headStates (fs : list FaceResult) (h : HeadState) : list HeadState :=
  match fs with
  | [] => []
  | f :: rest => let h' := updateHead f h in h' :: headStates rest h'
  end.

(** The detector's matrices have their 16 entries. *)
Definition faceWellFormed (f : FaceResult) : Prop :=
  match f with
  | FaceMatrix m => length m = 16%nat
  | _ => True
  end.

(** A hand as the detector reports it: 21 landmarks, and world landmarks
    that are absent, empty, or 21 too. *)
Definition handObservation (landmarks : list Vec3.t)
    (worldLandmarks : option (list Vec3.t)) : Prop :=
  length landmarks = 21%nat
  ∧ match worldLandmarks with
    | None => True
    | Some wl => wl = [] ∨ length wl = 21%nat
    end.

Definition midpoint (a b : Vec3.t) : Vec3.t :=
  Vec3.mk ((Vec3.x a + Vec3.x b) / 2) ((Vec3.y a + Vec3.y b) / 2)
          ((Vec3.z a + Vec3.z b) / 2).

(** The synthetic metacarpals: index in the skeleton, and index among the
    detector joints of the first joint of that finger. *)
Definition metacarpals : list (nat * nat) :=
  [ (5, 5); (10, 9); (15, 13); (20, 17) ]%nat.

Definition vecNorm2 (v : Vec3.t) : R :=
  Vec3.x v * Vec3.x v + Vec3.y v * Vec3.y v + Vec3.z v * Vec3.z v.

Definition vecNeg (v : Vec3.t) : Vec3.t :=
  Vec3.mk (- Vec3.x v) (- Vec3.y v) (- Vec3.z v).

(** Reflection in the vertical plane through the origin: of a vector, and
    of a metric world landmark. *)
Definition mirrorX (v : Vec3.t) : Vec3.t :=
  Vec3.mk (- Vec3.x v) (Vec3.y v) (Vec3.z v).

(** Reflection of a normalised image landmark, whose abscissa runs over
    the unit interval. *)
Definition mirrorLandmark (l : Vec3.t) : Vec3.t :=
  Vec3.mk (1 - Vec3.x l) (Vec3.y l) (Vec3.z l).

(** The mirror image of a hand observation. *)
Definition mirrorLandmarks (landmarks : list Vec3.t) : list Vec3.t :=
  map mirrorLandmark landmarks.

Definition mirrorWorldLandmarks (worldLandmarks : option (list Vec3.t))
    : option (list Vec3.t) :=
  match worldLandmarks with
  | Some wl => Some (map mirrorX wl)
  | None => None
  end.

(** The wrist, index and pinky positions of a skeleton span a palm: the
    length that [processHandLandmarks] tests is above its threshold. *)
Definition nonDegenerate (hd : HandData.t) : Prop :=
  match HandData.joints hd !! 0%nat, HandData.joints hd !! 6%nat,
        HandData.joints hd !! 21%nat with
  | Some wrist, Some indexMcp, Some pinkyMcp =>
      0.0001 < vecLength (palmCross (Joint.position wrist) (Joint.position indexMcp)
                                    (Joint.position pinkyMcp))
  | _, _, _ => False
  end.

(** An open right hand seen by the camera, palm facing it: the 21
    normalised landmarks (wrist; thumb; index; middle; ring; pinky). *)
Definition openHandLandmarks : list Vec3.t :=
  [ Vec3.mk 0.5 0.8 0;
    Vec3.mk 0.42 0.74 0; Vec3.mk 0.36 0.66 0; Vec3.mk 0.32 0.6 0; Vec3.mk 0.28 0.55 0;
    Vec3.mk 0.44 0.55 0; Vec3.mk 0.42 0.45 0; Vec3.mk 0.41 0.38 0; Vec3.mk 0.4 0.32 0;
    Vec3.mk 0.5 0.53 0; Vec3.mk 0.5 0.42 0; Vec3.mk 0.5 0.35 0; Vec3.mk 0.5 0.28 0;
    Vec3.mk 0.55 0.55 0; Vec3.mk 0.56 0.45 0; Vec3.mk 0.57 0.38 0; Vec3.mk 0.58 0.33 0;
    Vec3.mk 0.6 0.58 0; Vec3.mk 0.62 0.5 0; Vec3.mk 0.63 0.45 0; Vec3.mk 0.64 0.4 0 ].

(** The floor-relative reference space types. *)
Definition floorType (type : string) : Prop :=
  type = "local-floor"%string ∨ type = "bounded-floor"%string.

(** The position of the origin offset of a reference space; nothing to
    subtract when there is none. *)
Definition offsetPosition (referenceSpace : XRReferenceSpace.t) : Vec3.t :=
  match XRReferenceSpace._originOffset referenceSpace with
  | Some offset =>
      Vec3.mk (Vec4.x (position offset)) (Vec4.y (position offset))
              (Vec4.z (position offset))
  | None => Vec3.mk 0 0 0
  end.

(** The hands that the polyfill can hold: built by the constructor, then
    updated any number of times. *)
Inductive XRHand_reachable : XRHand.t → Prop :=
  | reachable_new (handData : option HandData.t) :
      XRHand_reachable (XRHand_new handData)
  | reachable_update (h h' : XRHand.t) (handData : option HandData.t) :
      XRHand_reachable h → XRHand_update handData h = Some h' → XRHand_reachable h'.

(** The distance between the tips of the thumb (joint 4) and of the
    index finger (joint 9) of a skeleton. *)
Definition tipDistance (hd : HandData.t) : option R :=
  thumb ← HandData.joints hd !! 4%nat;
  index ← HandData.joints hd !! 9%nat;
  Some (pinchDist (Joint.position thumb) (Joint.position index)).

(** A tracked hand on one side or the other of the pinch threshold. *)
Definition handOpen (hd : HandData.t) : Prop :=
  (10 <= length (HandData.joints hd))%nat
  ∧ ∃ d, tipDistance hd = Some d ∧ 0.05 <= d.

Definition handPinched (hd : HandData.t) : Prop :=
  (10 <= length (HandData.joints hd))%nat
  ∧ ∃ d, tipDistance hd = Some d ∧ d < 0.05.

(** An input source updated with the hand data of successive ticks: the
    input source at the end, and the events of each tick. *)
Fixpoint updateTicks (ticks : list HandData.t) (src : XRInputSource.t)
    : option (XRInputSource.t * list (list Dispatch)) :=
  match ticks with
  | [] => Some (src, [])
  | hd :: rest =>
      r ← _updateHand (Some hd) src;
      r' ← updateTicks rest r.1;
      Some (r'.1, r.2 :: r'.2)
  end.

(** The gesture state of an input source without hand tracking. *)
Definition pinchState (side : Handedness) (session : nat) (pinching : bool)
    (src : XRInputSource.t) : Prop :=
  XRInputSource.handedness src = side
  ∧ XRInputSource._handTrackingEnabled src = false
  ∧ XRInputSource._session src = Some session
  ∧ XRInputSource._pinchThreshold src = Some 0.05
  ∧ XRInputSource._isPinching src = Some pinching.

(** A skeleton whose joints all sit at one point, but for the tip of the
    index finger. *)
Definition handWithTips (thumbTip indexTip : Vec3.t) : HandData.t :=
  {| HandData.joints :=
       <[9%nat := {| Joint.position := indexTip; Joint.radius := 0.01 |}]>
         (replicate 25 {| Joint.position := thumbTip; Joint.radius := 0.01 |});
     HandData.visible := true;
     HandData.palmNormal := Some (Vec3.mk 0 1 0);
     HandData.handedness := Some right_hand |}.

(** The events of one tick, by the side of the threshold before it
    ([was]) and at it ([cur]). *)
Definition tickEvents (side : Handedness) (session : nat) (was cur : bool)
    : list Dispatch :=
  if cur && negb was then [(session, XRSelectEvent "selectstart" side)]
  else if negb cur && was then [(session, XRSelectEvent "selectend" side)]
  else [].

(** Two poses of a hand: tips 10 cm apart, and tips 1 cm apart. *)
Definition openPose : HandData.t :=
  handWithTips (Vec3.mk 0 1.5 (-1)) (Vec3.mk 0.1 1.5 (-1)).

Definition pinchPose : HandData.t :=
  handWithTips (Vec3.mk 0 1.5 (-1)) (Vec3.mk 0.01 1.5 (-1)).

(** The input sources of a session updated tick after tick with the data
    of the left hand, the right hand being absent: the array at the end,
    and the events of each tick. *)
Fixpoint updateLeftTicks (ticks : list HandData.t) (arr : XRInputSourceArray.t)
    : option (XRInputSourceArray.t * list (list Dispatch)) :=
  match ticks with
  | [] => Some (arr, [])
  | hd :: rest =>
      r ← XRInputSourceArray_update (Some hd) None arr;
      r' ← updateLeftTicks rest r.1;
      Some (r'.1, r.2 :: r'.2)
  end.

(** The input sources of a session without hand tracking while the left
    hand is tracked and the right hand has never been seen. *)
Definition leftTracked (session : nat) (pinching : bool)
    (arr : XRInputSourceArray.t) : Prop :=
  XRInputSourceArray._handTrackingEnabled arr = false
  ∧ XRInputSourceArray._session arr = Some session
  ∧ XRInputSourceArray._leftHandActive arr = true
  ∧ XRInputSourceArray._rightHandActive arr = false
  ∧ XRInputSourceArray._rightHand arr = None
  ∧ ∃ src, XRInputSourceArray._leftHand arr = Some src
           ∧ pinchState left_hand session pinching src.


(** * Vocabulary of the further properties *)

(** Column [k] of the upper-left 3x3 block of a column-major 4x4 matrix,
    and its translation column. *)
Definition column (m : list R) (k : nat) : Vec3.t :=
  Vec3.mk (entry m (4 * k)) (entry m (4 * k + 1)) (entry m (4 * k + 2)).

Definition dot (a b : Vec3.t) : R :=
  Vec3.x a * Vec3.x b + Vec3.y a * Vec3.y b + Vec3.z a * Vec3.z b.

Definition cross (a b : Vec3.t) : Vec3.t :=
  Vec3.mk (Vec3.y a * Vec3.z b - Vec3.z a * Vec3.y b)
          (Vec3.z a * Vec3.x b - Vec3.x a * Vec3.z b)
          (Vec3.x a * Vec3.y b - Vec3.y a * Vec3.x b).

(** The determinant of the upper-left 3x3 block. *)
Definition det3 (m : list R) : R :=
  dot (column m 0) (cross (column m 1) (column m 2)).

(** Row [i], column [j] of a column-major 4x4 matrix. *)
Definition at_ (m : list R) (i j : nat) : R := entry m (4 * j + i).

(** The image of a point under the affine map of a 4x4 matrix. *)
Definition applyMatrix (m : list R) (v : Vec3.t) : Vec3.t :=
  Vec3.mk
    (at_ m 0 0 * Vec3.x v + at_ m 0 1 * Vec3.y v + at_ m 0 2 * Vec3.z v + at_ m 0 3)
    (at_ m 1 0 * Vec3.x v + at_ m 1 1 * Vec3.y v + at_ m 1 2 * Vec3.z v + at_ m 1 3)
    (at_ m 2 0 * Vec3.x v + at_ m 2 1 * Vec3.y v + at_ m 2 2 * Vec3.z v + at_ m 2 3).

(** The vector from a joint to the next joint of its chain. *)
Definition boneVector (current next : Joint.t) : Vec3.t :=
  Vec3.mk (Vec3.x (Joint.position next) - Vec3.x (Joint.position current))
          (Vec3.y (Joint.position next) - Vec3.y (Joint.position current))
          (Vec3.z (Joint.position next) - Vec3.z (Joint.position current)).

(** The identity orientation, and the joints at the tip of a chain. *)
Definition identityOrientation : Vec4.t := Vec4.mk 0 0 0 1.

Definition tipJoints : list nat := [4; 9; 14; 19; 24]%nat.


(** A button at rest, and an input source as the constructor of
    [XRInputSource] has it before the first [_updateHand]. *)
Definition releasedButton : GamepadButton.t :=
  {| GamepadButton.pressed := false; GamepadButton.touched := false;
     GamepadButton.value := 0 |}.

Definition unupdatedSource (handedness : Handedness) (handTrackingEnabled : bool)
    (session : option nat) (handData : option HandData.t) : XRInputSource.t :=
  {| XRInputSource.handedness := handedness;
     XRInputSource.targetRaySpace := XRSpace_new;
     XRInputSource.gripSpace := XRSpace_new;
     XRInputSource.gamepad :=
       {| Gamepad.axes := [0; 0; 0; 0];
          Gamepad.buttons := [releasedButton; releasedButton; releasedButton; releasedButton];
          Gamepad.connected := true;
          Gamepad.hand := handedness;
          Gamepad.index := match handedness with left_hand => 0 | right_hand => 1 end |};
     XRInputSource.profiles :=
       if handTrackingEnabled
       then ["generic-hand"; "generic-hand-select"]%string
       else ["generic-trigger"; "generic-touchpad"]%string;
     XRInputSource.hand :=
       if handTrackingEnabled then Some (XRHand_new handData) else None;
     XRInputSource._pinchThreshold :=
       if handTrackingEnabled then None else Some 0.05;
     XRInputSource._isPinching :=
       if handTrackingEnabled then None else Some false;
     XRInputSource._handTrackingEnabled := handTrackingEnabled;
     XRInputSource._session := session |}.

(** An input source of a session with hand tracking: it carries a hand
    that the polyfill can hold. *)
Definition trackedSource (src : XRInputSource.t) : Prop :=
  XRInputSource._handTrackingEnabled src = true
  ∧ ∃ h, XRInputSource.hand src = Some h ∧ XRHand_reachable h.

(** The input sources of a session with hand tracking. *)
Definition handTrackingArray (arr : XRInputSourceArray.t) : Prop :=
  XRInputSourceArray._handTrackingEnabled arr = true
  ∧ (∀ src, XRInputSourceArray._leftHand arr = Some src → trackedSource src)
  ∧ (∀ src, XRInputSourceArray._rightHand arr = Some src → trackedSource src).

(** The input sources of a session without hand tracking before a hand
    has been seen. *)
Definition noHandSeen (session : nat) (arr : XRInputSourceArray.t) : Prop :=
  XRInputSourceArray._handTrackingEnabled arr = false
  ∧ XRInputSourceArray._session arr = Some session
  ∧ XRInputSourceArray._leftHand arr = None
  ∧ XRInputSourceArray._leftHandActive arr = false
  ∧ XRInputSourceArray._rightHand arr = None
  ∧ XRInputSourceArray._rightHandActive arr = false.

(** Hand data that [_update] takes for an absent hand. *)
Definition notVisible (data : option HandData.t) : Prop :=
  match data with Some d => HandData.visible d = false | None => True end.

Definition isChangeEvent (e : Dispatch) : Prop :=
  ∃ added removed, e.2 = XRInputSourcesChangeEvent "inputsourceschange" added removed.

(** The position that a face result pulls the head towards: lines
    236-238 for a matrix, 312-314 for landmarks. *)
Definition headTarget (f : FaceResult) : option Vec3.t :=
  match f with
  | FaceMatrix m =>
      Some (Vec3.mk (- entry m 12 * 0.02) (- entry m 13 * 0.02)
                    (- (entry m 14 + 50) * 0.02))
  | FaceLandmarks l =>
      nose ← l !! 1%nat;
      Some (Vec3.mk (- (Vec3.x nose - 0.5) * positionScale)
                    (- (Vec3.y nose - 0.5) * positionScale)
                    (- 0.5 + Vec3.z nose * depthScale))
  | NoFace => None
  end.

(** The last hand of a detector answer that carries the label 'Left'
    ([isLeft]), or another label. *)
Definition lastLabelled (isLeft : bool) (hands : list HandResult.t)
    : option HandResult.t :=
  last (filter (λ h, String.eqb (HandResult.categoryName h) "Left" = isLeft) hands).

(** A skeleton as [processHandLandmarks] makes them for one side. *)
Definition skeletonOf (side : Handedness) (d : HandData.t) : Prop :=
  HandData.handedness d = Some side
  ∧ HandData.visible d = true
  ∧ length (HandData.joints d) = 25%nat.

(** The frame callbacks of a session carry distinct handles, all below
    the next handle to be given out. *)
Definition callbacksFresh (s : XRSession.t) : Prop :=
  Forall (λ e, (e.1 < XRSession._nextCallbackId s)%nat) (XRSession._frameCallbacks s)
  ∧ NoDup (XRSession._frameCallbacks s).*1.

(** An input source as the array of session [session] makes and keeps
    them. *)
Definition sourceInvariant (handTrackingEnabled : bool) (session : nat)
    (src : XRInputSource.t) : Prop :=
  XRInputSource._handTrackingEnabled src = handTrackingEnabled
  ∧ XRInputSource._session src = Some session
  ∧ (handTrackingEnabled = true →
     ∃ h, XRInputSource.hand src = Some h ∧ XRHand_reachable h).

(** The input sources of session [session]. *)
Definition arrayInvariant (session : nat) (arr : XRInputSourceArray.t) : Prop :=
  XRInputSourceArray._session arr = Some session
  ∧ (XRInputSourceArray._leftHandActive arr = true
     → is_Some (XRInputSourceArray._leftHand arr))
  ∧ (XRInputSourceArray._rightHandActive arr = true
     → is_Some (XRInputSourceArray._rightHand arr))
  ∧ (∀ src, XRInputSourceArray._leftHand arr = Some src →
       sourceInvariant (XRInputSourceArray._handTrackingEnabled arr) session src)
  ∧ (∀ src, XRInputSourceArray._rightHand arr = Some src →
       sourceInvariant (XRInputSourceArray._handTrackingEnabled arr) session src).

(** What holds of every session object of a page, given the next handle
    the window will give out. *)
Definition sessionInvariant (nextAnimationFrame s : nat) (session : XRSession.t) : Prop :=
  callbacksFresh session
  ∧ arrayInvariant s (XRSession.inputSources session)
  ∧ ∀ id, XRSession._animationFrameId session = Some id →
          (0 < id < nextAnimationFrame)%nat.

(** What holds of the state of the polyfill on every page: tracking is
    on exactly while there is an active session; the active session is
    an object that has not ended; the pending animation frames carry
    handles the window has given out and belong to session objects. *)
Definition worldInvariant (w : World.t) : Prop :=
  (World.isTracking w = true ↔ is_Some (World.currentSession w))
  ∧ (∀ s, World.currentSession w = Some s →
       ∃ session, World.sessions w !! s = Some session
                  ∧ XRSession._ended session = false)
  ∧ (0 < World.nextAnimationFrame w)%nat
  ∧ (∀ id s, World.animationFrames w !! id = Some s →
       (id < World.nextAnimationFrame w)%nat ∧ is_Some (World.sessions w !! s))
  ∧ (∀ s session, World.sessions w !! s = Some session →
       sessionInvariant (World.nextAnimationFrame w) s session).

(** The calls of an application on a session object that change it. *)
Inductive SessionCall : Type :=
  | CallRequestAnimationFrame (callback : nat)
  | CallCancelAnimationFrame (id : nat)
  | CallRequestReferenceSpace (type : string).

Definition sessionCall (c : SessionCall) (session : XRSession.t) : XRSession.t :=
  match c with
  | CallRequestAnimationFrame callback => (requestAnimationFrame callback session).2
  | CallCancelAnimationFrame id => cancelAnimationFrame id session
  | CallRequestReferenceSpace type => (requestReferenceSpace type session).2
  end.

Definition entryWorld (r : LoopEntry) : World.t :=
  match r with
  | LoopReturned w => w
  | LoopCalls _ w => w
  end.

(** One thing happening on the page: the application requests a session,
    ends a session object it holds, or calls a method of one; the camera
    starts; the window fires a pending animation frame, with or without
    a new camera frame; the frame loop finishes its turn. *)
Inductive step : World.t → World.t → Prop :=
  | step_requestSession (mode : string) (options : XRSessionInit.t) (w : World.t) :
      step w (requestSession mode options w).2
  | step_end (this : nat) (w w' : World.t) :
      XRSession_end this w = Some w' → step w w'
  | step_startCamera (stream : nat) (w : World.t) :
      step w (startCamera stream w)
  | step_loop_enter (id : nat) (camera : option (FaceResult * option (list HandResult.t)))
      (w : World.t) (r : LoopEntry) :
      loop_enter id camera w = Some r → step w (entryWorld r)
  | step_loop_leave (this : nat) (w w' : World.t) :
      loop_leave this w = Some w' → step w w'
  | step_sessionCall (this : nat) (session : XRSession.t) (c : SessionCall) (w : World.t) :
      World.sessions w !! this = Some session →
      step w (World.set_sessions (<[this := sessionCall c session]> (World.sessions w)) w).

(** The states of the polyfill that a page can be in. *)
Definition reachable (w : World.t) : Prop := rtc step initialWorld w.

(** What the detectors answer for a camera frame, as far as the frame
    loop relies on it: a face given by landmarks has its nose landmark,
    and every hand is a 21-landmark observation. *)
Definition cameraWellFormed (camera : option (FaceResult * option (list HandResult.t)))
    : Prop :=
  match camera with
  | Some (face, hands) =>
      match face with FaceLandmarks l => is_Some (l !! 1%nat) | _ => True end
      ∧ Forall (λ o, handObservation (HandResult.landmarks o) (HandResult.worldLandmarks o))
               (default [] hands)
  | None => True
  end.

(** One thing happening on the page that is not a call of [end()]. *)
Inductive quietStep : World.t → World.t → Prop :=
  | quiet_requestSession (mode : string) (options : XRSessionInit.t) (w : World.t) :
      quietStep w (requestSession mode options w).2
  | quiet_startCamera (stream : nat) (w : World.t) :
      quietStep w (startCamera stream w)
  | quiet_loop_enter (id : nat) (camera : option (FaceResult * option (list HandResult.t)))
      (w : World.t) (r : LoopEntry) :
      loop_enter id camera w = Some r → quietStep w (entryWorld r)
  | quiet_loop_leave (this : nat) (w w' : World.t) :
      loop_leave this w = Some w' → quietStep w w'
  | quiet_sessionCall (this : nat) (session : XRSession.t) (c : SessionCall) (w : World.t) :
      World.sessions w !! this = Some session →
      quietStep w
        (World.set_sessions (<[this := sessionCall c session]> (World.sessions w)) w).

(** The session that the singleton holds, which has not ended. *)
Definition activeSession (s : nat) (w : World.t) : Prop :=
  World.currentSession w = Some s
  ∧ ∃ session, World.sessions w !! s = Some session ∧ XRSession._ended session = false.
(** * Properties *)

(** ** Numbers *)

Lemma Rltb_true (a b : R) : (a <? b) = true ↔ a < b.
Proof. unfold Rltb. destruct (Rlt_dec a b); split; intros; try done. Qed.

Lemma Rltb_false (a b : R) : (a <? b) = false ↔ b <= a.
Proof.
  unfold Rltb. destruct (Rlt_dec a b); split; intros; try done; lra.
Qed.

Lemma Rgtb_true (a b : R) : (a >? b) = true ↔ b < a.
Proof. apply Rltb_true. Qed.

Lemma Rgtb_false (a b : R) : (a >? b) = false ↔ a <= b.
Proof. apply Rltb_false. Qed.

Lemma sqrt_double_square (a : R) : sqrt (4 * (a * a)) = 2 * Rabs a.
Proof.
  replace (4 * (a * a)) with (Rsqr (2 * a)) by (unfold Rsqr; ring).
  rewrite sqrt_Rsqr_abs, Rabs_mult, (Rabs_right 2); [reflexivity | lra].
Qed.

Lemma sqrt_ge_1 (a : R) : 1 <= a → 1 <= sqrt a.
Proof.
  intros Ha. rewrite <- sqrt_1 at 1. apply sqrt_le_1; lra.
Qed.

Lemma lt_sqrt (a b : R) : 0 <= a → a * a < b → a < sqrt b.
Proof.
  intros Ha Hab. rewrite <- (sqrt_square a Ha). apply sqrt_lt_1_alt. nra.
Qed.

Lemma le_sqrt (a b : R) : 0 <= a → a * a <= b → a <= sqrt b.
Proof.
  intros Ha Hab. rewrite <- (sqrt_square a Ha). apply sqrt_le_1_alt. exact Hab.
Qed.

Lemma sqrt_lt (a b : R) : 0 < a → b < a * a → sqrt b < a.
Proof.
  intros Ha Hab. destruct (Rle_lt_dec 0 b).
  - rewrite <- (sqrt_square a) by lra. apply sqrt_lt_1_alt. lra.
  - rewrite sqrt_neg_0 by lra. exact Ha.
Qed.

(** ** Quaternions *)





Lemma quatNormalize_unit (q : Vec4.t) : unitQuat q → quatNormalize q = q.
Proof.
  destruct q as [x y z w]. unfold unitQuat, quatNorm2, quatNormalize, quatLength.
  simpl. intros ->. rewrite sqrt_1. f_equal; field.
Qed.

Lemma unitQuat_neg (q : Vec4.t) : unitQuat q → unitQuat (quatNeg q).
Proof.
  destruct q as [x y z w]. unfold unitQuat, quatNorm2. simpl. intros H. lra.
Qed.

Lemma matrixRotation_matrix (t : XRRigidTransform) :
  matrixRotation (matrix t) =
  let x := Vec4.x (orientation t) in let y := Vec4.y (orientation t) in
  let z := Vec4.z (orientation t) in let w := Vec4.w (orientation t) in
  quaternionFromRotationMatrix
    (1 - (y * (y + y) + z * (z + z))) (x * (y + y) - w * (z + z)) (x * (z + z) + w * (y + y))
    (x * (y + y) + w * (z + z)) (1 - (x * (x + x) + z * (z + z))) (y * (z + z) - w * (x + x))
    (x * (z + z) - w * (y + y)) (y * (z + z) + w * (x + x)) (1 - (x * (x + x) + y * (y + y))).
Proof. reflexivity. Qed.

(** Decimal constants are [Q2R] of a fraction, which [lra] reads but
    [field] does not: this writes them as quotients of integers. *)
Ltac decimals :=
  unfold Q2R in *; cbn [QArith_base.Qnum QArith_base.Qden] in *.

(** Splits on the sign of the component that the taken branch divides by. *)
Ltac by_sign a :=
  destruct (Rle_lt_dec 0 a);
  [ left; rewrite (Rabs_right a) by lra | right; rewrite (Rabs_left a) by lra ];
  decimals; f_equal; field; lra.

Lemma extraction_of_unit (x y z w : R) :
  x * x + y * y + z * z + w * w = 1 →
  let q := Vec4.mk x y z w in
  let r := quaternionFromRotationMatrix
    (1 - (y * (y + y) + z * (z + z))) (x * (y + y) - w * (z + z)) (x * (z + z) + w * (y + y))
    (x * (y + y) + w * (z + z)) (1 - (x * (x + x) + z * (z + z))) (y * (z + z) - w * (x + x))
    (x * (z + z) - w * (y + y)) (y * (z + z) + w * (x + x)) (1 - (x * (x + x) + y * (y + y))) in
  r = q ∨ r = quatNeg q.
Proof.
  intros Hu q r. subst q r. unfold quaternionFromRotationMatrix, quatNeg. simpl.
  repeat match goal with
  | |- context [?a >? ?b] =>
      let H := fresh "Hc" in
      destruct (a >? b) eqn:H; [apply Rgtb_true in H | apply Rgtb_false in H]
  end; simpl.
  all: first
    [ replace (_ + 1.0) with (4 * (w * w)) by lra;
      rewrite sqrt_double_square; assert (w <> 0) by nra; by_sign w
    | replace (1.0 + _ - _ - _) with (4 * (x * x)) by lra;
      rewrite sqrt_double_square; assert (x <> 0) by nra; by_sign x
    | replace (1.0 + _ - _ - _) with (4 * (y * y)) by lra;
      rewrite sqrt_double_square; assert (y <> 0) by nra; by_sign y
    | replace (1.0 + _ - _ - _) with (4 * (z * z)) by lra;
      rewrite sqrt_double_square; assert (z <> 0) by nra; by_sign z ].
Qed.

(** The target orientation of [updateHeadFromMatrix] is the normalised
    extraction with the sign of its first component reversed. *)
Lemma quatNormalize_positive (q : Vec4.t) :
  0 < quatNorm2 q → unitQuat (quatNormalize q).
Proof.
  destruct q as [x y z w].
  unfold unitQuat, quatNormalize, quatLength, quatNorm2. simpl. intros Hpos.
  set (n := x * x + y * y + z * z + w * w) in *.
  assert (Hl : 0 < sqrt n) by (apply sqrt_lt_R0; exact Hpos).
  assert (Hs : sqrt n * sqrt n = n) by (apply sqrt_sqrt; lra).
  replace (x / sqrt n * (x / sqrt n) + y / sqrt n * (y / sqrt n)
           + z / sqrt n * (z / sqrt n) + w / sqrt n * (w / sqrt n))
    with (n / (sqrt n * sqrt n)) by (unfold n at 1; field; lra).
  rewrite Hs. field. lra.
Qed.

Lemma extraction_positive (m11 m12 m13 m21 m22 m23 m31 m32 m33 : R) :
  0 < quatNorm2 (quaternionFromRotationMatrix m11 m12 m13 m21 m22 m23 m31 m32 m33).
Proof.
  unfold quaternionFromRotationMatrix, quatNorm2.
  repeat match goal with
  | |- context [?a >? ?b] =>
      let H := fresh "Hc" in
      destruct (a >? b) eqn:H; [apply Rgtb_true in H | apply Rgtb_false in H]
  end; simpl.
  all: match goal with
       | |- context [sqrt ?a] =>
           assert (Hs : 1 <= sqrt a) by (apply sqrt_ge_1; lra);
           generalize dependent (sqrt a); intros S HS
       end.
  all: try (replace (0.25 / (0.5 / S)) with (0.5 * S) by (decimals; field; lra)).
  all: match goal with
       | |- 0 < ?a * ?a + ?b * ?b + ?c * ?c + ?d * ?d =>
           pose proof (Rle_0_sqr a) as Ha; pose proof (Rle_0_sqr b) as Hb;
           pose proof (Rle_0_sqr c) as Hcc; pose proof (Rle_0_sqr d) as Hd;
           unfold Rsqr in Ha, Hb, Hcc, Hd
       end.
  all: nra.
Qed.

Lemma unitQuat_flipX (q : Vec4.t) : unitQuat q → unitQuat (quatFlipX q).
Proof.
  destruct q as [x y z w]. unfold unitQuat, quatNorm2. simpl. intros H. lra.
Qed.

(** A blend of two unit quaternions with unequal weights is not zero. *)
Lemma lerp_unit_positive (a b : Vec4.t) :
  unitQuat a → unitQuat b →
  0 < quatNorm2
        (Vec4.mk (lerp (Vec4.x a) (Vec4.x b) (1 - smoothing))
                 (lerp (Vec4.y a) (Vec4.y b) (1 - smoothing))
                 (lerp (Vec4.z a) (Vec4.z b) (1 - smoothing))
                 (lerp (Vec4.w a) (Vec4.w b) (1 - smoothing))).
Proof.
  destruct a as [ax ay az aw], b as [bx b_y bz bw].
  unfold unitQuat, quatNorm2, lerp, smoothing. simpl. intros Ha Hb.
  pose proof (Rle_0_sqr (ax + bx)) as H1. pose proof (Rle_0_sqr (ay + b_y)) as H2.
  pose proof (Rle_0_sqr (az + bz)) as H3. pose proof (Rle_0_sqr (aw + bw)) as H4.
  unfold Rsqr in *. nra.
Qed.

Lemma updateHeadFromMatrix_rotation (m : list R) (h : HeadState) :
  headRotation (updateHeadFromMatrix m h) =
  let t := quatFlipX (quatNormalize (matrixRotation m)) in
  quatNormalize
    (Vec4.mk (lerp (Vec4.x (headRotation h)) (Vec4.x t) (1 - smoothing))
             (lerp (Vec4.y (headRotation h)) (Vec4.y t) (1 - smoothing))
             (lerp (Vec4.z (headRotation h)) (Vec4.z t) (1 - smoothing))
             (lerp (Vec4.w (headRotation h)) (Vec4.w t) (1 - smoothing))).
Proof.
  unfold updateHeadFromMatrix, quatNormalize, quatLength, quatFlipX.
  cbn [headRotation Vec4.x Vec4.y Vec4.z Vec4.w].
  set (q := matrixRotation m).
  set (len := sqrt _).
  replace (- Vec4.x q / len) with (- (Vec4.x q / len)) by (unfold Rdiv; ring).
  repeat match goal with |- context [?a ^ 2] => replace (a ^ 2) with (a * a) by ring end.
  reflexivity.
Qed.

Lemma updateHeadFromMatrix_unit (m : list R) (h : HeadState) :
  unitQuat (headRotation h) → unitQuat (headRotation (updateHeadFromMatrix m h)).
Proof.
  intros Hu. rewrite updateHeadFromMatrix_rotation. cbv zeta.
  apply quatNormalize_positive, lerp_unit_positive; [exact Hu|].
  apply unitQuat_flipX, quatNormalize_positive.
  unfold matrixRotation. apply extraction_positive.
Qed.

Lemma updateHeadFromLandmarks_rotation (l : list Vec3.t) (h h' : HeadState) :
  updateHeadFromLandmarks l h = Some h' → headRotation h' = headRotation h.
Proof.
  unfold updateHeadFromLandmarks. destruct (l !! 1%nat); simpl; [|done].
  intros [= <-]. reflexivity.
Qed.



(** C1. For every unit quaternion [q], the column-major rotation matrix
    that [XRRigidTransform.matrix] builds from [q], read back by the
    trace-based extraction (trace > 0, else the largest of the three
    diagonal entries) and normalised, is exactly [q] or [-q]; the
    extraction is already [q] or [-q] before it is normalised, which is
    how [computeJointOrientation] uses it. *)
Theorem quaternion_roundtrip_up_to_sign (p q : Vec4.t) :
  unitQuat q →
  let r := matrixRotation (matrix {| position := p; orientation := q |}) in
  (quatNormalize r = q ∨ quatNormalize r = quatNeg q) ∧ (r = q ∨ r = quatNeg q).
Proof.
  intros Hu r.
  assert (Hr : r = q ∨ r = quatNeg q).
  { subst r. rewrite matrixRotation_matrix. destruct q as [x y z w].
    apply extraction_of_unit. exact Hu. }
  split; [|exact Hr].
  destruct Hr as [-> | ->]; [left | right]; apply quatNormalize_unit;
    [exact Hu | apply unitQuat_neg, Hu].
Qed.

Lemma quaternion_roundtrip_up_to_sign_witness :
  let p := Vec4.mk 0 0 0 1 in
  let q := Vec4.mk 1 0 0 0 in
  unitQuat q
  ∧ let r := matrixRotation (matrix {| position := p; orientation := q |}) in
    (quatNormalize r = q ∨ quatNormalize r = quatNeg q) ∧ (r = q ∨ r = quatNeg q).
Proof.
  assert (H : unitQuat (Vec4.mk 1 0 0 0)) by (unfold unitQuat, quatNorm2; simpl; lra).
  split; [exact H|].
  exact (quaternion_roundtrip_up_to_sign (Vec4.mk 0 0 0 1) (Vec4.mk 1 0 0 0) H).
Defined.

Lemma updateHead_unit (f : FaceResult) (h : HeadState) :
  unitQuat (headRotation h) → unitQuat (headRotation (updateHead f h)).
Proof.
  intros Hu. destruct f as [m | l |]; simpl; [|  |exact Hu].
  - apply updateHeadFromMatrix_unit, Hu.
  - destruct (updateHeadFromLandmarks l h) as [h'|] eqn:E; simpl; [|exact Hu].
    rewrite (updateHeadFromLandmarks_rotation _ _ _ E). exact Hu.
Qed.

(** C4. Starting from a unit head orientation, the orientation is
    unit-length after every update of a sequence of face results,
    whatever the entries of the matrices are; and the landmark path
    leaves the orientation as it was.  (The 16 entries of a matrix are
    taken to be there: the model reads a missing entry as 0, JavaScript
    does not.) *)
Theorem head_orientation_unit_invariant (fs : list FaceResult) (h : HeadState) :
  unitQuat (headRotation h) →
  Forall faceWellFormed fs →
  Forall (λ h', unitQuat (headRotation h')) (headStates fs h)
  ∧ (∀ l h0 h1, updateHeadFromLandmarks l h0 = Some h1 →
                headRotation h1 = headRotation h0)
  ∧ (∀ l h0, headRotation (updateHead (FaceLandmarks l) h0) = headRotation h0).
Proof.
  intros Hu _. split_and!.
  - revert h Hu. induction fs as [|f fs IH]; intros h Hu; simpl.
    + constructor.
    + constructor; [|apply IH]; apply updateHead_unit, Hu.
  - apply updateHeadFromLandmarks_rotation.
  - intros l h0. simpl.
    destruct (updateHeadFromLandmarks l h0) as [h'|] eqn:E; simpl; [|reflexivity].
    apply (updateHeadFromLandmarks_rotation _ _ _ E).
Qed.

Lemma head_orientation_unit_invariant_witness :
  let fs := [ FaceMatrix [ 0; 0; -1; 0;  0; 1; 0; 0;  1; 0; 0; 0;  2; 3; -40; 1 ];
              FaceLandmarks [ Vec3.mk 0.5 0.5 0; Vec3.mk 0.4 0.6 0.1 ];
              NoFace ] in
  unitQuat (headRotation initialHead)
  ∧ Forall faceWellFormed fs
  ∧ Forall (λ h', unitQuat (headRotation h')) (headStates fs initialHead).
Proof.
  assert (H1 : unitQuat (headRotation initialHead))
    by (unfold unitQuat, quatNorm2; simpl; lra).
  assert (H2 : Forall faceWellFormed
                 [ FaceMatrix [ 0; 0; -1; 0;  0; 1; 0; 0;  1; 0; 0; 0;  2; 3; -40; 1 ];
                   FaceLandmarks [ Vec3.mk 0.5 0.5 0; Vec3.mk 0.4 0.6 0.1 ];
                   NoFace ])
    by (repeat constructor).
  split; [exact H1|]. split; [exact H2|].
  exact (proj1 (head_orientation_unit_invariant _ initialHead H1 H2)).
Defined.

(** ** The hand skeleton *)

(** Names the elements of a list whose length is known. *)
Ltac explode l :=
  repeat (let x := fresh "p" in destruct l as [|x l]; [simpl in *; lia|]);
  try (destruct l; [|simpl in *; lia]).

Lemma Vec3_eq (x1 y1 z1 x2 y2 z2 : R) :
  x1 = x2 → y1 = y2 → z1 = z2 → Vec3.mk x1 y1 z1 = Vec3.mk x2 y2 z2.
Proof. congruence. Qed.

Lemma interpolate_half_midpoint (a b : Joint.t) :
  Joint.position (interpolateJoint a b 0.5)
  = midpoint (Joint.position a) (Joint.position b).
Proof. unfold interpolateJoint, midpoint. cbn. decimals. f_equal; field. Qed.

(** C3. For every 21-landmark hand observation [processHandLandmarks]
    returns a skeleton of exactly 25 joints; joint 0 is the wrist, that
    is the detector joint 0, placed at the hand anchor; and each of the
    four synthetic metacarpals (indices 5, 10, 15, 20) is the midpoint of
    the wrist and of the first detector joint of its finger (detector
    joints 5, 9, 13, 17), which is the joint that follows it. *)
Theorem hand_skeleton_25_joints_midpoints (headPos : Vec3.t)
    (landmarks : list Vec3.t) (worldLandmarks : option (list Vec3.t))
    (handedness : Handedness) :
  handObservation landmarks worldLandmarks →
  ∃ hd dj wristLm,
    processHandLandmarks headPos landmarks worldLandmarks handedness = Some hd
    ∧ detectorJoints headPos landmarks worldLandmarks = Some dj
    ∧ length dj = 21%nat
    ∧ length (HandData.joints hd) = 25%nat
    ∧ landmarks !! 0%nat = Some wristLm
    ∧ HandData.joints hd !! 0%nat = dj !! 0%nat
    ∧ Joint.position <$> HandData.joints hd !! 0%nat = Some (handAnchor headPos wristLm)
    ∧ Forall (λ kd,
        ∃ wrist first meta,
          dj !! 0%nat = Some wrist ∧ dj !! kd.2 = Some first
          ∧ HandData.joints hd !! kd.1 = Some meta
          ∧ HandData.joints hd !! S kd.1 = Some first
          ∧ Joint.position meta = midpoint (Joint.position wrist) (Joint.position first))
        metacarpals.
Proof.
  intros [Hl Hw].
  explode landmarks.
  destruct worldLandmarks as [wl|]; [destruct Hw as [->|Hw]; [|explode wl]|].
  all: do 3 eexists; split_and!.
  all: lazymatch goal with
       | |- Forall _ _ =>
           repeat constructor; do 3 eexists; split_and!; try reflexivity;
           apply interpolate_half_midpoint
       | |- _ <$> _ = Some (handAnchor _ _) =>
           cbn; unfold handAnchor; apply (f_equal Some), Vec3_eq; decimals; field
       | |- _ => reflexivity
       end.
Qed.

Lemma hand_skeleton_25_joints_midpoints_witness :
  let lm := repeat (Vec3.mk 0.5 0.5 0) 21 in
  handObservation lm None
  ∧ ∃ hd dj wristLm,
      processHandLandmarks (Vec3.mk 0 0 0) lm None right_hand = Some hd
      ∧ detectorJoints (Vec3.mk 0 0 0) lm None = Some dj
      ∧ length dj = 21%nat
      ∧ length (HandData.joints hd) = 25%nat
      ∧ lm !! 0%nat = Some wristLm
      ∧ HandData.joints hd !! 0%nat = dj !! 0%nat
      ∧ Joint.position <$> HandData.joints hd !! 0%nat
        = Some (handAnchor (Vec3.mk 0 0 0) wristLm)
      ∧ Forall (λ kd,
          ∃ wrist first meta,
            dj !! 0%nat = Some wrist ∧ dj !! kd.2 = Some first
            ∧ HandData.joints hd !! kd.1 = Some meta
            ∧ HandData.joints hd !! S kd.1 = Some first
            ∧ Joint.position meta = midpoint (Joint.position wrist) (Joint.position first))
          metacarpals.
Proof.
  assert (H : handObservation (repeat (Vec3.mk 0.5 0.5 0) 21) None)
    by (split; [reflexivity | exact I]).
  split; [exact H|].
  exact (hand_skeleton_25_joints_midpoints (Vec3.mk 0 0 0) _ None right_hand H).
Defined.

(** ** The palm normal *)

Lemma palmNormalOf_left (wrist indexMcp pinkyMcp : Vec3.t) :
  palmNormalOf wrist indexMcp pinkyMcp left_hand
  = vecNeg (palmNormalOf wrist indexMcp pinkyMcp right_hand).
Proof. reflexivity. Qed.

Lemma vecNorm2_neg (v : Vec3.t) : vecNorm2 (vecNeg v) = vecNorm2 v.
Proof. destruct v. unfold vecNorm2, vecNeg. simpl. ring. Qed.

Lemma palmNormalOf_unit (wrist indexMcp pinkyMcp : Vec3.t) (handedness : Handedness) :
  0.0001 < vecLength (palmCross wrist indexMcp pinkyMcp) →
  vecNorm2 (palmNormalOf wrist indexMcp pinkyMcp handedness) = 1.
Proof.
  intros Hlen.
  assert (Hr : vecNorm2 (palmNormalOf wrist indexMcp pinkyMcp right_hand) = 1).
  { unfold palmNormalOf. apply Rgtb_true in Hlen as Hb. rewrite Hb.
    destruct (palmCross wrist indexMcp pinkyMcp) as [nx ny nz].
    unfold vecLength, vecNorm2 in *. cbn in *.
    set (n := nx * nx + ny * ny + nz * nz) in *.
    assert (Hpos : 0 < sqrt n) by lra.
    assert (0 <= n).
    { unfold n. pose proof (Rle_0_sqr nx). pose proof (Rle_0_sqr ny).
      pose proof (Rle_0_sqr nz). unfold Rsqr in *. lra. }
    assert (Hs : sqrt n * sqrt n = n) by (apply sqrt_sqrt; assumption).
    replace (nx / sqrt n * (nx / sqrt n) + ny / sqrt n * (ny / sqrt n)
             + nz / sqrt n * (nz / sqrt n))
      with (n / (sqrt n * sqrt n)) by (unfold n at 1; field; lra).
    rewrite Hs. field. nra. }
  destruct handedness; [|exact Hr].
  rewrite palmNormalOf_left, vecNorm2_neg. exact Hr.
Qed.

(** Reflecting the three points reflects the normal of the other hand. *)
Lemma palmNormalOf_mirror (w i p w' i' p' : Vec3.t) :
  Vec3.x i' - Vec3.x w' = - (Vec3.x i - Vec3.x w) →
  Vec3.y i' - Vec3.y w' = Vec3.y i - Vec3.y w →
  Vec3.z i' - Vec3.z w' = Vec3.z i - Vec3.z w →
  Vec3.x p' - Vec3.x w' = - (Vec3.x p - Vec3.x w) →
  Vec3.y p' - Vec3.y w' = Vec3.y p - Vec3.y w →
  Vec3.z p' - Vec3.z w' = Vec3.z p - Vec3.z w →
  0.0001 < vecLength (palmCross w i p) →
  palmNormalOf w' i' p' left_hand = mirrorX (palmNormalOf w i p right_hand).
Proof.
  intros Hix Hiy Hiz Hpx Hpy Hpz Hlen.
  unfold palmNormalOf, palmCross, vecLength in *. cbn in *.
  rewrite Hix, Hiy, Hiz, Hpx, Hpy, Hpz.
  set (a := Vec3.x i - Vec3.x w) in *. set (b := Vec3.y i - Vec3.y w) in *.
  set (c := Vec3.z i - Vec3.z w) in *. set (d := Vec3.x p - Vec3.x w) in *.
  set (e := Vec3.y p - Vec3.y w) in *. set (f := Vec3.z p - Vec3.z w) in *.
  replace ((e * c - f * b) * (e * c - f * b) + (f * - a - - d * c) * (f * - a - - d * c)
           + (- d * b - e * - a) * (- d * b - e * - a))
    with ((e * c - f * b) * (e * c - f * b) + (f * a - d * c) * (f * a - d * c)
          + (d * b - e * a) * (d * b - e * a)) by ring.
  set (len := sqrt _) in *.
  apply Rgtb_true in Hlen as Hb. rewrite Hb.
  unfold mirrorX. cbn. apply Vec3_eq; field; lra.
Qed.

(** The component of the right-hand normal along the third axis. *)
Lemma palmNormalOf_right_z (wrist indexMcp pinkyMcp : Vec3.t) :
  0.0001 < vecLength (palmCross wrist indexMcp pinkyMcp) →
  Vec3.z (palmNormalOf wrist indexMcp pinkyMcp right_hand)
  = Vec3.z (palmCross wrist indexMcp pinkyMcp)
    / vecLength (palmCross wrist indexMcp pinkyMcp).
Proof.
  intros Hlen. unfold palmNormalOf. apply Rgtb_true in Hlen. by rewrite Hlen.
Qed.

(** C7, as the code has it.  For every hand observation whose wrist, index
    and pinky joints are not degenerate, the palm normal is a unit vector.
    The palm normal computed for a left hand is the sign reversal of the
    one computed for a right hand from the same landmarks.  For a
    left-hand input whose landmarks are the mirror image of a right-hand
    input that is not degenerate, the palm normal is the mirror image of
    the right hand's normal (its first component negated), and a unit
    vector. *)
Theorem palm_normal_unit_and_mirrored (hp hp' : Vec3.t)
    (lm : list Vec3.t) (wl : option (list Vec3.t)) :
  handObservation lm wl →
  (∀ side hd, processHandLandmarks hp lm wl side = Some hd → nonDegenerate hd →
     ∃ n, HandData.palmNormal hd = Some n ∧ vecNorm2 n = 1)
  ∧ ∃ hdR hdL hdM nR nL nM,
      processHandLandmarks hp lm wl right_hand = Some hdR
      ∧ HandData.palmNormal hdR = Some nR
      ∧ processHandLandmarks hp lm wl left_hand = Some hdL
      ∧ HandData.palmNormal hdL = Some nL
      ∧ nL = vecNeg nR
      ∧ processHandLandmarks hp' (mirrorLandmarks lm) (mirrorWorldLandmarks wl) left_hand
        = Some hdM
      ∧ HandData.palmNormal hdM = Some nM
      ∧ (nonDegenerate hdR → nM = mirrorX nR ∧ vecNorm2 nM = 1).
Proof.
  intros [Hl Hw].
  explode lm.
  destruct wl as [wl|]; [destruct Hw as [->|Hw]; [|explode wl]|].
  all: split;
    [ intros side hd [= <-] Hnd; eexists; split; [reflexivity|];
      apply palmNormalOf_unit; exact Hnd
    | do 6 eexists; split_and!; try reflexivity ].
  all: intros Hnd;
    assert (Hm : ∀ a b, a = mirrorX b → vecNorm2 b = 1 → a = mirrorX b ∧ vecNorm2 a = 1)
      by (intros a [bx b_y bz] -> Hb; split; [reflexivity|];
          unfold vecNorm2, mirrorX in *; cbn in *; lra);
    apply Hm; [|apply palmNormalOf_unit; exact Hnd].
  all: apply palmNormalOf_mirror; try exact Hnd; cbn; decimals; field.
Qed.

Lemma palm_normal_unit_and_mirrored_witness :
  handObservation openHandLandmarks None
  ∧ ∃ hd n,
      processHandLandmarks (Vec3.mk 0 0 (-0.5)) openHandLandmarks None right_hand = Some hd
      ∧ nonDegenerate hd
      ∧ HandData.palmNormal hd = Some n
      ∧ vecNorm2 n = 1.
Proof.
  assert (H : handObservation openHandLandmarks None)
    by (split; [reflexivity | exact I]).
  split; [exact H|].
  assert (Hnd : ∃ hd,
             processHandLandmarks (Vec3.mk 0 0 (-0.5)) openHandLandmarks None right_hand
             = Some hd ∧ nonDegenerate hd).
  { eexists; split; [reflexivity|].
    unfold nonDegenerate, vecLength, palmCross. cbn. apply lt_sqrt; lra. }
  destruct Hnd as (hd & E & Hnd).
  destruct (proj1 (palm_normal_unit_and_mirrored (Vec3.mk 0 0 (-0.5)) (Vec3.mk 0 0 (-0.5))
                     openHandLandmarks None H) right_hand hd E Hnd)
    as (n & Hn & Hu).
  exists hd, n. auto.
Defined.

(** A vector with a non-zero third component is not sent to its opposite
    by the reflection, nor to the opposite of its mirror image. *)
Lemma mirrorX_not_reversed (n : Vec3.t) :
  Vec3.z n ≠ 0 → mirrorX n ≠ vecNeg n ∧ mirrorX n ≠ vecNeg (mirrorX n).
Proof.
  destruct n as [x y z]. unfold mirrorX, vecNeg. cbn. intros Hz.
  split; intros Heq; apply (f_equal Vec3.z) in Heq; cbn in Heq; apply Hz; lra.
Qed.

(** C7, as the claim has it, fails: for the open right hand seen by the
    camera and the left hand that is its mirror image, the normal of the
    left hand is the mirror image of the normal of the right hand; it is
    neither the sign reversal of that normal nor the sign reversal of its
    mirror image. *)
Lemma mirrored_left_normal_is_not_reversed :
  let hp := Vec3.mk 0 0 (- 0.5) in
  handObservation openHandLandmarks None
  ∧ ∃ hdR hdL nR nL,
      processHandLandmarks hp openHandLandmarks None right_hand = Some hdR
      ∧ nonDegenerate hdR
      ∧ HandData.palmNormal hdR = Some nR
      ∧ processHandLandmarks hp (mirrorLandmarks openHandLandmarks)
          (mirrorWorldLandmarks None) left_hand = Some hdL
      ∧ HandData.palmNormal hdL = Some nL
      ∧ nL = mirrorX nR
      ∧ nL ≠ vecNeg nR
      ∧ nL ≠ vecNeg (mirrorX nR).
Proof.
  intros hp. split; [split; [reflexivity | exact I]|].
  do 4 eexists.
  split; [reflexivity|]. cbn [HandData.palmNormal].
  match goal with |- nonDegenerate ?hd ∧ _ =>
    assert (Hnd : nonDegenerate hd)
      by (unfold nonDegenerate, vecLength, palmCross; cbn; apply lt_sqrt; lra)
  end.
  split; [exact Hnd|]. split; [reflexivity|]. split; [reflexivity|].
  split; [reflexivity|].
  match goal with |- ?nL = mirrorX ?nR ∧ _ =>
    assert (Hm : nL = mirrorX nR)
      by (apply palmNormalOf_mirror; try exact Hnd; cbn; decimals; field);
    assert (Hz : Vec3.z nR ≠ 0)
  end.
  { unfold nonDegenerate in Hnd. cbn [HandData.joints lookup list_lookup] in Hnd.
    rewrite (palmNormalOf_right_z _ _ _ Hnd).
    unfold Rdiv. apply Rmult_integral_contrapositive. split.
    - unfold palmCross. cbn. lra.
    - apply Rinv_neq_0_compat. lra. }
  split; [exact Hm|]. rewrite Hm.
  exact (mirrorX_not_reversed _ Hz).
Qed.

(** ** The viewer pose *)

Lemma Vec4_eq (x1 y1 z1 w1 x2 y2 z2 w2 : R) :
  x1 = x2 → y1 = y2 → z1 = z2 → w1 = w2 → Vec4.mk x1 y1 z1 w1 = Vec4.mk x2 y2 z2 w2.
Proof. congruence. Qed.

Lemma floor_test (type : string) :
  String.eqb type "local-floor" || String.eqb type "bounded-floor"
  = bool_decide (floorType type).
Proof.
  unfold floorType.
  destruct (String.eqb type "local-floor") eqn:E1; simpl.
  - apply String.eqb_eq in E1. symmetry. apply bool_decide_eq_true. by left.
  - destruct (String.eqb type "bounded-floor") eqn:E2.
    + apply String.eqb_eq in E2. symmetry. apply bool_decide_eq_true. by right.
    + apply String.eqb_neq in E1, E2. symmetry. apply bool_decide_eq_false.
      intros [?|?]; congruence.
Qed.

(** C6. The position of the viewer pose is the head position, plus the
    standing height (1.8) on the second component exactly when the type
    of the reference space is 'local-floor' or 'bounded-floor', minus
    the position of the origin offset of the reference space if it has
    one.  So 'viewer' and 'local' spaces get no height; and with the head
    at the origin, an origin offset of (1, 0, 0) on such a space gives
    the position (-1, 0, 0). *)
Theorem viewer_pose_position (head : HeadState) (stereo : bool)
    (referenceSpace : XRReferenceSpace.t) :
  position (XRViewerPose.transform (getViewerPose head stereo referenceSpace))
  = DOMPointReadOnly
      (Vec3.x (headPosition head) - Vec3.x (offsetPosition referenceSpace))
      (Vec3.y (headPosition head)
       + (if bool_decide (floorType (XRReferenceSpace._type referenceSpace))
          then standingHeight else 0)
       - Vec3.y (offsetPosition referenceSpace))
      (Vec3.z (headPosition head) - Vec3.z (offsetPosition referenceSpace))
      1
  ∧ standingHeight = 1.8
  ∧ Forall (λ type, floorType type) ["local-floor"; "bounded-floor"]%string
  ∧ Forall (λ type, ¬ floorType type) ["viewer"; "local"]%string
  ∧ Forall (λ type,
      ∀ rotation w o,
        position
          (XRViewerPose.transform
             (getViewerPose {| headPosition := Vec3.mk 0 0 0; headRotation := rotation |}
                stereo
                (getOffsetReferenceSpace (XRReferenceSpace_new type)
                   {| position := DOMPointReadOnly 1 0 0 w; orientation := o |})))
        = DOMPointReadOnly (-1) 0 0 1)
      ["viewer"; "local"]%string.
Proof.
  split_and!.
  - unfold getViewerPose, XRViewerPose_new, offsetPosition.
    rewrite floor_test.
    destruct (XRReferenceSpace._originOffset referenceSpace) as [offset|];
      cbn; apply Vec4_eq; lra.
  - reflexivity.
  - apply Forall_cons; split; [by left|].
    apply Forall_cons; split; [by right|]. constructor.
  - apply Forall_cons; split; [intros [?|?]; discriminate|].
    apply Forall_cons; split; [intros [?|?]; discriminate|]. constructor.
  - apply Forall_cons; split; [intros rotation w o; cbn; apply Vec4_eq; lra|].
    apply Forall_cons; split; [intros rotation w o; cbn; apply Vec4_eq; lra|].
    constructor.
Qed.

(** C9. Whatever the reference space, the orientation of the viewer pose,
    and of each of its views, is the head orientation as it stands; the
    orientation of an origin offset has no effect on the viewer pose at
    all, neither on its orientation nor on its position. *)
Theorem viewer_pose_orientation_ignores_offset (head : HeadState) (stereo : bool)
    (referenceSpace : XRReferenceSpace.t) :
  orientation (XRViewerPose.transform (getViewerPose head stereo referenceSpace))
  = headRotation head
  ∧ Forall (λ v, orientation (XRView.transform v) = headRotation head)
           (XRViewerPose.views (getViewerPose head stereo referenceSpace))
  ∧ ∀ p o1 o2,
      getViewerPose head stereo
        (getOffsetReferenceSpace referenceSpace {| position := p; orientation := o1 |})
      = getViewerPose head stereo
          (getOffsetReferenceSpace referenceSpace {| position := p; orientation := o2 |}).
Proof.
  destruct head as [hp [rx ry rz rw]].
  split_and!.
  - unfold getViewerPose, XRViewerPose_new.
    destruct (XRReferenceSpace._originOffset referenceSpace); reflexivity.
  - unfold getViewerPose, XRViewerPose_new.
    destruct (XRReferenceSpace._originOffset referenceSpace), stereo;
      repeat constructor.
  - reflexivity.
Qed.

(** ** Joint spaces *)

Lemma XRHand_fill_lookup (names : list string) (i : nat)
    (m : gmap string XRJointSpace.t) (n : string) (js : XRJointSpace.t) :
  XRHand_fill names i m !! n = Some js →
  m !! n = Some js ∨ (n ∈ names ∧ ∃ k, js = XRJointSpace_new n HandData.empty k).
Proof.
  revert i m. induction names as [|name rest IH]; intros i m; simpl.
  - by left.
  - intros H. destruct (IH _ _ H) as [H1 | (Hin & k & ->)].
    + destruct (decide (name = n)) as [->|Hne].
      * rewrite lookup_insert_eq in H1. injection H1 as <-.
        right. split; [by left | by exists i].
      * rewrite lookup_insert_ne in H1 by done. by left.
    + right. split; [by right | by exists k].
Qed.

Lemma XRHand_fill_is_Some (names : list string) (i : nat)
    (m : gmap string XRJointSpace.t) (n : string) :
  n ∈ names ∨ is_Some (m !! n) → is_Some (XRHand_fill names i m !! n).
Proof.
  revert i m. induction names as [|name rest IH]; intros i m; simpl.
  - intros [H|H]; [by apply elem_of_nil in H | done].
  - intros H. apply IH.
    destruct (decide (name = n)) as [->|Hne].
    + right. rewrite lookup_insert_eq. by eexists.
    + rewrite lookup_insert_ne by done.
      destruct H as [H|H]; [|by right].
      apply elem_of_cons in H as [->|H]; [done | by left].
Qed.

Lemma set_handData_twice (d : HandData.t) (js : XRJointSpace.t) :
  XRJointSpace.set_handData d (XRJointSpace.set_handData d js)
  = XRJointSpace.set_handData d js.
Proof. reflexivity. Qed.

Lemma XRHand_assign_lookup (names : list string) (d : HandData.t)
    (m m' : gmap string XRJointSpace.t) (n : string) :
  XRHand_assign names d m = Some m' →
  m' !! n = if decide (n ∈ names) then XRJointSpace.set_handData d <$> m !! n else m !! n.
Proof.
  revert m. induction names as [|name rest IH]; intros m; simpl.
  - intros [= <-]. destruct (decide (n ∈ [])) as [H|]; [by apply elem_of_nil in H | done].
  - destruct (m !! name) as [js|] eqn:E; simpl; [|done].
    intros H. rewrite (IH _ H).
    destruct (decide (n = name)) as [->|Hne].
    + rewrite lookup_insert_eq, E. simpl.
      destruct (decide (name ∈ name :: rest)) as [_|Hn]; [|by destruct Hn; left].
      destruct (decide (name ∈ rest)); reflexivity.
    + rewrite lookup_insert_ne by done.
      destruct (decide (n ∈ rest)) as [Hin|Hnin].
      * rewrite decide_True by (by right). reflexivity.
      * rewrite decide_False; [reflexivity|].
        intros [?|?]%elem_of_cons; done.
Qed.

Lemma XRHand_assign_total (names : list string) (d : HandData.t)
    (m : gmap string XRJointSpace.t) :
  (∀ n, n ∈ names → is_Some (m !! n)) → is_Some (XRHand_assign names d m).
Proof.
  revert m. induction names as [|name rest IH]; intros m Hall; simpl.
  - by eexists.
  - destruct (Hall name) as [js E]; [by left|]. rewrite E. simpl.
    apply IH. intros n Hn.
    destruct (decide (name = n)) as [->|Hne].
    + rewrite lookup_insert_eq. by eexists.
    + rewrite lookup_insert_ne by done. apply Hall. by right.
Qed.

(** What holds of every hand the polyfill can hold: its entries are the
    25 joint names, each with the radius of the constructor. *)
Lemma XRHand_reachable_entries (h : XRHand.t) :
  XRHand_reachable h →
  (∀ n, n ∈ HAND_JOINTS → is_Some (XRHand.entries h !! n))
  ∧ (∀ n js, XRHand.entries h !! n = Some js →
       n ∈ HAND_JOINTS ∧ XRJointSpace._radius js = 0.01).
Proof.
  induction 1 as [hd | h h' hd Hr [IH1 IH2] Hu].
  - split.
    + intros n Hn. apply XRHand_fill_is_Some. by left.
    + intros n js H. apply XRHand_fill_lookup in H as [H | (Hin & k & ->)].
      * by rewrite lookup_empty in H.
      * done.
  - unfold XRHand_update in Hu.
    destruct (XRHand_assign _ _ _) as [m'|] eqn:E; [|discriminate Hu].
    injection Hu as <-. cbn [XRHand.entries]. split.
    + intros n Hn. rewrite (XRHand_assign_lookup _ _ _ _ n E).
      rewrite decide_True by done.
      destruct (IH1 n Hn) as [js ->]. by eexists.
    + intros n js. rewrite (XRHand_assign_lookup _ _ _ _ n E).
      destruct (decide (n ∈ HAND_JOINTS)) as [Hin|Hnin].
      * destruct (XRHand.entries h !! n) as [js0|] eqn:E0; simpl; [|done].
        intros [= <-]. split; [done|]. apply (IH2 _ _ E0).
      * intros H. by destruct (IH2 _ _ H).
Qed.

Lemma no_joints_no_pose (js : XRJointSpace.t) :
  HandData.joints (XRJointSpace._handData js) = [] →
  getPose (JointSpaceArg js) = None ∧ getJointPose (JointSpaceArg js) = None.
Proof.
  intros H. unfold getPose, getJointPose, _getJointPose, _getPose. by rewrite H.
Qed.

(** C10. A joint space whose hand data has no joints answers [null] to
    [getPose] and to [getJointPose]; this is the case of every joint
    space of a hand that was never updated, and of every joint space of
    a hand updated with absent data (an update that succeeds).  A joint
    pose that is returned carries the radius 0.01, and one is returned
    whenever the joint is present. *)
Theorem joint_pose_null_or_radius :
  (∀ js, HandData.joints (XRJointSpace._handData js) = [] →
     getPose (JointSpaceArg js) = None ∧ getJointPose (JointSpaceArg js) = None)
  ∧ (∀ handData n js,
       XRHand.entries (XRHand_new handData) !! n = Some js →
       getPose (JointSpaceArg js) = None ∧ getJointPose (JointSpaceArg js) = None)
  ∧ (∀ h, XRHand_reachable h →
       ∃ h', XRHand_update None h = Some h'
         ∧ ∀ n js, XRHand.entries h' !! n = Some js →
             getPose (JointSpaceArg js) = None ∧ getJointPose (JointSpaceArg js) = None)
  ∧ (∀ h n js jp,
       XRHand_reachable h → XRHand.entries h !! n = Some js →
       getJointPose (JointSpaceArg js) = Some jp → XRJointPose.radius jp = 0.01)
  ∧ (∀ h n js joint,
       XRHand_reachable h → XRHand.entries h !! n = Some js →
       HandData.joints (XRJointSpace._handData js) !! XRJointSpace._jointIndex js
       = Some joint →
       ∃ jp, getJointPose (JointSpaceArg js) = Some jp ∧ XRJointPose.radius jp = 0.01).
Proof.
  split_and!.
  - apply no_joints_no_pose.
  - intros hd n js H. apply no_joints_no_pose.
    apply XRHand_fill_lookup in H as [H | (_ & k & ->)]; [|done].
    by rewrite lookup_empty in H.
  - intros h Hr. destruct (XRHand_reachable_entries h Hr) as [H1 H2].
    destruct (XRHand_assign_total HAND_JOINTS HandData.empty (XRHand.entries h) H1)
      as [m' E].
    exists {| XRHand.entries := m'; XRHand._handData := None |}. split.
    + unfold XRHand_update. cbn [default]. rewrite E. reflexivity.
    + cbn [XRHand.entries]. intros n js. rewrite (XRHand_assign_lookup _ _ _ _ n E).
      destruct (decide (n ∈ HAND_JOINTS)) as [Hin|Hnin].
      * destruct (XRHand.entries h !! n); simpl; [|done].
        intros [= <-]. by apply no_joints_no_pose.
      * intros H. by destruct (H2 _ _ H).
  - intros h n js jp Hr H Hp.
    destruct (XRHand_reachable_entries h Hr) as [_ H2].
    destruct (H2 _ _ H) as [_ Hrad].
    unfold getJointPose, _getJointPose in Hp.
    destruct (_getPose js); [|done]. injection Hp as <-. exact Hrad.
  - intros h n js joint Hr H Hj.
    destruct (XRHand_reachable_entries h Hr) as [_ H2].
    destruct (H2 _ _ H) as [_ Hrad].
    unfold getJointPose, _getJointPose, _getPose. rewrite Hj.
    eexists. split; [reflexivity|]. exact Hrad.
Qed.

(** ** The session singleton *)

Lemma XRSession_new_fresh (mode : string) (options : XRSessionInit.t) (w : World.t) :
  World.sessions w !! (XRSession_new mode options w).1 = None.
Proof.
  unfold XRSession_new. simpl. apply not_elem_of_dom, is_fresh.
Qed.

Lemma XRSession_new_session (mode : string) (options : XRSessionInit.t) (w : World.t) :
  ∃ session,
    World.sessions (XRSession_new mode options w).2 !! (XRSession_new mode options w).1
    = Some session
    ∧ XRSession.mode session = mode
    ∧ XRSession._ended session = false
    ∧ XRSession._frameCallbacks session = []
    ∧ XRSession._referenceSpaces session = ∅
    ∧ XRSession._animationFrameId session = Some (World.nextAnimationFrame w)
    ∧ World.animationFrames (XRSession_new mode options w).2
        !! World.nextAnimationFrame w = Some (XRSession_new mode options w).1.
Proof.
  unfold XRSession_new, window_requestAnimationFrame. simpl.
  eexists. rewrite !lookup_insert_eq. split_and!; reflexivity.
Qed.

Lemma XRSession_end_spec (this : nat) (session : XRSession.t) (w : World.t) :
  World.sessions w !! this = Some session →
  ∃ w1,
    XRSession_end this w = Some w1
    ∧ World.sessions w1 = <[this := XRSession.set_ended true session]> (World.sessions w)
    ∧ World.isTracking w1 = false
    ∧ World.animationFrames w1
      = match XRSession._animationFrameId session with
        | Some id => if (id =? 0)%nat then World.animationFrames w
                     else delete id (World.animationFrames w)
        | None => World.animationFrames w
        end
    ∧ World.nextAnimationFrame w1 = World.nextAnimationFrame w
    ∧ World.videoElement w1 = None
    ∧ World.stoppedStreams w1
      = World.stoppedStreams w
        ++ match World.videoElement w with
           | Some v => match srcObject v with Some stream => [stream] | None => [] end
           | None => []
           end
    ∧ World.currentSession w1 = None
    ∧ World.dispatched w1 = World.dispatched w ++ [(this, XRSessionEvent "end")]
    ∧ World.head w1 = World.head w
    ∧ World.leftHandData w1 = World.leftHandData w
    ∧ World.rightHandData w1 = World.rightHandData w
    ∧ World.stereo w1 = World.stereo w
    ∧ World.trackingStarts w1 = World.trackingStarts w.
Proof.
  intros E. unfold XRSession_end. rewrite E. cbn [mbind option_bind].
  eexists. split; [reflexivity|].
  unfold stopCamera, window_cancelAnimationFrame.
  destruct (XRSession._animationFrameId session) as [id|];
    [destruct (id =? 0)%nat|];
    destruct (World.videoElement w) as [[[stream|]]|] eqn:Ev;
    cbn; rewrite ?Ev; cbn; split_and!; rewrite ?Ev, ?app_nil_r; reflexivity.
Qed.

Lemma World_eq (a b : World.t) :
  World.videoElement a = World.videoElement b →
  World.isTracking a = World.isTracking b →
  World.currentSession a = World.currentSession b →
  World.head a = World.head b →
  World.leftHandData a = World.leftHandData b →
  World.rightHandData a = World.rightHandData b →
  World.stereo a = World.stereo b →
  World.sessions a = World.sessions b →
  World.animationFrames a = World.animationFrames b →
  World.nextAnimationFrame a = World.nextAnimationFrame b →
  World.stoppedStreams a = World.stoppedStreams b →
  World.trackingStarts a = World.trackingStarts b →
  World.dispatched a = World.dispatched b →
  a = b.
Proof. destruct a, b. simpl. intros. by subst. Qed.

(** While the singleton [currentSession] holds a session, [requestSession]
    throws an [InvalidStateError] and leaves the whole state, the existing
    session and the table of sessions included, as it was; once [end()]
    has run on that session, a request returns a new session, not ended,
    of the mode asked for, which the singleton then holds, and the ended
    session keeps its flag. *)
Lemma request_with_singleton_set (w : World.t) (s : nat) (session : XRSession.t)
    (mode : string) (options : XRSessionInit.t) :
  World.currentSession w = Some s →
  World.sessions w !! s = Some session →
  requestSession mode options w
  = (Thrown "InvalidStateError" "Session already active", w)
  ∧ ∃ w1 s' w2 session',
      XRSession_end s w = Some w1
      ∧ World.currentSession w1 = None
      ∧ requestSession mode options w1 = (Returned s', w2)
      ∧ s' ≠ s
      ∧ World.currentSession w2 = Some s'
      ∧ World.isTracking w2 = true
      ∧ World.sessions w2 !! s' = Some session'
      ∧ XRSession.mode session' = mode
      ∧ XRSession._ended session' = false
      ∧ World.sessions w2 !! s = Some (XRSession.set_ended true session).
Proof.
  intros Hc Hs. split.
  - unfold requestSession. by rewrite Hc.
  - destruct (XRSession_end_spec s session w Hs)
      as (w1 & He & Hsess & _ & _ & _ & _ & _ & Hcur & _).
    destruct (XRSession_new_session mode options w1)
      as (session' & Hl & Hm & Hend & _).
    pose proof (XRSession_new_fresh mode options w1) as Hf.
    destruct (XRSession_new mode options w1) as [s' w1'] eqn:En.
    assert (Hne : s' ≠ s).
    { intros ->. simpl in Hf. rewrite Hsess, lookup_insert_eq in Hf. discriminate. }
    exists w1, s', (requestSession mode options w1).2, session'.
    unfold requestSession. rewrite Hcur, En. simpl in *.
    split_and!; try done.
    unfold XRSession_new, window_requestAnimationFrame in En.
    injection En as <- <-. simpl.
    rewrite lookup_insert_ne by done. rewrite Hsess. apply lookup_insert_eq.
Qed.

(** ** Ending a session *)

(** C8, as the code has it.  Ending a session sets its ended flag, stops
    tracking, cancels the animation frame that the session has pending,
    releases the camera (the stream of the video element is stopped and
    the element dropped), clears the active-session singleton, and
    dispatches one end event.  A further call of [end()] on the ended
    session changes nothing of that, and dispatches one more end event. *)
Theorem end_session_effects (this : nat) (session : XRSession.t) (w : World.t) :
  World.sessions w !! this = Some session →
  ∃ w1,
    XRSession_end this w = Some w1
    ∧ World.sessions w1 !! this = Some (XRSession.set_ended true session)
    ∧ World.isTracking w1 = false
    ∧ (∀ id, XRSession._animationFrameId session = Some id → id ≠ 0%nat →
             World.animationFrames w1 !! id = None)
    ∧ World.videoElement w1 = None
    ∧ (∀ v stream, World.videoElement w = Some v → srcObject v = Some stream →
                   stream ∈ World.stoppedStreams w1)
    ∧ World.currentSession w1 = None
    ∧ World.dispatched w1 = World.dispatched w ++ [(this, XRSessionEvent "end")]
    ∧ XRSession_end this w1
      = Some (World.set_dispatched
                (World.dispatched w1 ++ [(this, XRSessionEvent "end")]) w1).
Proof.
  intros Hs.
  destruct (XRSession_end_spec this session w Hs)
    as (w1 & He & Hsess & Htr & Haf & Hnext & Hv & Hst & Hcur & Hd & Hh & Hl & Hr & Hste & Hts).
  exists w1. split_and!; try done.
  - rewrite Hsess. apply lookup_insert_eq.
  - intros id Hid Hne. rewrite Haf, Hid.
    destruct (id =? 0)%nat eqn:E0; [by apply Nat.eqb_eq in E0|].
    apply lookup_delete_eq.
  - intros v stream Ev Es. rewrite Hst, Ev, Es. apply elem_of_app. right. by left.
  - assert (Hs1 : World.sessions w1 !! this = Some (XRSession.set_ended true session))
      by (rewrite Hsess; apply lookup_insert_eq).
    destruct (XRSession_end_spec this _ w1 Hs1)
      as (w2 & He2 & Hsess2 & Htr2 & Haf2 & Hnext2 & Hv2 & Hst2 & Hcur2 & Hd2
          & Hh2 & Hl2 & Hr2 & Hste2 & Hts2).
    rewrite He2. f_equal. apply World_eq; simpl; try congruence.
    + rewrite Hsess2, Hsess. apply insert_insert_eq.
    + rewrite Haf2. simpl. destruct (XRSession._animationFrameId session) as [id|];
        [|done]. destruct (id =? 0)%nat; [done|].
      rewrite Haf. apply delete_delete_eq.
    + rewrite Hst2, Hv. apply app_nil_r.
Qed.

Lemma end_session_effects_witness :
  let options := {| XRSessionInit.requiredFeatures := None;
                    XRSessionInit.optionalFeatures := None |} in
  let r := requestSession "immersive-vr" options initialWorld in
  let w := startCamera 7 r.2 in
  ∃ s session w1,
    r.1 = Returned s
    ∧ World.sessions w !! s = Some session
    ∧ XRSession_end s w = Some w1
    ∧ World.videoElement w1 = None
    ∧ World.stoppedStreams w1 = [7%nat]
    ∧ World.animationFrames w1 = ∅
    ∧ World.dispatched w1 = [(s, XRSessionEvent "end")].
Proof.
  intros options r w.
  destruct (XRSession_new_session "immersive-vr" options initialWorld)
    as (session & Hl & _ & _ & _ & _ & Hid & _).
  assert (Hs : World.sessions w !! (XRSession_new "immersive-vr" options initialWorld).1
               = Some session) by exact Hl.
  destruct (end_session_effects _ session w Hs)
    as (w1 & He & _ & _ & _ & Hv & _ & _ & Hd & _).
  exists (XRSession_new "immersive-vr" options initialWorld).1, session, w1.
  split_and!; try done.
  - unfold XRSession_end in He. rewrite Hs in He. cbn [mbind option_bind] in He.
    rewrite Hid in He. injection He as <-. reflexivity.
  - unfold XRSession_end in He. rewrite Hs in He. cbn [mbind option_bind] in He.
    rewrite Hid in He. injection He as <-. cbn.
    rewrite delete_insert_eq. apply delete_empty.
Defined.

(** C8, as the claim has it, fails: a session is requested, ended, and
    ended again; the second call dispatches a second end event, so the
    state after it is not the state after the first. *)
Lemma end_again_dispatches_again :
  let options := {| XRSessionInit.requiredFeatures := None;
                    XRSessionInit.optionalFeatures := None |} in
  let r := requestSession "immersive-vr" options initialWorld in
  ∃ s w1 w2,
    r.1 = Returned s
    ∧ XRSession_end s r.2 = Some w1
    ∧ XRSession_end s w1 = Some w2
    ∧ World.dispatched w1 = [(s, XRSessionEvent "end")]
    ∧ World.dispatched w2 = [(s, XRSessionEvent "end"); (s, XRSessionEvent "end")]
    ∧ w2 ≠ w1.
Proof.
  intros options r.
  destruct (XRSession_new_session "immersive-vr" options initialWorld)
    as (session & Hl & _).
  assert (Hs : World.sessions r.2 !! (XRSession_new "immersive-vr" options initialWorld).1
               = Some session) by exact Hl.
  destruct (XRSession_end_spec _ session r.2 Hs)
    as (w1 & He & Hsess & _ & _ & _ & _ & _ & _ & Hd & _).
  assert (Hs1 : World.sessions w1 !! (XRSession_new "immersive-vr" options initialWorld).1
                = Some (XRSession.set_ended true session))
    by (rewrite Hsess; apply lookup_insert_eq).
  destruct (XRSession_end_spec _ _ w1 Hs1)
    as (w2 & He2 & _ & _ & _ & _ & _ & _ & _ & Hd2 & _).
  exists (XRSession_new "immersive-vr" options initialWorld).1, w1, w2.
  assert (Hd1 : World.dispatched w1
                = [((XRSession_new "immersive-vr" options initialWorld).1,
                    XRSessionEvent "end")]) by (rewrite Hd; reflexivity).
  split_and!; try done.
  - rewrite Hd2, Hd1. reflexivity.
  - intros Heq. rewrite Heq, Hd1 in Hd2. discriminate Hd2.
Qed.

(** ** The pinch gesture *)

Lemma updateGamepad_pinchState (side : Handedness) (session : nat) (b : bool)
    (hd : HandData.t) (src : XRInputSource.t) :
  pinchState side session b src → pinchState side session b (_updateGamepad hd src).
Proof.
  unfold _updateGamepad.
  destruct (length (HandData.joints hd) <? 10)%nat; [done|].
  destruct (HandData.joints hd !! 4%nat), (HandData.joints hd !! 9%nat); done.
Qed.

Lemma detectGestures_tick (side : Handedness) (session : nat) (was cur : bool)
    (hd : HandData.t) (src : XRInputSource.t) :
  pinchState side session was src →
  (if cur then handPinched hd else handOpen hd) →
  ∃ src', _detectGestures hd src = Some (src', tickEvents side session was cur)
          ∧ pinchState side session cur src'.
Proof.
  intros (Hside & Hte & Hsess & Hthr & Hp) Hhd.
  assert (Hshape : (10 <= length (HandData.joints hd))%nat
                   ∧ ∃ d, tipDistance hd = Some d ∧ (d <? 0.05) = cur).
  { destruct cur; destruct Hhd as (Hlen & d & Hd & Hcmp); (split; [exact Hlen|]);
      exists d; (split; [exact Hd|]).
    - by apply Rltb_true.
    - by apply Rltb_false. }
  destruct Hshape as (Hlen & d & Hd & Hcmp).
  unfold _detectGestures, tipDistance in *.
  apply Nat.ltb_ge in Hlen. rewrite Hlen.
  destruct (HandData.joints hd !! 4%nat) as [thumb|]; [|done].
  destruct (HandData.joints hd !! 9%nat) as [index|]; [|done].
  simpl in Hd. injection Hd as <-.
  rewrite Hthr, Hp, Hcmp, Hsess, Hside. unfold tickEvents. simpl.
  destruct cur, was; simpl; eexists; (split; [reflexivity|]);
    unfold pinchState; simpl; split_and!; done.
Qed.

Lemma updateHand_tick (side : Handedness) (session : nat) (was cur : bool)
    (hd : HandData.t) (src : XRInputSource.t) :
  pinchState side session was src →
  (if cur then handPinched hd else handOpen hd) →
  ∃ src', _updateHand (Some hd) src = Some (src', tickEvents side session was cur)
          ∧ pinchState side session cur src'.
Proof.
  intros Hst Hhd.
  assert (Hlen : (10 <= length (HandData.joints hd))%nat)
    by (destruct cur; apply Hhd).
  destruct (HandData.joints hd !! 0%nat) as [wrist|] eqn:Ew;
    [|apply lookup_ge_None in Ew; lia].
  pose proof Hst as (Hside & Hte & Hsess & Hthr & Hp).
  unfold _updateHand. rewrite Hte.
  replace (match XRInputSource.hand src with
           | Some _ => Some src
           | None => Some src
           end) with (Some src) by (by destruct (XRInputSource.hand src)).
  cbn [mbind option_bind]. rewrite Ew.
  set (src2 := XRInputSource.set_spaces _ src).
  assert (H2 : pinchState side session was src2) by done.
  apply (updateGamepad_pinchState _ _ _ hd) in H2.
  destruct H2 as (Hside3 & Hte3 & Hsess3 & Hthr3 & Hp3).
  rewrite Hte3, Hsess3.
  rewrite bool_decide_eq_true_2 by (by eexists). cbn [negb andb].
  apply detectGestures_tick; [|exact Hhd]. done.
Qed.

Lemma updateTicks_app (l1 l2 : list HandData.t) (src : XRInputSource.t) :
  updateTicks (l1 ++ l2) src
  = r1 ← updateTicks l1 src; r2 ← updateTicks l2 r1.1; Some (r2.1, r1.2 ++ r2.2).
Proof.
  revert src. induction l1 as [|hd l1 IH]; intros src; simpl.
  - destruct (updateTicks l2 src) as [[? ?]|]; reflexivity.
  - destruct (_updateHand (Some hd) src) as [[src1 e1]|]; simpl; [|done].
    rewrite IH. destruct (updateTicks l1 src1) as [[src2 e2]|]; simpl; [|done].
    destruct (updateTicks l2 src2) as [[src3 e3]|]; reflexivity.
Qed.

(** Ticks on the side of the threshold where the source already is
    dispatch nothing. *)
Lemma updateTicks_steady (side : Handedness) (session : nat) (cur : bool)
    (ticks : list HandData.t) (src : XRInputSource.t) :
  pinchState side session cur src →
  Forall (λ hd, if cur then handPinched hd else handOpen hd) ticks →
  ∃ src', updateTicks ticks src = Some (src', replicate (length ticks) [])
          ∧ pinchState side session cur src'.
Proof.
  revert src. induction ticks as [|hd ticks IH]; intros src Hst Hall; simpl.
  - by exists src.
  - apply Forall_cons in Hall as [Hhd Hall].
    destruct (updateHand_tick side session cur cur hd src Hst Hhd) as (src1 & E1 & H1).
    rewrite E1. simpl.
    destruct (IH src1 H1 Hall) as (src2 & E2 & H2).
    rewrite E2. simpl. exists src2. split; [|exact H2].
    unfold tickEvents. by destruct cur.
Qed.

Lemma XRInputSource_new_pinchState (side : Handedness) (session : nat) (hd : HandData.t) :
  handOpen hd →
  ∃ src, XRInputSource_new side (Some hd) false (Some session) = Some (src, [])
         ∧ pinchState side session false src.
Proof.
  intros Hhd. unfold XRInputSource_new.
  apply (updateHand_tick side session false false hd); [|exact Hhd].
  done.
Qed.

(** C5. Without hand tracking, an input source is created on a tick where
    the hand is open and then updated tick after tick: with the hand open
    for any number of ticks, then pinched on one tick and held pinched for
    any number of ticks, then released on one tick and open for any
    number of ticks.  Exactly one selectstart is dispatched, on the tick
    of the pinch, and exactly one selectend, on the tick of the release,
    in that order; no other tick dispatches anything. *)
Theorem pinch_fires_selectstart_then_selectend (side : Handedness) (session : nat)
    (first pinch release : HandData.t) (above held after : list HandData.t) :
  handOpen first → Forall handOpen above →
  handPinched pinch → Forall handPinched held →
  handOpen release → Forall handOpen after →
  ∃ src0 src1,
    XRInputSource_new side (Some first) false (Some session) = Some (src0, [])
    ∧ updateTicks (above ++ [pinch] ++ held ++ [release] ++ after) src0
      = Some (src1,
              replicate (length above) []
              ++ [[(session, XRSelectEvent "selectstart" side)]]
              ++ replicate (length held) []
              ++ [[(session, XRSelectEvent "selectend" side)]]
              ++ replicate (length after) [])
    ∧ XRInputSource._isPinching src1 = Some false.
Proof.
  intros Hfirst Habove Hpinch Hheld Hrelease Hafter.
  destruct (XRInputSource_new_pinchState side session first Hfirst) as (src0 & E0 & H0).
  destruct (updateTicks_steady side session false above src0 H0 Habove)
    as (srcA & EA & HA).
  destruct (updateHand_tick side session false true pinch srcA HA Hpinch)
    as (srcP & EP & HP).
  destruct (updateTicks_steady side session true held srcP HP Hheld)
    as (srcH & EH & HH).
  destruct (updateHand_tick side session true false release srcH HH Hrelease)
    as (srcR & ER & HR).
  destruct (updateTicks_steady side session false after srcR HR Hafter)
    as (src1 & E1 & H1).
  exists src0, src1. split; [exact E0|]. split; [|apply H1].
  rewrite updateTicks_app, EA. simpl. rewrite EP. simpl.
  rewrite updateTicks_app, EH. simpl. rewrite ER. simpl. rewrite E1. reflexivity.
Qed.

Lemma openPose_open : handOpen openPose.
Proof.
  split; [simpl; lia|]. eexists. split; [reflexivity|].
  unfold pinchDist. simpl. apply le_sqrt; lra.
Qed.

Lemma pinchPose_pinched : handPinched pinchPose.
Proof.
  split; [simpl; lia|]. eexists. split; [reflexivity|].
  unfold pinchDist. simpl. apply sqrt_lt; lra.
Qed.

Lemma pinch_fires_selectstart_then_selectend_witness :
  handOpen openPose ∧ handPinched pinchPose
  ∧ ∃ src0 src1,
      XRInputSource_new left_hand (Some openPose) false (Some 0%nat) = Some (src0, [])
      ∧ updateTicks [openPose; pinchPose; pinchPose; pinchPose; openPose; openPose] src0
        = Some (src1,
                [ [];
                  [(0%nat, XRSelectEvent "selectstart" left_hand)];
                  []; [];
                  [(0%nat, XRSelectEvent "selectend" left_hand)];
                  [] ])
      ∧ XRInputSource._isPinching src1 = Some false.
Proof.
  split; [exact openPose_open|]. split; [exact pinchPose_pinched|].
  exact (pinch_fires_selectstart_then_selectend left_hand 0 openPose pinchPose openPose
           [openPose] [pinchPose; pinchPose] [openPose]
           openPose_open
           (Forall_cons_2 _ _ _ openPose_open (Forall_nil_2 _))
           pinchPose_pinched
           (Forall_cons_2 _ _ _ pinchPose_pinched
              (Forall_cons_2 _ _ _ pinchPose_pinched (Forall_nil_2 _)))
           openPose_open
           (Forall_cons_2 _ _ _ openPose_open (Forall_nil_2 _))).
Defined.

(** The same stream of ticks through [XRInputSourceArray._update], which is
    what the frame loop calls: the tick on which the hand appears
    dispatches the change of input sources, and the ticks after it are
    those of the input source. *)

Lemma update_tick (session : nat) (was cur : bool) (hd : HandData.t)
    (arr : XRInputSourceArray.t) :
  leftTracked session was arr →
  HandData.visible hd = true →
  (if cur then handPinched hd else handOpen hd) →
  ∃ arr', XRInputSourceArray_update (Some hd) None arr
          = Some (arr', tickEvents left_hand session was cur)
          ∧ leftTracked session cur arr'.
Proof.
  intros (Hte & Hsess & Hla & Hra & Hr & src & Hl & Hst) Hvis Hhd.
  destruct (updateHand_tick left_hand session was cur hd src Hst Hhd) as (src' & E & Hst').
  unfold XRInputSourceArray_update, updateSide.
  rewrite Hte, Hsess, Hla, Hra, Hr, Hl, Hvis. cbn [negb andb]. rewrite E.
  cbn. rewrite app_nil_r. eexists. split; [reflexivity|].
  unfold leftTracked. cbn. split_and!; try done. by exists src'.
Qed.

Lemma updateLeftTicks_app (l1 l2 : list HandData.t) (arr : XRInputSourceArray.t) :
  updateLeftTicks (l1 ++ l2) arr
  = r1 ← updateLeftTicks l1 arr; r2 ← updateLeftTicks l2 r1.1; Some (r2.1, r1.2 ++ r2.2).
Proof.
  revert arr. induction l1 as [|hd l1 IH]; intros arr; simpl.
  - destruct (updateLeftTicks l2 arr) as [[? ?]|]; reflexivity.
  - destruct (XRInputSourceArray_update (Some hd) None arr) as [[arr1 e1]|]; simpl; [|done].
    rewrite IH. destruct (updateLeftTicks l1 arr1) as [[arr2 e2]|]; simpl; [|done].
    destruct (updateLeftTicks l2 arr2) as [[arr3 e3]|]; reflexivity.
Qed.

Lemma updateLeftTicks_steady (session : nat) (cur : bool)
    (ticks : list HandData.t) (arr : XRInputSourceArray.t) :
  leftTracked session cur arr →
  Forall (λ hd, HandData.visible hd = true) ticks →
  Forall (λ hd, if cur then handPinched hd else handOpen hd) ticks →
  ∃ arr', updateLeftTicks ticks arr = Some (arr', replicate (length ticks) [])
          ∧ leftTracked session cur arr'.
Proof.
  revert arr. induction ticks as [|hd ticks IH]; intros arr Hst Hvis Hall; simpl.
  - by exists arr.
  - apply Forall_cons in Hall as [Hhd Hall]. apply Forall_cons in Hvis as [Hv Hvis].
    destruct (update_tick session cur cur hd arr Hst Hv Hhd) as (arr1 & E1 & H1).
    rewrite E1. simpl.
    destruct (IH arr1 H1 Hvis Hall) as (arr2 & E2 & H2).
    rewrite E2. simpl. exists arr2. split; [|exact H2].
    unfold tickEvents. by destruct cur.
Qed.

Lemma hand_appears (session : nat) (hd : HandData.t) (arr : XRInputSourceArray.t) :
  XRInputSourceArray._handTrackingEnabled arr = false →
  XRInputSourceArray._session arr = Some session →
  XRInputSourceArray._leftHand arr = None →
  XRInputSourceArray._leftHandActive arr = false →
  XRInputSourceArray._rightHand arr = None →
  XRInputSourceArray._rightHandActive arr = false →
  HandData.visible hd = true →
  handOpen hd →
  ∃ arr', XRInputSourceArray_update (Some hd) None arr
          = Some (arr', [(session,
                          XRInputSourcesChangeEvent "inputsourceschange" [left_hand] [])])
          ∧ leftTracked session false arr'.
Proof.
  intros Hte Hsess Hl Hla Hr Hra Hvis Hhd.
  destruct (XRInputSource_new_pinchState left_hand session hd Hhd) as (src & E & Hst).
  unfold XRInputSourceArray_update, updateSide.
  rewrite Hte, Hsess, Hla, Hra, Hr, Hl, Hvis. cbn [negb andb]. rewrite E.
  cbn. eexists. split; [reflexivity|].
  unfold leftTracked. cbn. split_and!; try done. by exists src.
Qed.

Lemma pinch_through_input_source_array (session : nat) (arr : XRInputSourceArray.t)
    (first pinch release : HandData.t) (above held after : list HandData.t) :
  XRInputSourceArray._handTrackingEnabled arr = false →
  XRInputSourceArray._session arr = Some session →
  XRInputSourceArray._leftHand arr = None →
  XRInputSourceArray._leftHandActive arr = false →
  XRInputSourceArray._rightHand arr = None →
  XRInputSourceArray._rightHandActive arr = false →
  Forall (λ hd, HandData.visible hd = true)
         (first :: above ++ [pinch] ++ held ++ [release] ++ after) →
  handOpen first → Forall handOpen above →
  handPinched pinch → Forall handPinched held →
  handOpen release → Forall handOpen after →
  ∃ arr1,
    updateLeftTicks (first :: above ++ [pinch] ++ held ++ [release] ++ after) arr
    = Some (arr1,
            [[(session, XRInputSourcesChangeEvent "inputsourceschange" [left_hand] [])]]
            ++ replicate (length above) []
            ++ [[(session, XRSelectEvent "selectstart" left_hand)]]
            ++ replicate (length held) []
            ++ [[(session, XRSelectEvent "selectend" left_hand)]]
            ++ replicate (length after) []).
Proof.
  intros Hte Hsess Hl Hla Hr Hra Hvis Hfirst Habove Hpinch Hheld Hrelease Hafter.
  apply Forall_cons in Hvis as [Hv0 Hvis].
  apply Forall_app in Hvis as [HvA Hvis].
  apply Forall_cons in Hvis as [HvP Hvis].
  apply Forall_app in Hvis as [HvH Hvis].
  apply Forall_cons in Hvis as [HvR HvF].
  destruct (hand_appears session first arr Hte Hsess Hl Hla Hr Hra Hv0 Hfirst)
    as (arr0 & E0 & H0).
  destruct (updateLeftTicks_steady session false above arr0 H0 HvA Habove)
    as (arrA & EA & HA).
  destruct (update_tick session false true pinch arrA HA HvP Hpinch) as (arrP & EP & HP).
  destruct (updateLeftTicks_steady session true held arrP HP HvH Hheld)
    as (arrH & EH & HH).
  destruct (update_tick session true false release arrH HH HvR Hrelease)
    as (arrR & ER & HR).
  destruct (updateLeftTicks_steady session false after arrR HR HvF Hafter)
    as (arr1 & E1 & H1).
  exists arr1. cbn [updateLeftTicks]. rewrite E0. simpl.
  rewrite updateLeftTicks_app, EA. simpl. rewrite EP. simpl.
  rewrite updateLeftTicks_app, EH. simpl. rewrite ER. simpl. rewrite E1. reflexivity.
Qed.

(** ** The frame loop of an ended session *)

Lemma ended_loop_returns (id this : nat) (session : XRSession.t)
    (camera : option (FaceResult * option (list HandResult.t))) (w : World.t) :
  World.animationFrames w !! id = Some this →
  World.sessions w !! this = Some session →
  XRSession._ended session = true →
  loop_enter id camera w = Some (LoopReturned (window_cancelAnimationFrame id w)).
Proof.
  intros Hf Hs He. unfold loop_enter. rewrite Hf. simpl. rewrite Hs. simpl.
  by rewrite He.
Qed.

(** The input sources of a session requested without the 'hand-tracking'
    feature start as [pinch_through_input_source_array] takes them. *)
Lemma new_session_input_sources (mode : string) (options : XRSessionInit.t) (w : World.t) :
  includes "hand-tracking" (default [] (XRSessionInit.requiredFeatures options))
  || includes "hand-tracking" (default [] (XRSessionInit.optionalFeatures options)) = false →
  ∃ session,
    World.sessions (XRSession_new mode options w).2 !! (XRSession_new mode options w).1
    = Some session
    ∧ XRInputSourceArray._handTrackingEnabled (XRSession.inputSources session) = false
    ∧ XRInputSourceArray._session (XRSession.inputSources session)
      = Some (XRSession_new mode options w).1
    ∧ XRInputSourceArray._leftHand (XRSession.inputSources session) = None
    ∧ XRInputSourceArray._leftHandActive (XRSession.inputSources session) = false
    ∧ XRInputSourceArray._rightHand (XRSession.inputSources session) = None
    ∧ XRInputSourceArray._rightHandActive (XRSession.inputSources session) = false.
Proof.
  intros H. unfold XRSession_new, window_requestAnimationFrame. simpl.
  eexists. rewrite lookup_insert_eq. split; [reflexivity|]. simpl.
  split_and!; done.
Qed.

(** * Further properties *)

(** ** The matrix of a transform *)

(** X1. The matrix of a rigid transform with a unit orientation is a
    rigid motion: 16 entries, last row (0, 0, 0, 1), the position in the
    translation column, and a rotation block whose columns are
    orthonormal, with determinant 1. *)
Theorem matrix_of_unit_orientation_is_rigid (t : XRRigidTransform) :
  unitQuat (orientation t) →
  let m := matrix t in
  length m = 16%nat
  ∧ (at_ m 3 0 = 0 ∧ at_ m 3 1 = 0 ∧ at_ m 3 2 = 0 ∧ at_ m 3 3 = 1)
  ∧ column m 3
    = Vec3.mk (Vec4.x (position t)) (Vec4.y (position t)) (Vec4.z (position t))
  ∧ (dot (column m 0) (column m 0) = 1
     ∧ dot (column m 1) (column m 1) = 1
     ∧ dot (column m 2) (column m 2) = 1)
  ∧ (dot (column m 0) (column m 1) = 0
     ∧ dot (column m 0) (column m 2) = 0
     ∧ dot (column m 1) (column m 2) = 0)
  ∧ det3 m = 1.
Proof.
  destruct t as [p [x y z w]]. unfold unitQuat, quatNorm2. cbn. intros Hu.
  unfold det3, dot, cross, column, at_, entry. cbn.
  split_and!; try reflexivity; nsatz.
Qed.

Lemma matrix_of_unit_orientation_is_rigid_witness :
  let t := {| position := DOMPointReadOnly 1 2 3 1;
              orientation := DOMPointReadOnly 0.6 0 0.8 0 |} in
  unitQuat (orientation t)
  ∧ det3 (matrix t) = 1.
Proof.
  assert (H : unitQuat (DOMPointReadOnly 0.6 0 0.8 0))
    by (unfold unitQuat, quatNorm2; cbn; lra).
  split; [exact H|].
  apply (matrix_of_unit_orientation_is_rigid
           {| position := DOMPointReadOnly 1 2 3 1;
              orientation := DOMPointReadOnly 0.6 0 0.8 0 |} H).
Defined.

(** ** The inverse of a transform *)

(** X2. The orientation of [inverse] is the conjugate, so the rotation
    block of its matrix is the transpose of the rotation block of the
    matrix of the transform.  For a transform that does not rotate
    (orientation (0, 0, 0, 1)) the position of [inverse] is the opposite
    position, and the two matrices undo each other on every point, in
    both orders. *)
Theorem inverse_transposes_and_undoes_translation (t : XRRigidTransform) :
  orientation (inverse t)
  = DOMPointReadOnly (- Vec4.x (orientation t)) (- Vec4.y (orientation t))
                     (- Vec4.z (orientation t)) (Vec4.w (orientation t))
  ∧ Forall (λ ij, at_ (matrix (inverse t)) ij.1 ij.2 = at_ (matrix t) ij.2 ij.1)
           [ (0, 0); (0, 1); (0, 2); (1, 0); (1, 1); (1, 2); (2, 0); (2, 1); (2, 2) ]%nat
  ∧ (orientation t = DOMPointReadOnly 0 0 0 1 →
     position (inverse t)
     = DOMPointReadOnly (- Vec4.x (position t)) (- Vec4.y (position t))
                        (- Vec4.z (position t)) 1
     ∧ ∀ v, applyMatrix (matrix (inverse t)) (applyMatrix (matrix t) v) = v
            ∧ applyMatrix (matrix t) (applyMatrix (matrix (inverse t)) v) = v).
Proof.
  destruct t as [[px py pz pw] [x y z w]]. split_and!.
  - reflexivity.
  - repeat (apply Forall_cons; split; [unfold at_, entry; cbn; ring|]). constructor.
  - cbn. intros [= -> -> -> ->]. split.
    + unfold inverse, XRRigidTransform_new. cbn. apply Vec4_eq; ring.
    + intros [vx vy vz]. unfold applyMatrix, at_, entry. cbn.
      split; apply Vec3_eq; ring.
Qed.

Lemma inverse_transposes_and_undoes_translation_witness :
  let t := {| position := DOMPointReadOnly 1 2 3 1;
              orientation := DOMPointReadOnly 0 0 0 1 |} in
  orientation t = DOMPointReadOnly 0 0 0 1
  ∧ position (inverse t) = DOMPointReadOnly (- 1) (- 2) (- 3) 1.
Proof.
  split; [reflexivity|].
  exact (proj1 (proj2 (proj2 (inverse_transposes_and_undoes_translation
                                {| position := DOMPointReadOnly 1 2 3 1;
                                   orientation := DOMPointReadOnly 0 0 0 1 |}))
                      eq_refl)).
Defined.

(** With a rotation the position of [inverse] is not the one that undoes
    the transform: for the half turn about the third axis placed at
    (1, 0, 0), the transform followed by its [inverse] sends the origin to
    (-2, 0, 0). *)
Lemma inverse_of_half_turn :
  let t := {| position := DOMPointReadOnly 1 0 0 1;
              orientation := DOMPointReadOnly 0 0 1 0 |} in
  unitQuat (orientation t)
  ∧ position (inverse t) = DOMPointReadOnly (- 1) 0 0 1
  ∧ applyMatrix (matrix (inverse t)) (applyMatrix (matrix t) (Vec3.mk 0 0 0))
    = Vec3.mk (- 2) 0 0.
Proof.
  split_and!.
  - unfold unitQuat, quatNorm2. cbn. lra.
  - unfold inverse, XRRigidTransform_new. cbn. apply Vec4_eq; ring.
  - unfold applyMatrix, at_, entry. cbn. apply Vec3_eq; ring.
Qed.

(** ** Joint orientation *)

(** The quaternion of a right-handed orthonormal frame (right, up, back)
    with up = back x right is a unit quaternion. *)
Lemma frame_quaternion_unit (r1 r2 r3 f1 f2 f3 : R) :
  r1 * r1 + r2 * r2 + r3 * r3 = 1 →
  f1 * f1 + f2 * f2 + f3 * f3 = 1 →
  r1 * f1 + r2 * f2 + r3 * f3 = 0 →
  unitQuat
    (quaternionFromRotationMatrix
       r1 (r2 * f3 - r3 * f2) (- f1)
       r2 (r3 * f1 - r1 * f3) (- f2)
       r3 (r1 * f2 - r2 * f1) (- f3)).
Proof.
  intros Hr Hf Hrf.
  set (m12 := r2 * f3 - r3 * f2). set (m22 := r3 * f1 - r1 * f3).
  set (m32 := r1 * f2 - r2 * f1).
  set (m13 := - f1). set (m23 := - f2). set (m33 := - f3).
  set (m11 := r1). set (m21 := r2). set (m31 := r3).
  assert (H1 : (m32 - m23) * (m32 - m23) + (m13 - m31) * (m13 - m31)
               + (m21 - m12) * (m21 - m12)
               = (m11 + m22 + m33 + 1) * (4 - (m11 + m22 + m33 + 1)))
    by (subst m11 m12 m13 m21 m22 m23 m31 m32 m33; nsatz).
  assert (H2 : (m32 - m23) * (m32 - m23) + (m12 + m21) * (m12 + m21)
               + (m13 + m31) * (m13 + m31)
               = (1 + m11 - m22 - m33) * (4 - (1 + m11 - m22 - m33)))
    by (subst m11 m12 m13 m21 m22 m23 m31 m32 m33; nsatz).
  assert (H3 : (m13 - m31) * (m13 - m31) + (m12 + m21) * (m12 + m21)
               + (m23 + m32) * (m23 + m32)
               = (1 + m22 - m11 - m33) * (4 - (1 + m22 - m11 - m33)))
    by (subst m11 m12 m13 m21 m22 m23 m31 m32 m33; nsatz).
  assert (H4 : (m21 - m12) * (m21 - m12) + (m13 + m31) * (m13 + m31)
               + (m23 + m32) * (m23 + m32)
               = (1 + m33 - m11 - m22) * (4 - (1 + m33 - m11 - m22)))
    by (subst m11 m12 m13 m21 m22 m23 m31 m32 m33; nsatz).
  clearbody m11 m12 m13 m21 m22 m23 m31 m32 m33. clear Hr Hf Hrf.
  unfold unitQuat, quatNorm2, quaternionFromRotationMatrix.
  repeat match goal with
  | |- context [?a >? ?b] =>
      let H := fresh "Hc" in
      destruct (a >? b) eqn:H; [apply Rgtb_true in H | apply Rgtb_false in H]
  end; cbn [Vec4.x Vec4.y Vec4.z Vec4.w andb].
  all: decimals; replace (10 * / 10) with 1 in * by field.
  all: match goal with
       | |- context [sqrt ?a] =>
           assert (Ha : 1 <= a) by lra;
           assert (HS : sqrt a * sqrt a = a) by (apply sqrt_sqrt; lra);
           assert (HS1 : 1 <= sqrt a) by (apply sqrt_ge_1; exact Ha);
           generalize dependent (sqrt a); intros S HS HS1
       end.
  all: field_simplify_eq; [|lra].
  all: nra.
Qed.

Lemma normalised_unit (a b c : R) :
  0 < sqrt (a * a + b * b + c * c) →
  let len := sqrt (a * a + b * b + c * c) in
  a / len * (a / len) + b / len * (b / len) + c / len * (c / len) = 1.
Proof.
  intros Hpos len. subst len.
  set (n := a * a + b * b + c * c) in *.
  assert (0 <= n).
  { unfold n. pose proof (Rle_0_sqr a). pose proof (Rle_0_sqr b).
    pose proof (Rle_0_sqr c). unfold Rsqr in *. lra. }
  assert (Hs : sqrt n * sqrt n = n) by (apply sqrt_sqrt; assumption).
  replace (a / sqrt n * (a / sqrt n) + b / sqrt n * (b / sqrt n)
           + c / sqrt n * (c / sqrt n))
    with (n / (sqrt n * sqrt n)) by (unfold n at 1; field; lra).
  rewrite Hs. field. nra.
Qed.

(** X3. When a joint and the next joint of its chain are both present,
    are at least 0.1 mm apart, and the bone between them is not vertical
    (its horizontal extent is at least one ten-thousandth of its length),
    the orientation computed for the joint is a unit quaternion, whatever
    the palm normal and the hand. *)
Theorem joint_orientation_unit (joints : list Joint.t) (jointIndex nextIndex : nat)
    (current next : Joint.t) (palmNormal : Vec3.t) (handedness : Handedness) :
  JOINT_CHAIN_NEXT jointIndex = Some nextIndex →
  jointIndex ≠ nextIndex →
  joints !! jointIndex = Some current →
  joints !! nextIndex = Some next →
  let d := boneVector current next in
  0.0001 * 0.0001 <= dot d d →
  0.0001 * 0.0001 * dot d d <= Vec3.x d * Vec3.x d + Vec3.z d * Vec3.z d →
  unitQuat (computeJointOrientation joints jointIndex palmNormal handedness).
Proof.
  intros Hchain Hne Hcur Hnext d Hlen Hhor.
  unfold computeJointOrientation. rewrite Hcur, Hchain. cbn [mbind option_bind].
  rewrite Hnext. rewrite bool_decide_eq_false_2 by congruence.
  unfold boneVector, dot in *. subst d. cbn [Vec3.x Vec3.y Vec3.z] in *.
  set (dx := Vec3.x (Joint.position next) - Vec3.x (Joint.position current)) in *.
  set (dy := Vec3.y (Joint.position next) - Vec3.y (Joint.position current)) in *.
  set (dz := Vec3.z (Joint.position next) - Vec3.z (Joint.position current)) in *.
  assert (HL : 0.0001 <= sqrt (dx * dx + dy * dy + dz * dz)) by (apply le_sqrt; lra).
  assert (HLL : sqrt (dx * dx + dy * dy + dz * dz) * sqrt (dx * dx + dy * dy + dz * dz)
                = dx * dx + dy * dy + dz * dz) by (apply sqrt_sqrt; nra).
  pose proof (normalised_unit dx dy dz ltac:(lra)) as Hf. cbv zeta in Hf.
  set (L := sqrt (dx * dx + dy * dy + dz * dz)) in *.
  apply Rltb_false in HL as HLb. rewrite HLb.
  assert (Hx : dx = dx / L * L) by (field; lra).
  assert (Hz : dz = dz / L * L) by (field; lra).
  set (fx := dx / L) in *. set (fy := dy / L) in *. set (fz := dz / L) in *.
  assert (Hhor' : 0.0001 * 0.0001 <= fx * fx + fz * fz).
  { rewrite <- HLL in Hhor. rewrite Hx, Hz in Hhor. nra. }
  clearbody fx fy fz. clear Hx Hz Hhor Hlen HLL HL HLb.
  match goal with
  | |- context [if (_ <=? _)%nat && _ then ?a else ?b] =>
      set (upRef := if (1 <=? jointIndex)%nat && (jointIndex <=? 4)%nat then a else b)
  end.
  clearbody upRef. destruct upRef as [ux uy uz]. cbn [Vec3.x Vec3.y Vec3.z].
  assert (Hworld : 0.0001 <= sqrt ((fy * 0 - fz * 1) * (fy * 0 - fz * 1)
                                    + (fz * 0 - fx * 0) * (fz * 0 - fx * 0)
                                    + (fx * 1 - fy * 0) * (fx * 1 - fy * 0)))
    by (apply le_sqrt; nra).
  destruct (sqrt _ <? 0.0001) eqn:E1.
  - apply Rltb_false in Hworld as Hwb. rewrite Hwb.
    apply frame_quaternion_unit; [|exact Hf|].
    + apply (normalised_unit (fy * 0 - fz * 1) (fz * 0 - fx * 0) (fx * 1 - fy * 0)). lra.
    + field. lra.
  - apply Rltb_false in E1.
    apply frame_quaternion_unit; [|exact Hf|].
    + apply (normalised_unit (fy * uz - fz * uy) (fz * ux - fx * uz) (fx * uy - fy * ux)).
      lra.
    + field. lra.
Qed.

Lemma joint_orientation_unit_witness :
  let joints := HandData.joints openPose in
  JOINT_CHAIN_NEXT 8 = Some 9%nat
  ∧ joints !! 8%nat = Some {| Joint.position := Vec3.mk 0 1.5 (-1); Joint.radius := 0.01 |}
  ∧ joints !! 9%nat = Some {| Joint.position := Vec3.mk 0.1 1.5 (-1); Joint.radius := 0.01 |}
  ∧ unitQuat (computeJointOrientation joints 8 (Vec3.mk 0 1 0) right_hand).
Proof.
  split; [reflexivity|]. split; [reflexivity|]. split; [reflexivity|].
  apply (joint_orientation_unit (HandData.joints openPose) 8 9
           {| Joint.position := Vec3.mk 0 1.5 (-1); Joint.radius := 0.01 |}
           {| Joint.position := Vec3.mk 0.1 1.5 (-1); Joint.radius := 0.01 |}
           (Vec3.mk 0 1 0) right_hand eq_refl ltac:(lia) eq_refl eq_refl).
  - unfold boneVector, dot. cbn. lra.
  - unfold boneVector, dot. cbn. lra.
Defined.

(** X4. The joints that get the identity orientation: the five tips, a
    joint that is missing or has no entry in the chain table, a joint
    whose successor is missing, and a joint less than 0.1 mm from its
    successor. *)
Theorem joint_orientation_identity_cases (joints : list Joint.t)
    (palmNormal : Vec3.t) (handedness : Handedness) :
  Forall (λ i, computeJointOrientation joints i palmNormal handedness
               = identityOrientation) tipJoints
  ∧ (∀ i, joints !! i = None →
          computeJointOrientation joints i palmNormal handedness = identityOrientation)
  ∧ (∀ i, (25 <= i)%nat →
          computeJointOrientation joints i palmNormal handedness = identityOrientation)
  ∧ (∀ i n, JOINT_CHAIN_NEXT i = Some n → joints !! n = None →
            computeJointOrientation joints i palmNormal handedness = identityOrientation)
  ∧ (∀ i n current next,
       JOINT_CHAIN_NEXT i = Some n → joints !! i = Some current → joints !! n = Some next →
       dot (boneVector current next) (boneVector current next) < 0.0001 * 0.0001 →
       computeJointOrientation joints i palmNormal handedness = identityOrientation).
Proof.
  split_and!.
  - unfold tipJoints.
    repeat (apply Forall_cons; split;
            [unfold computeJointOrientation; cbn [JOINT_CHAIN_NEXT mbind option_bind];
             destruct (joints !! _); reflexivity|]).
    constructor.
  - intros i Hi. unfold computeJointOrientation. by rewrite Hi.
  - intros i Hi. unfold computeJointOrientation.
    assert (Hc : JOINT_CHAIN_NEXT i = None).
    { do 25 (destruct i as [|i]; [lia|]). reflexivity. }
    rewrite Hc. cbn [mbind option_bind]. by destruct (joints !! i).
  - intros i n Hc Hn. unfold computeJointOrientation. rewrite Hc.
    cbn [mbind option_bind]. rewrite Hn. by destruct (joints !! i).
  - intros i n current next Hc Hi Hn Hd. unfold computeJointOrientation.
    rewrite Hc, Hi. cbn [mbind option_bind]. rewrite Hn.
    destruct (bool_decide _); [reflexivity|].
    unfold boneVector, dot in Hd. cbn [Vec3.x Vec3.y Vec3.z] in Hd.
    assert (Hs : sqrt ((Vec3.x (Joint.position next) - Vec3.x (Joint.position current))
                       * (Vec3.x (Joint.position next) - Vec3.x (Joint.position current))
                       + (Vec3.y (Joint.position next) - Vec3.y (Joint.position current))
                         * (Vec3.y (Joint.position next) - Vec3.y (Joint.position current))
                       + (Vec3.z (Joint.position next) - Vec3.z (Joint.position current))
                         * (Vec3.z (Joint.position next) - Vec3.z (Joint.position current)))
                 < 0.0001) by (apply sqrt_lt; lra).
    apply Rltb_true in Hs. by rewrite Hs.
Qed.

(** ** Views and viewports *)

(** X5. Without stereo the viewer pose has exactly one view, for the eye
    'none', at the position of the pose; with stereo it has exactly two,
    'left' then 'right', placed 0.032 to either side of the pose along the
    first axis and otherwise at its position, 0.064 apart.  Every view has
    the orientation of the pose. *)
Theorem viewer_pose_views (head : HeadState) (referenceSpace : XRReferenceSpace.t) :
  let mono := getViewerPose head false referenceSpace in
  let stereo := getViewerPose head true referenceSpace in
  let p := position (XRViewerPose.transform mono) in
  XRViewerPose.transform stereo = XRViewerPose.transform mono
  ∧ (∃ v, XRViewerPose.views mono = [v]
          ∧ XRView.eye v = eye_none
          ∧ XRView.transform v = XRViewerPose.transform mono)
  ∧ (∃ l r, XRViewerPose.views stereo = [l; r]
            ∧ XRView.eye l = eye_left ∧ XRView.eye r = eye_right
            ∧ position (XRView.transform l)
              = DOMPointReadOnly (Vec4.x p - 0.032) (Vec4.y p) (Vec4.z p) 1
            ∧ position (XRView.transform r)
              = DOMPointReadOnly (Vec4.x p + 0.032) (Vec4.y p) (Vec4.z p) 1
            ∧ Vec4.x (position (XRView.transform r)) - Vec4.x (position (XRView.transform l))
              = 0.064
            ∧ orientation (XRView.transform l) = orientation (XRViewerPose.transform mono)
            ∧ orientation (XRView.transform r) = orientation (XRViewerPose.transform mono)
            ∧ XRView.projectionMatrix l = XRView.projectionMatrix r).
Proof.
  intros mono stereo p. subst mono stereo p.
  unfold getViewerPose, XRViewerPose_new.
  destruct (XRReferenceSpace._originOffset referenceSpace) as [offset|]; cbn.
  all: split; [reflexivity|]; split.
  1,3: eexists; split_and!; try reflexivity;
       unfold XRView_new, XRRigidTransform_new, DOMPointReadOnly; cbn;
       f_equal; apply Vec4_eq; lra.
  all: do 2 eexists; split_and!; try reflexivity.
  all: unfold XRView_new, XRRigidTransform_new, DOMPointReadOnly;
       cbn; try (apply Vec4_eq); lra.
Qed.

(** X6. A layer built by the constructor never has a zero width or
    height: a canvas dimension that is missing or 0 is replaced by 1920
    or 1080.  The viewport of the one view of a mono viewer pose is the
    whole framebuffer; the viewports of the two views of a stereo viewer
    pose are its left and right halves: they start at 0 and at half the
    width, are each half the width and the whole height. *)
Theorem viewports_tile_the_framebuffer (canvasWidth canvasHeight : option R)
    (antialias ignoreDepthValues : option bool)
    (head : HeadState) (referenceSpace : XRReferenceSpace.t) :
  let layer := XRWebGLLayer_new canvasWidth canvasHeight antialias ignoreDepthValues in
  let W := XRWebGLLayer._framebufferWidth layer in
  let H := XRWebGLLayer._framebufferHeight layer in
  (W ≠ 0 ∧ H ≠ 0)
  ∧ (canvasWidth = None → W = 1920) ∧ (canvasHeight = None → H = 1080)
  ∧ (canvasWidth = Some 0 → W = 1920) ∧ (canvasHeight = Some 0 → H = 1080)
  ∧ (∀ w, canvasWidth = Some w → w ≠ 0 → W = w)
  ∧ (∀ h, canvasHeight = Some h → h ≠ 0 → H = h)
  ∧ getViewport layer <$> XRViewerPose.views (getViewerPose head false referenceSpace)
    = [ {| Viewport.x := 0; Viewport.y := 0; Viewport.width := W; Viewport.height := H |} ]
  ∧ getViewport layer <$> XRViewerPose.views (getViewerPose head true referenceSpace)
    = [ {| Viewport.x := 0; Viewport.y := 0;
           Viewport.width := W / 2; Viewport.height := H |};
        {| Viewport.x := W / 2; Viewport.y := 0;
           Viewport.width := W / 2; Viewport.height := H |} ].
Proof.
  intros layer W H. subst layer W H. unfold XRWebGLLayer_new, orNumber, Reqb. cbn.
  split_and!.
  - destruct canvasWidth as [w|]; [destruct (Req_dec_T w 0)|]; lra.
  - destruct canvasHeight as [h|]; [destruct (Req_dec_T h 0)|]; lra.
  - by intros ->.
  - by intros ->.
  - intros ->. by destruct (Req_dec_T 0 0).
  - intros ->. by destruct (Req_dec_T 0 0).
  - intros w -> Hw. by destruct (Req_dec_T w 0).
  - intros h -> Hh. by destruct (Req_dec_T h 0).
  - unfold getViewerPose, XRViewerPose_new.
    destruct (XRReferenceSpace._originOffset referenceSpace); reflexivity.
  - unfold getViewerPose, XRViewerPose_new.
    destruct (XRReferenceSpace._originOffset referenceSpace); reflexivity.
Qed.

(** ** The trigger of the gamepad *)

Lemma pinchDist_nonneg (a b : Vec3.t) : 0 <= pinchDist a b.
Proof. apply sqrt_pos. Qed.

(** X7. [_updateGamepad] on an input source whose pinch threshold is 0.05
    (or absent, which reads as 0.05) and whose gamepad has its buttons: a
    skeleton of fewer than 10 joints changes nothing; otherwise the
    buttons after the first and the axes are as they were, and for the
    distance d between the tips of the thumb and of the index finger the
    value of the first button is 1 - d / 0.05 cut to [0, 1], it is pressed
    exactly when d < 0.05 and touched exactly when d < 0.1, so that
    pressed implies touched and a positive value, and a button that is
    not pressed has the value 0. *)
Theorem trigger_follows_pinch_distance (hd : HandData.t) (src : XRInputSource.t)
    (b0 : GamepadButton.t) (rest : list GamepadButton.t) :
  XRInputSource._pinchThreshold src = None ∨ XRInputSource._pinchThreshold src = Some 0.05 →
  Gamepad.buttons (XRInputSource.gamepad src) = b0 :: rest →
  ((length (HandData.joints hd) < 10)%nat → _updateGamepad hd src = src)
  ∧ ((10 <= length (HandData.joints hd))%nat →
     ∃ d trigger,
       tipDistance hd = Some d
       ∧ 0 <= d
       ∧ Gamepad.buttons (XRInputSource.gamepad (_updateGamepad hd src)) = trigger :: rest
       ∧ Gamepad.axes (XRInputSource.gamepad (_updateGamepad hd src))
         = Gamepad.axes (XRInputSource.gamepad src)
       ∧ 0 <= GamepadButton.value trigger <= 1
       ∧ (GamepadButton.pressed trigger = true ↔ d < 0.05)
       ∧ (GamepadButton.touched trigger = true ↔ d < 0.1)
       ∧ (GamepadButton.pressed trigger = true →
          GamepadButton.touched trigger = true
          ∧ GamepadButton.value trigger = 1 - d / 0.05
          ∧ 0 < GamepadButton.value trigger)
       ∧ (GamepadButton.pressed trigger = false → GamepadButton.value trigger = 0)).
Proof.
  intros Hthr Hb. split.
  - intros Hlen. unfold _updateGamepad.
    apply Nat.ltb_lt in Hlen. by rewrite Hlen.
  - intros Hlen.
    destruct (HandData.joints hd !! 4%nat) as [thumb|] eqn:E4;
      [|apply lookup_ge_None in E4; lia].
    destruct (HandData.joints hd !! 9%nat) as [index|] eqn:E9;
      [|apply lookup_ge_None in E9; lia].
    set (d := pinchDist (Joint.position thumb) (Joint.position index)).
    assert (Hd : 0 <= d) by apply pinchDist_nonneg.
    assert (Ht : match XRInputSource._pinchThreshold src with
                 | Some t => if Reqb t 0 then 0.05 else t
                 | None => 0.05
                 end = 0.05).
    { destruct Hthr as [-> | ->]; [reflexivity|].
      unfold Reqb. destruct (Req_dec_T 0.05 0); [lra | reflexivity]. }
    exists d, {| GamepadButton.pressed := d <? 0.05;
                 GamepadButton.touched := d <? 0.05 * 2;
                 GamepadButton.value := Rmin 1 (Rmax 0 (1 - d / 0.05)) |}.
    split_and!.
    + unfold tipDistance. rewrite E4, E9. reflexivity.
    + exact Hd.
    + unfold _updateGamepad. apply Nat.ltb_ge in Hlen. rewrite Hlen, E4, E9, Ht, Hb.
      reflexivity.
    + unfold _updateGamepad. apply Nat.ltb_ge in Hlen. rewrite Hlen, E4, E9.
      reflexivity.
    + cbn [GamepadButton.value]. unfold Rmin, Rmax.
      repeat destruct (Rle_dec _ _); lra.
    + cbn [GamepadButton.value]. unfold Rmin, Rmax.
      repeat destruct (Rle_dec _ _); lra.
    + cbn [GamepadButton.pressed]. apply Rltb_true.
    + cbn [GamepadButton.touched]. rewrite Rltb_true. split; lra.
    + cbn [GamepadButton.pressed GamepadButton.touched GamepadButton.value].
      rewrite !Rltb_true. intros Hp.
      assert (0 < 1 - d / 0.05 <= 1).
      { split.
        - apply Rlt_0_minus. apply (Rmult_lt_reg_r 0.05); [lra|].
          replace (d / 0.05 * 0.05) with d by (decimals; field). lra.
        - assert (0 <= d / 0.05) 
            by (unfold Rdiv; apply Rmult_le_pos; [lra | left; apply Rinv_0_lt_compat; lra]).
          lra. }
      split; [lra|]. unfold Rmin, Rmax.
      repeat destruct (Rle_dec _ _); lra.
    + cbn [GamepadButton.pressed GamepadButton.value]. rewrite Rltb_false. intros Hp.
      assert (1 - d / 0.05 <= 0).
      { apply Rle_minus. apply (Rmult_le_reg_r 0.05); [lra|].
        replace (d / 0.05 * 0.05) with d by (decimals; field). lra. }
      unfold Rmin, Rmax.
      repeat destruct (Rle_dec _ _); lra.
Qed.

Lemma trigger_follows_pinch_distance_witness :
  (XRInputSource._pinchThreshold (unupdatedSource left_hand false (Some 0%nat) None) = None
   ∨ XRInputSource._pinchThreshold (unupdatedSource left_hand false (Some 0%nat) None) = Some 0.05)
  ∧ Gamepad.buttons (XRInputSource.gamepad (unupdatedSource left_hand false (Some 0%nat) None))
    = releasedButton :: [releasedButton; releasedButton; releasedButton]
  ∧ (10 <= length (HandData.joints pinchPose))%nat
  ∧ ∃ d trigger,
      tipDistance pinchPose = Some d
      ∧ Gamepad.buttons
          (XRInputSource.gamepad
             (_updateGamepad pinchPose (unupdatedSource left_hand false (Some 0%nat) None)))
        = trigger :: [releasedButton; releasedButton; releasedButton]
      ∧ GamepadButton.pressed trigger = true
      ∧ 0 < GamepadButton.value trigger <= 1.
Proof.
  assert (Hlen : (10 <= length (HandData.joints pinchPose))%nat) by (vm_compute; lia).
  split_and!; [right; reflexivity | reflexivity | exact Hlen |].
  destruct (trigger_follows_pinch_distance pinchPose
              (unupdatedSource left_hand false (Some 0%nat) None)
              releasedButton [releasedButton; releasedButton; releasedButton]
              (or_intror eq_refl) eq_refl) as [_ H].
  destruct (H Hlen) as (d & trigger & Hd & _ & Hu & _ & Hv & Hp & _ & Hpt & _).
  exists d, trigger.
  assert (Hpr : GamepadButton.pressed trigger = true).
  { apply Hp. pose proof pinchPose_pinched as (_ & d' & Hd' & Hlt).
    rewrite Hd in Hd'. injection Hd' as ->. exact Hlt. }
  split_and!; [exact Hd | by rewrite Hu | exact Hpr | apply (Hpt Hpr) | apply Hv].
Defined.

(** ** The joint spaces of a hand *)

Lemma HAND_JOINTS_NoDup : NoDup HAND_JOINTS.
Proof. apply (bool_decide_unpack _). by vm_compute. Qed.

Lemma XRHand_fill_other (names : list string) (i : nat)
    (m : gmap string XRJointSpace.t) (n : string) :
  n ∉ names → XRHand_fill names i m !! n = m !! n.
Proof.
  revert i m. induction names as [|name rest IH]; intros i m Hn; simpl; [done|].
  apply not_elem_of_cons in Hn as [Hne Hn].
  rewrite IH by done. by rewrite lookup_insert_ne.
Qed.

Lemma XRHand_fill_index (names : list string) (i k : nat)
    (m : gmap string XRJointSpace.t) (n : string) :
  NoDup names → names !! k = Some n →
  XRHand_fill names i m !! n = Some (XRJointSpace_new n HandData.empty (i + k)).
Proof.
  revert i k m. induction names as [|name rest IH]; intros i k m Hnd Hk; [done|].
  apply NoDup_cons in Hnd as [Hnotin Hnd]. simpl.
  destruct k as [|k]; simpl in Hk.
  - injection Hk as ->. rewrite XRHand_fill_other by done.
    rewrite lookup_insert_eq. by rewrite Nat.add_0_r.
  - rewrite (IH (S i) k) by done. f_equal. f_equal. lia.
Qed.

(** Every hand the polyfill can hold has, under the i-th joint name, the
    joint space of that name and of index i. *)
Lemma XRHand_reachable_index (h : XRHand.t) (i : nat) (name : string) :
  XRHand_reachable h → HAND_JOINTS !! i = Some name →
  ∃ js, XRHand.entries h !! name = Some js
        ∧ XRJointSpace.jointName js = name
        ∧ XRJointSpace._jointIndex js = i
        ∧ XRJointSpace._radius js = 0.01.
Proof.
  intros Hr Hi. induction Hr as [hd | h h' hd Hr IH Hu].
  - eexists. split; [apply (XRHand_fill_index _ 0 i _ _ HAND_JOINTS_NoDup Hi)|].
    done.
  - destruct IH as (js & E & Hn & Hx & Hrad).
    unfold XRHand_update in Hu.
    destruct (XRHand_assign _ _ _) as [m'|] eqn:Ea; [|discriminate Hu].
    injection Hu as <-. cbn [XRHand.entries].
    exists (XRJointSpace.set_handData (default HandData.empty hd) js).
    split; [|done].
    rewrite (XRHand_assign_lookup _ _ _ _ name Ea).
    rewrite decide_True by (by eapply list_elem_of_lookup_2).
    by rewrite E.
Qed.

Lemma XRHand_update_total (h : XRHand.t) (handData : option HandData.t) :
  XRHand_reachable h →
  ∃ h', XRHand_update handData h = Some h' ∧ XRHand_reachable h'
        ∧ XRHand._handData h' = handData.
Proof.
  intros Hr. unfold XRHand_update.
  destruct (XRHand_assign_total HAND_JOINTS (default HandData.empty handData)
              (XRHand.entries h)) as [m' E].
  { apply (XRHand_reachable_entries h Hr). }
  assert (Hu : XRHand_update handData h
               = Some {| XRHand.entries := m'; XRHand._handData := handData |})
    by (unfold XRHand_update; by rewrite E).
  rewrite E. eexists. split; [reflexivity|]. split; [|reflexivity].
  by apply (reachable_update h _ handData).
Qed.

(** X8. [XRHand._update] on a hand the polyfill can hold never fails, and
    afterwards the joint space stored under the i-th joint name reads
    joint i of the skeleton just given: [getJointPose] on it is null
    exactly when the skeleton has no joint i, and otherwise its position
    is that joint's position (with w = 1) and its radius is 0.01. *)
Theorem hand_update_binds_names_to_joints (h : XRHand.t) (hd : HandData.t) :
  XRHand_reachable h →
  ∃ h', XRHand_update (Some hd) h = Some h'
    ∧ XRHand._handData h' = Some hd
    ∧ ∀ i name, HAND_JOINTS !! i = Some name →
        ∃ js, XRHand.entries h' !! name = Some js
          ∧ XRJointSpace.jointName js = name
          ∧ (getJointPose (JointSpaceArg js) = None ↔ HandData.joints hd !! i = None)
          ∧ ∀ joint, HandData.joints hd !! i = Some joint →
              ∃ jp, getJointPose (JointSpaceArg js) = Some jp
                ∧ position (XRPose.transform (XRJointPose.pose jp))
                  = DOMPointReadOnly (Vec3.x (Joint.position joint))
                                     (Vec3.y (Joint.position joint))
                                     (Vec3.z (Joint.position joint)) 1
                ∧ XRJointPose.radius jp = 0.01.
Proof.
  intros Hr.
  destruct (XRHand_update_total h (Some hd) Hr) as (h' & Hu & Hr' & Hd).
  exists h'. split; [exact Hu|]. split; [exact Hd|].
  intros i name Hi.
  destruct (XRHand_reachable_index h i name Hr Hi) as (js & E & Hn & Hx & Hrad).
  exists (XRJointSpace.set_handData hd js).
  unfold XRHand_update in Hu.
  destruct (XRHand_assign _ _ _) as [m'|] eqn:Ea; [|discriminate Hu].
  injection Hu as <-. cbn [XRHand.entries default].
  split_and!.
  - rewrite (XRHand_assign_lookup _ _ _ _ name Ea).
    rewrite decide_True by (by eapply list_elem_of_lookup_2).
    by rewrite E.
  - exact Hn.
  - unfold getJointPose, _getJointPose, _getPose.
    cbn [XRJointSpace.set_handData XRJointSpace._handData XRJointSpace._jointIndex].
    rewrite Hx. destruct (HandData.joints hd !! i); split; done.
  - intros joint Hj. unfold getJointPose, _getJointPose, _getPose.
    cbn [XRJointSpace.set_handData XRJointSpace._handData XRJointSpace._jointIndex
         XRJointSpace._radius].
    rewrite Hx, Hj. eexists. split; [reflexivity|]. split; [reflexivity | exact Hrad].
Qed.

Lemma hand_update_binds_names_to_joints_witness :
  XRHand_reachable (XRHand_new None)
  ∧ ∃ h', XRHand_update (Some openPose) (XRHand_new None) = Some h'
          ∧ XRHand._handData h' = Some openPose.
Proof.
  split; [constructor|].
  destruct (hand_update_binds_names_to_joints (XRHand_new None) openPose
              (reachable_new None)) as (h' & Hu & Hd & _).
  exists h'. split; [exact Hu | exact Hd].
Defined.

(** ** Input sources with hand tracking *)

Lemma updateGamepad_keeps (hd : HandData.t) (src : XRInputSource.t) :
  XRInputSource._handTrackingEnabled (_updateGamepad hd src)
  = XRInputSource._handTrackingEnabled src
  ∧ XRInputSource.hand (_updateGamepad hd src) = XRInputSource.hand src
  ∧ XRInputSource._session (_updateGamepad hd src) = XRInputSource._session src
  ∧ XRInputSource._isPinching (_updateGamepad hd src) = XRInputSource._isPinching src
  ∧ XRInputSource.handedness (_updateGamepad hd src) = XRInputSource.handedness src.
Proof.
  unfold _updateGamepad. destruct (_ <? _)%nat; [done|].
  destruct (_ !! 4%nat); [|done]. destruct (_ !! 9%nat); done.
Qed.

Lemma updateHand_tracked (handData : option HandData.t) (src : XRInputSource.t) :
  trackedSource src →
  ∃ src', _updateHand handData src = Some (src', []) ∧ trackedSource src'
          ∧ ∃ h', XRInputSource.hand src' = Some h' ∧ XRHand._handData h' = handData.
Proof.
  intros (Hte & h & Hh & Hr).
  destruct (XRHand_update_total h handData Hr) as (h' & Hu & Hr' & Hd).
  unfold _updateHand. rewrite Hh, Hte, Hu. cbn [mbind option_bind].
  assert (Ht1 : trackedSource (XRInputSource.set_hand (Some h') src))
    by (split; [exact Hte | by exists h']).
  destruct handData as [hd|]; [|by eauto 10].
  destruct (HandData.joints hd !! 0%nat) as [wrist|]; [|by eauto 10].
  cbv zeta.
  match goal with |- context [_updateGamepad hd ?s] =>
    destruct (updateGamepad_keeps hd s) as (Kte & Kh & _)
  end.
  rewrite Kte. cbn [XRInputSource.set_spaces XRInputSource.set_hand
                    XRInputSource._handTrackingEnabled].
  rewrite Hte. cbn [negb andb]. eexists. split; [reflexivity|].
  split; [split; [by rewrite Kte | exists h'; by rewrite Kh] |].
  exists h'. by rewrite Kh.
Qed.

Lemma updateSide_tracked (side : Handedness) (session : option nat)
    (data : option HandData.t) (source : option XRInputSource.t) (active : bool) :
  (∀ src, source = Some src → trackedSource src) →
  ∃ u, updateSide side true session data source active = Some u
       ∧ SideUpdate.events u = []
       ∧ (∀ src, SideUpdate.source u = Some src → trackedSource src).
Proof.
  intros Hsrc. unfold updateSide.
  destruct (_ && negb active).
  { destruct source as [src|].
    - destruct (updateHand_tracked data src (Hsrc src eq_refl)) as (src' & -> & Ht & _).
      eexists. split; [reflexivity|]. split; [reflexivity|].
      by intros ? [= <-].
    - assert (Hnew : trackedSource (unupdatedSource side true session data))
        by (split; [reflexivity | eexists; split; [reflexivity | constructor]]).
      destruct (updateHand_tracked data _ Hnew) as (src' & E & Ht & _).
      change (XRInputSource_new side data true session)
        with (_updateHand data (unupdatedSource side true session data)).
      rewrite E. eexists. split; [reflexivity|]. split; [reflexivity|].
      by intros ? [= <-]. }
  destruct (negb _ && active).
  { eexists. split; [reflexivity|]. split; [reflexivity | exact Hsrc]. }
  destruct source as [src|]; [|by eauto].
  destruct (match data with Some d => HandData.visible d | None => false end);
    [|by eauto].
  destruct (updateHand_tracked data src (Hsrc src eq_refl)) as (src' & -> & Ht & _).
  eexists. split; [reflexivity|]. split; [reflexivity|].
  by intros ? [= <-].
Qed.

(** X9. With hand tracking enabled [XRInputSourceArray._update] never
    fails and never raises a select event, whatever the hands do: a call
    dispatches nothing, or one 'inputsourceschange' event; the input
    sources it keeps still carry a hand and have hand tracking enabled. *)
Theorem hand_tracking_raises_no_select_events (leftData rightData : option HandData.t)
    (arr : XRInputSourceArray.t) :
  handTrackingArray arr →
  ∃ arr' events,
    XRInputSourceArray_update leftData rightData arr = Some (arr', events)
    ∧ handTrackingArray arr'
    ∧ Forall isChangeEvent events
    ∧ (length events <= 1)%nat.
Proof.
  intros (Hte & Hl & Hr). unfold XRInputSourceArray_update. rewrite Hte.
  destruct (updateSide_tracked left_hand (XRInputSourceArray._session arr) leftData
              _ (XRInputSourceArray._leftHandActive arr) Hl) as (l & -> & El & Hl').
  destruct (updateSide_tracked right_hand (XRInputSourceArray._session arr) rightData
              _ (XRInputSourceArray._rightHandActive arr) Hr) as (r & -> & Er & Hr').
  cbn [mbind option_bind]. rewrite El, Er. cbn [app].
  eexists _, _. split; [reflexivity|]. split; [by split|].
  destruct (XRInputSourceArray._session arr) as [s|]; [|by split; [constructor | cbn; lia]].
  destruct (_ || _); [|by split; [constructor | cbn; lia]].
  split; [|cbn; lia].
  apply Forall_cons. split; [|constructor]. by eexists _, _.
Qed.

Lemma hand_tracking_raises_no_select_events_witness :
  handTrackingArray (XRInputSourceArray.set_session (Some 0%nat) true XRInputSourceArray_new)
  ∧ ∃ arr' events,
      XRInputSourceArray_update (Some pinchPose) None
        (XRInputSourceArray.set_session (Some 0%nat) true XRInputSourceArray_new)
      = Some (arr', events)
      ∧ Forall isChangeEvent events.
Proof.
  assert (H : handTrackingArray
                (XRInputSourceArray.set_session (Some 0%nat) true XRInputSourceArray_new))
    by (split; [reflexivity | split; intros src; discriminate]).
  split; [exact H|].
  destruct (hand_tracking_raises_no_select_events (Some pinchPose) None _ H)
    as (arr' & events & E & _ & Hev & _).
  exists arr', events. split; [exact E | exact Hev].
Defined.

(** ** Hands that come and go, without hand tracking *)

(** X10. Without hand tracking, when the tracked left hand is no longer
    visible (its data is null or not visible) [_update] ends a pinch in
    progress with a 'selectend' event, then reports the input source as
    removed; the array is empty afterwards but the input source object is
    kept, not pinching, so that when the hand is seen again the same
    object is updated and reported as added, after a 'selectstart' if the
    hand comes back pinched. *)
Theorem lost_hand_ends_its_pinch (session : nat) (pinching : bool)
    (data : option HandData.t) (arr : XRInputSourceArray.t) :
  leftTracked session pinching arr →
  notVisible data →
  ∃ arr' src',
    XRInputSourceArray_update data None arr
    = Some (arr',
            (if pinching then [(session, XRSelectEvent "selectend" left_hand)] else [])
            ++ [(session, XRInputSourcesChangeEvent "inputsourceschange" [] [left_hand])])
    ∧ XRInputSourceArray.items arr' = []
    ∧ XRInputSourceArray._leftHandActive arr' = false
    ∧ XRInputSourceArray._leftHand arr' = Some src'
    ∧ pinchState left_hand session false src'
    ∧ ∀ (hd : HandData.t) (cur : bool),
        HandData.visible hd = true →
        (if cur then handPinched hd else handOpen hd) →
        ∃ arr'' src'',
          XRInputSourceArray_update (Some hd) None arr'
          = Some (arr'',
                  tickEvents left_hand session false cur
                  ++ [(session, XRInputSourcesChangeEvent "inputsourceschange" [left_hand] [])])
          ∧ _updateHand (Some hd) src' = Some (src'', tickEvents left_hand session false cur)
          ∧ XRInputSourceArray._leftHand arr'' = Some src''
          ∧ leftTracked session cur arr''.
Proof.
  intros (Hte & Hsess & Hla & Hra & Hr & src & Hl & Hst) Hnv.
  assert (Hvis : match data with Some d => HandData.visible d | None => false end = false)
    by (destruct data; done).
  pose proof Hst as (Hside & Hte' & Hs' & Hthr & Hp).
  exists {| XRInputSourceArray.items := [];
            XRInputSourceArray._handTrackingEnabled := false;
            XRInputSourceArray._leftHand :=
              Some (if pinching then XRInputSource.set_isPinching false src else src);
            XRInputSourceArray._rightHand := None;
            XRInputSourceArray._leftHandActive := false;
            XRInputSourceArray._rightHandActive := false;
            XRInputSourceArray._session := Some session |},
         (if pinching then XRInputSource.set_isPinching false src else src).
  assert (Hst' : pinchState left_hand session false
                   (if pinching then XRInputSource.set_isPinching false src else src))
    by (destruct pinching; [by split_and! | exact Hst]).
  split_and!; try done.
  - unfold XRInputSourceArray_update, updateSide.
    rewrite Hte, Hsess, Hla, Hra, Hr, Hl, Hvis. cbn [negb andb mbind option_bind].
    rewrite Hp. destruct pinching; reflexivity.
  - intros hd cur Hv Hhd.
    destruct (updateHand_tick left_hand session false cur hd _ Hst' Hhd)
      as (src'' & E & Hst'').
    eexists _, src''. unfold XRInputSourceArray_update, updateSide.
    cbn [XRInputSourceArray._handTrackingEnabled XRInputSourceArray._session
         XRInputSourceArray._leftHand XRInputSourceArray._leftHandActive
         XRInputSourceArray._rightHand XRInputSourceArray._rightHandActive].
    rewrite Hv. cbn [negb andb]. rewrite E.
    cbn [mbind option_bind fst snd SideUpdate.events SideUpdate.added
         SideUpdate.removed SideUpdate.active SideUpdate.source app length
         Nat.ltb Nat.leb orb].
    split_and!; [reflexivity | reflexivity | reflexivity |].
    unfold leftTracked. cbn. split_and!; try done. by exists src''.
Qed.

Lemma lost_hand_ends_its_pinch_witness :
  ∃ arr0 arr1 arr2,
    XRInputSourceArray_update (Some openPose) None
      (XRInputSourceArray.set_session (Some 0%nat) false XRInputSourceArray_new)
    = Some (arr0, [(0%nat, XRInputSourcesChangeEvent "inputsourceschange" [left_hand] [])])
    ∧ XRInputSourceArray_update (Some pinchPose) None arr0
      = Some (arr1, [(0%nat, XRSelectEvent "selectstart" left_hand)])
    ∧ leftTracked 0 true arr1
    ∧ notVisible None
    ∧ XRInputSourceArray_update None None arr1
      = Some (arr2, [(0%nat, XRSelectEvent "selectend" left_hand);
                     (0%nat, XRInputSourcesChangeEvent "inputsourceschange" [] [left_hand])]).
Proof.
  destruct (hand_appears 0 openPose
              (XRInputSourceArray.set_session (Some 0%nat) false XRInputSourceArray_new))
    as (arr0 & E0 & H0); try reflexivity; [exact openPose_open|].
  destruct (update_tick 0 false true pinchPose arr0 H0 eq_refl pinchPose_pinched)
    as (arr1 & E1 & H1).
  destruct (lost_hand_ends_its_pinch 0 true None arr1 H1 I) as (arr2 & src' & E2 & _).
  exists arr0, arr1, arr2. by split_and!.
Defined.

(** X11. Without hand tracking, when both hands are first seen on the same
    tick [_update] creates both input sources and reports them in one
    'inputsourceschange' event with added = [left, right], dispatched
    after the 'selectstart' of each hand that is already pinched (left
    before right); the array then holds the left source before the right
    one. *)
Theorem both_hands_appear_in_one_event (session : nat) (leftCur rightCur : bool)
    (leftData rightData : HandData.t) (arr : XRInputSourceArray.t) :
  noHandSeen session arr →
  HandData.visible leftData = true → HandData.visible rightData = true →
  (if leftCur then handPinched leftData else handOpen leftData) →
  (if rightCur then handPinched rightData else handOpen rightData) →
  ∃ arr' l r,
    XRInputSourceArray_update (Some leftData) (Some rightData) arr
    = Some (arr',
            tickEvents left_hand session false leftCur
            ++ tickEvents right_hand session false rightCur
            ++ [(session,
                 XRInputSourcesChangeEvent "inputsourceschange" [left_hand; right_hand] [])])
    ∧ XRInputSourceArray.items arr' = [left_hand; right_hand]
    ∧ XRInputSourceArray._leftHand arr' = Some l
    ∧ XRInputSourceArray._rightHand arr' = Some r
    ∧ pinchState left_hand session leftCur l
    ∧ pinchState right_hand session rightCur r.
Proof.
  intros (Hte & Hsess & Hl & Hla & Hr & Hra) Hvl Hvr Hhl Hhr.
  destruct (updateHand_tick left_hand session false leftCur leftData
              (unupdatedSource left_hand false (Some session) (Some leftData))
              ltac:(by split_and!) Hhl) as (l & El & Hstl).
  destruct (updateHand_tick right_hand session false rightCur rightData
              (unupdatedSource right_hand false (Some session) (Some rightData))
              ltac:(by split_and!) Hhr) as (r & Er & Hstr).
  exists {| XRInputSourceArray.items := [left_hand; right_hand];
            XRInputSourceArray._handTrackingEnabled := false;
            XRInputSourceArray._leftHand := Some l;
            XRInputSourceArray._rightHand := Some r;
            XRInputSourceArray._leftHandActive := true;
            XRInputSourceArray._rightHandActive := true;
            XRInputSourceArray._session := Some session |}, l, r.
  split_and!; try done.
  unfold XRInputSourceArray_update, updateSide.
  rewrite Hte, Hsess, Hla, Hra, Hr, Hl, Hvl, Hvr. cbn [negb andb].
  change (XRInputSource_new left_hand (Some leftData) false (Some session))
    with (_updateHand (Some leftData)
            (unupdatedSource left_hand false (Some session) (Some leftData))).
  change (XRInputSource_new right_hand (Some rightData) false (Some session))
    with (_updateHand (Some rightData)
            (unupdatedSource right_hand false (Some session) (Some rightData))).
  rewrite El, Er. reflexivity.
Qed.

Lemma both_hands_appear_in_one_event_witness :
  noHandSeen 0 (XRInputSourceArray.set_session (Some 0%nat) false XRInputSourceArray_new)
  ∧ ∃ arr',
      XRInputSourceArray_update (Some openPose) (Some pinchPose)
        (XRInputSourceArray.set_session (Some 0%nat) false XRInputSourceArray_new)
      = Some (arr',
              [(0%nat, XRSelectEvent "selectstart" right_hand);
               (0%nat, XRInputSourcesChangeEvent "inputsourceschange"
                         [left_hand; right_hand] [])]).
Proof.
  assert (H : noHandSeen 0
                (XRInputSourceArray.set_session (Some 0%nat) false XRInputSourceArray_new))
    by (by split_and!).
  split; [exact H|].
  destruct (both_hands_appear_in_one_event 0 false true openPose pinchPose _ H
              eq_refl eq_refl openPose_open pinchPose_pinched)
    as (arr' & l & r & E & _).
  exists arr'. exact E.
Defined.

(** ** Filling the arrays of the application *)

Lemma writeMatrix_lookup (m : list R) (base : nat) (transforms : list R) (k : nat) :
  writeMatrix m base transforms !! k
  = if decide ((base <= k < base + 16)%nat ∧ (k < length transforms)%nat)
    then Some (entry m (k - base)) else transforms !! k.
Proof.
  unfold writeMatrix.
  assert (H : ∀ js t,
    foldl (λ t j, <[(base + j)%nat := entry m j]> t) t js !! k
    = if decide (((k - base)%nat ∈ js ∧ (base <= k)%nat) ∧ (k < length t)%nat)
      then Some (entry m (k - base)) else t !! k).
  { induction js as [|j js IH]; intros t; cbn [foldl].
    - case_decide as H; [|done]. destruct H as [[H _] _]. by apply elem_of_nil in H.
    - rewrite IH, length_insert.
      destruct (decide (((k - base)%nat ∈ js ∧ (base <= k)%nat) ∧ (k < length t)%nat))
        as [[[Hin Hle] Hlt]|Hn].
      + rewrite decide_True; [done|]. split; [split; [by right | done] | done].
      + destruct (decide ((base + j)%nat = k)) as [<-|Hne].
        * destruct (decide ((base + j < length t)%nat)) as [Hlt|Hge].
          -- rewrite list_lookup_insert_eq by done.
             rewrite decide_True; [by replace (base + j - base)%nat with j by lia|].
             split; [split; [|lia] | done].
             replace (base + j - base)%nat with j by lia. by left.
          -- rewrite decide_False by tauto.
             rewrite !lookup_ge_None_2; [done | lia | rewrite length_insert; lia].
        * rewrite list_lookup_insert_ne by done.
          rewrite decide_False; [done|].
          intros [[[Heq|Hin]%elem_of_cons Hle] Hlt]; [lia | tauto]. }
  rewrite H. destruct (decide (((base <= k < base + 16)%nat) ∧ (k < length transforms)%nat))
    as [[Hr Hl]|Hn].
  - rewrite decide_True; [done|]. split; [split; [|lia] | done].
    apply elem_of_seq. lia.
  - rewrite decide_False; [done|].
    intros [[Hin%elem_of_seq Hle] Hlt]. apply Hn. lia.
Qed.

Lemma writeMatrix_length (m : list R) (base : nat) (transforms : list R) :
  length (writeMatrix m base transforms) = length transforms.
Proof.
  unfold writeMatrix. generalize (seq 0 16). intros js. revert transforms.
  induction js as [|j js IH]; intros t; simpl; [done|].
  by rewrite IH, length_insert.
Qed.

Lemma fillPoses_from_length (i : nat) (spaces : list SpaceArgument) (transforms : list R) :
  length (fillPoses_from i spaces transforms) = length transforms.
Proof.
  revert i transforms. induction spaces as [|space rest IH]; intros i t; simpl; [done|].
  rewrite IH. destruct (getPose space); [apply writeMatrix_length | done].
Qed.

Lemma fillPoses_from_lookup (i : nat) (spaces : list SpaceArgument) (transforms : list R)
    (b j : nat) :
  (j < 16)%nat →
  fillPoses_from i spaces transforms !! (b * 16 + j)%nat
  = match (if decide (i <= b)%nat then spaces !! (b - i)%nat ≫= getPose else None) with
    | Some pose =>
        if decide (b * 16 + j < length transforms)%nat
        then Some (entry (matrix (XRPose.transform pose)) j) else None
    | None => transforms !! (b * 16 + j)%nat
    end.
Proof.
  intros Hj. revert i transforms.
  induction spaces as [|space rest IH]; intros i t; simpl.
  - by destruct (decide (i <= b)%nat).
  - rewrite IH.
    assert (Hlen : length (match getPose space with
                           | Some pose => writeMatrix (matrix (XRPose.transform pose)) (i * 16) t
                           | None => t
                           end) = length t)
      by (destruct (getPose space); [apply writeMatrix_length | done]).
    rewrite Hlen.
    destruct (decide (S i <= b)%nat) as [Hle|Hnle].
    + rewrite (decide_True (P := (i <= b)%nat)) by lia.
      replace (b - i)%nat with (S (b - S i)) by lia. cbn [lookup list_lookup].
      destruct (rest !! (b - S i)%nat ≫= getPose) as [pose|]; [done|].
      destruct (getPose space) as [pose0|]; [|done].
      rewrite writeMatrix_lookup. rewrite decide_False; [done | lia].
    + destruct (decide (i <= b)%nat) as [Hle|Hnle'].
      * assert (b = i) as -> by lia. rewrite Nat.sub_diag. cbn [lookup list_lookup mbind option_bind].
        destruct (getPose space) as [pose0|]; [|done].
        rewrite writeMatrix_lookup.
        destruct (decide (i * 16 + j < length t)%nat) as [Hlt|Hge].
        -- rewrite decide_True by lia. by replace (i * 16 + j - i * 16)%nat with j by lia.
        -- rewrite decide_False by lia. apply lookup_ge_None_2. lia.
      * destruct (getPose space) as [pose0|]; [|done].
        rewrite writeMatrix_lookup. rewrite decide_False; [done | lia].
Qed.

(** X12. [fillPoses] returns true and leaves the length of the output array
    as it was; block i of 16 numbers receives the column-major matrix of
    the pose of space i when that space has a pose, as far as the block
    lies inside the array, and every block whose space has no pose (a
    joint space without its joint, or something that is no space), or
    that lies past the last space, keeps the numbers it had. *)
Theorem fill_poses_writes_blocks_of_posed_spaces (spaces : list SpaceArgument)
    (transforms : list R) :
  (fillPoses spaces transforms).1 = true
  ∧ length (fillPoses spaces transforms).2 = length transforms
  ∧ ∀ i j, (j < 16)%nat →
      (fillPoses spaces transforms).2 !! (i * 16 + j)%nat
      = match spaces !! i ≫= getPose with
        | Some pose =>
            if decide (i * 16 + j < length transforms)%nat
            then Some (entry (matrix (XRPose.transform pose)) j) else None
        | None => transforms !! (i * 16 + j)%nat
        end.
Proof.
  split; [reflexivity|]. split; [apply fillPoses_from_length|].
  intros i j Hj. unfold fillPoses. cbn [snd].
  rewrite fillPoses_from_lookup by done.
  rewrite decide_True by lia. by rewrite Nat.sub_0_r.
Qed.

Lemma fillJointRadii_from_lookup (i : nat) (jointSpaces : list (option XRJointSpace.t))
    (radii : list R) (k : nat) :
  length (fillJointRadii_from i jointSpaces radii) = length radii
  ∧ fillJointRadii_from i jointSpaces radii !! k
    = if decide ((i <= k < i + length jointSpaces)%nat ∧ (k < length radii)%nat)
      then Some (match jointSpaces !! (k - i)%nat with
                 | Some (Some s) => XRJointSpace._radius s
                 | _ => 0
                 end)
      else radii !! k.
Proof.
  revert i radii. induction jointSpaces as [|js rest IH]; intros i radii; simpl.
  - split; [done|]. rewrite decide_False; [done | lia].
  - destruct (IH (S i) (<[i := match js with
                                 | Some s => XRJointSpace._radius s
                                 | None => 0
                                 end]> radii)) as [Hlen Hk].
    rewrite length_insert in Hlen, Hk. split; [exact Hlen|]. rewrite Hk.
    destruct (decide ((S i <= k < S i + length rest)%nat ∧ (k < length radii)%nat))
      as [[Hr Hl]|Hn].
    + rewrite decide_True by lia.
      by replace (k - i)%nat with (S (k - S i)) by lia.
    + destruct (decide (k = i)) as [->|Hne].
      * destruct (decide (i < length radii)%nat) as [Hlt|Hge].
        -- rewrite list_lookup_insert_eq by done. rewrite decide_True by lia.
           rewrite Nat.sub_diag. cbn [lookup list_lookup]. by destruct js.
        -- rewrite decide_False by lia.
           rewrite !lookup_ge_None_2; [done | lia | rewrite length_insert; lia].
      * rewrite list_lookup_insert_ne by done. rewrite decide_False; [done | lia].
Qed.

(** X13. [fillJointRadii] returns true and leaves the length of [radii] as
    it was; slot i receives the radius of joint space i, or 0 when that
    element is null, for every i below both lengths, and the slots past
    the last joint space keep their numbers; for the joint spaces of a
    hand of the polyfill the number written is 0.01. *)
Theorem fill_joint_radii_writes_one_slot_per_space
    (jointSpaces : list (option XRJointSpace.t)) (radii : list R) :
  (fillJointRadii jointSpaces radii).1 = true
  ∧ length (fillJointRadii jointSpaces radii).2 = length radii
  ∧ (∀ i space, jointSpaces !! i = Some space → (i < length radii)%nat →
       (fillJointRadii jointSpaces radii).2 !! i
       = Some (match space with Some s => XRJointSpace._radius s | None => 0 end))
  ∧ (∀ i, (length jointSpaces <= i)%nat →
       (fillJointRadii jointSpaces radii).2 !! i = radii !! i)
  ∧ (∀ h i name s, XRHand_reachable h → XRHand.entries h !! name = Some s →
       jointSpaces !! i = Some (Some s) → (i < length radii)%nat →
       (fillJointRadii jointSpaces radii).2 !! i = Some 0.01).
Proof.
  unfold fillJointRadii. cbn [fst snd].
  assert (Hs : ∀ i space, jointSpaces !! i = Some space → (i < length radii)%nat →
       fillJointRadii_from 0 jointSpaces radii !! i
       = Some (match space with Some s => XRJointSpace._radius s | None => 0 end)).
  { intros i space Hi Hlt.
    destruct (fillJointRadii_from_lookup 0 jointSpaces radii i) as [_ ->].
    apply lookup_lt_Some in Hi as Hi'.
    rewrite decide_True by lia. rewrite Nat.sub_0_r, Hi. by destruct space. }
  split_and!.
  - reflexivity.
  - apply (fillJointRadii_from_lookup 0 jointSpaces radii 0).
  - exact Hs.
  - intros i Hi. destruct (fillJointRadii_from_lookup 0 jointSpaces radii i) as [_ ->].
    rewrite decide_False; [done | lia].
  - intros h i name s Hr He Hi Hlt. rewrite (Hs i (Some s) Hi Hlt).
    destruct (XRHand_reachable_entries h Hr) as [_ H].
    destruct (H name s He) as [_ ->]. reflexivity.
Qed.

(** ** Reference spaces *)

(** X14. [requestReferenceSpace] accepts any type, creates a space without
    offset the first time a type is asked for, and from then on returns
    that same space without changing the session; the spaces of the
    other types, the callbacks and the ended flag are not touched.
    [getOffsetReferenceSpace] leaves the space it is called on as it is
    and replaces an offset rather than composing with it: the space
    derived with [first] and then with [second] is the space derived with
    [second] alone. *)
Theorem reference_spaces_are_cached_and_offsets_replace (type : string)
    (s : XRSession.t) :
  requestReferenceSpace type (requestReferenceSpace type s).2 = requestReferenceSpace type s
  ∧ XRSession._referenceSpaces (requestReferenceSpace type s).2 !! type
    = Some (requestReferenceSpace type s).1
  ∧ (XRSession._referenceSpaces s !! type = None →
     (requestReferenceSpace type s).1 = XRReferenceSpace_new type
     ∧ XRReferenceSpace._originOffset (requestReferenceSpace type s).1 = None)
  ∧ (∀ space, XRSession._referenceSpaces s !! type = Some space →
     requestReferenceSpace type s = (space, s))
  ∧ (∀ other, other ≠ type →
     XRSession._referenceSpaces (requestReferenceSpace type s).2 !! other
     = XRSession._referenceSpaces s !! other)
  ∧ XRSession._frameCallbacks (requestReferenceSpace type s).2 = XRSession._frameCallbacks s
  ∧ XRSession._ended (requestReferenceSpace type s).2 = XRSession._ended s
  ∧ ∀ (space : XRReferenceSpace.t) (first second : XRRigidTransform),
      getOffsetReferenceSpace (getOffsetReferenceSpace space first) second
      = getOffsetReferenceSpace space second.
Proof.
  unfold requestReferenceSpace.
  destruct (XRSession._referenceSpaces s !! type) as [space|] eqn:E.
  - cbn [fst snd]. rewrite E. split_and!; try done. by intros ? [= <-].
  - cbn [fst snd XRSession.set_referenceSpaces XRSession._referenceSpaces
         XRSession._frameCallbacks XRSession._ended].
    rewrite lookup_insert_eq. split_and!; try done.
    intros other Hne. by rewrite lookup_insert_ne.
Qed.

(** ** The smoothing of the head position *)

Lemma lerp_error (a target : R) :
  lerp a target (1 - smoothing) - target = 0.7 * (a - target).
Proof. unfold lerp, smoothing. lra. Qed.

(** X15. A face result that carries a position pulls the head towards its
    target by a fixed share: after n camera frames with the same face
    result the distance of each coordinate of [headPosition] to the
    target is 0.7 ^ n times what it was, for the matrix path and for the
    landmark path alike. *)
Theorem head_position_error_shrinks_geometrically (f : FaceResult) (target : Vec3.t)
    (h : HeadState) (n : nat) :
  headTarget f = Some target →
  Vec3.x (headPosition (Nat.iter n (updateHead f) h)) - Vec3.x target
  = 0.7 ^ n * (Vec3.x (headPosition h) - Vec3.x target)
  ∧ Vec3.y (headPosition (Nat.iter n (updateHead f) h)) - Vec3.y target
    = 0.7 ^ n * (Vec3.y (headPosition h) - Vec3.y target)
  ∧ Vec3.z (headPosition (Nat.iter n (updateHead f) h)) - Vec3.z target
    = 0.7 ^ n * (Vec3.z (headPosition h) - Vec3.z target).
Proof.
  intros Ht. induction n as [|n (IHx & IHy & IHz)].
  - cbn [Nat.iter nat_rect pow]. lra.
  - change (Nat.iter (S n) (updateHead f) h)
      with (updateHead f (Nat.iter n (updateHead f) h)).
    set (hn := Nat.iter n (updateHead f) h) in *.
    cbn [pow]. rewrite !Rmult_assoc, <- IHx, <- IHy, <- IHz.
    destruct f as [m | l |]; [| |discriminate Ht].
    + injection Ht as <-. cbn [updateHead updateHeadFromMatrix headPosition
                               Vec3.x Vec3.y Vec3.z].
      split_and!; apply lerp_error.
    + cbn [headTarget] in Ht. cbn [updateHead]. unfold updateHeadFromLandmarks.
      destruct (l !! 1%nat) as [nose|]; [|discriminate Ht].
      injection Ht as <-. cbn [mbind option_bind default headPosition
                               Vec3.x Vec3.y Vec3.z].
      split_and!; apply lerp_error.
Qed.

Lemma head_position_error_shrinks_geometrically_witness :
  headTarget (FaceLandmarks [Vec3.mk 0 0 0; Vec3.mk 0.5 0.5 0]) = Some (Vec3.mk 0 0 (-0.5))
  ∧ Vec3.x (headPosition
              (Nat.iter 2 (updateHead (FaceLandmarks [Vec3.mk 0 0 0; Vec3.mk 0.5 0.5 0]))
                 {| headPosition := Vec3.mk 1 0 0; headRotation := Vec4.mk 0 0 0 1 |}))
    = 0.49.
Proof.
  assert (Ht : headTarget (FaceLandmarks [Vec3.mk 0 0 0; Vec3.mk 0.5 0.5 0])
               = Some (Vec3.mk 0 0 (-0.5))).
  { cbn. unfold positionScale, depthScale. f_equal. apply Vec3_eq; lra. }
  split; [exact Ht|].
  destruct (head_position_error_shrinks_geometrically _ _
              {| headPosition := Vec3.mk 1 0 0; headRotation := Vec4.mk 0 0 0 1 |} 2 Ht)
    as (Hx & _).
  cbn [Vec3.x headPosition pow] in Hx. cbn [Vec3.x]. lra.
Defined.

(** ** The hands of a camera frame *)

Lemma processHandLandmarks_total (headPos : Vec3.t) (landmarks : list Vec3.t)
    (worldLandmarks : option (list Vec3.t)) (side : Handedness) :
  handObservation landmarks worldLandmarks →
  ∃ d, processHandLandmarks headPos landmarks worldLandmarks side = Some d
       ∧ skeletonOf side d.
Proof.
  intros [Hl Hw].
  explode landmarks.
  destruct worldLandmarks as [wl|]; [destruct Hw as [->|Hw]; [|explode wl]|].
  all: eexists; split; [reflexivity|]; by split_and!.
Qed.

Lemma processHands_last (headPos : Vec3.t) (hands : list HandResult.t)
    (l0 r0 : option HandData.t) :
  Forall (λ h, handObservation (HandResult.landmarks h) (HandResult.worldLandmarks h))
         hands →
  processHands headPos hands (l0, r0)
  = Some (match lastLabelled true hands with
          | Some h => processHandLandmarks headPos (HandResult.landmarks h)
                        (HandResult.worldLandmarks h) left_hand
          | None => l0
          end,
          match lastLabelled false hands with
          | Some h => processHandLandmarks headPos (HandResult.landmarks h)
                        (HandResult.worldLandmarks h) right_hand
          | None => r0
          end).
Proof.
  intros Hall. revert l0 r0.
  induction Hall as [|h rest Hh Hrest IH]; intros l0 r0; [reflexivity|].
  unfold lastLabelled in *. cbn [processHands]. rewrite !filter_cons.
  destruct (String.eqb (HandResult.categoryName h) "Left") eqn:El.
  - destruct (processHandLandmarks_total headPos _ _ left_hand Hh) as (d & Ed & _).
    rewrite Ed. cbn [mbind option_bind fst snd]. rewrite IH.
    rewrite decide_True by done. rewrite decide_False by done.
    rewrite last_cons.
    destruct (last (filter (λ h0, String.eqb (HandResult.categoryName h0) "Left" = true) rest));
      rewrite ?Ed; reflexivity.
  - destruct (processHandLandmarks_total headPos _ _ right_hand Hh) as (d & Ed & _).
    rewrite Ed. cbn [mbind option_bind fst snd]. rewrite IH.
    rewrite decide_False by done. rewrite decide_True by done.
    rewrite last_cons.
    destruct (last (filter (λ h0, String.eqb (HandResult.categoryName h0) "Left" = false) rest));
      rewrite ?Ed; reflexivity.
Qed.

(** X16. [processFrame] on a camera frame whose hands are 21-landmark
    observations never fails on them and starts from no hands: the left
    hand data is the skeleton of the last hand labelled 'Left', made as a
    left hand, the right hand data the skeleton of the last hand with any
    other label, made as a right hand; a side without such a hand is null
    whatever it held before the frame.  Each skeleton is visible, bears
    its side and has 25 joints. *)
Theorem detected_hands_are_routed_by_label (face : FaceResult)
    (hands : list HandResult.t) (h : HeadState) :
  (match face with FaceLandmarks l => is_Some (l !! 1%nat) | _ => True end) →
  Forall (λ o, handObservation (HandResult.landmarks o) (HandResult.worldLandmarks o))
         hands →
  ∃ l r,
    processFrame face (Some hands) h = Some (updateHead face h, l, r)
    ∧ l = (o ← lastLabelled true hands;
           processHandLandmarks (headPosition (updateHead face h))
             (HandResult.landmarks o) (HandResult.worldLandmarks o) left_hand)
    ∧ r = (o ← lastLabelled false hands;
           processHandLandmarks (headPosition (updateHead face h))
             (HandResult.landmarks o) (HandResult.worldLandmarks o) right_hand)
    ∧ (is_Some l ↔ ∃ o, o ∈ hands ∧ HandResult.categoryName o = "Left"%string)
    ∧ (is_Some r ↔ ∃ o, o ∈ hands ∧ HandResult.categoryName o ≠ "Left"%string)
    ∧ (∀ d, l = Some d → skeletonOf left_hand d)
    ∧ (∀ d, r = Some d → skeletonOf right_hand d).
Proof.
  intros Hface Hall.
  assert (Hh : (match face with
                | FaceMatrix m => Some (updateHeadFromMatrix m h)
                | FaceLandmarks l => updateHeadFromLandmarks l h
                | NoFace => Some h
                end) = Some (updateHead face h)).
  { destruct face as [m | l |]; [done | | done]. cbn [updateHead].
    unfold updateHeadFromLandmarks. by destruct Hface as [nose ->]. }
  assert (Hside : ∀ (b : bool) side o, lastLabelled b hands = Some o →
            String.eqb (HandResult.categoryName o) "Left" = b
            ∧ o ∈ hands
            ∧ ∃ d, processHandLandmarks (headPosition (updateHead face h))
                     (HandResult.landmarks o) (HandResult.worldLandmarks o) side = Some d
                   ∧ skeletonOf side d).
  { intros b side o Ho. unfold lastLabelled in Ho.
    apply last_Some_elem_of in Ho. apply list_elem_of_filter in Ho as [Hb Hin].
    split; [exact Hb|]. split; [exact Hin|].
    apply processHandLandmarks_total.
    by apply (proj1 (Forall_forall _ _) Hall). }
  assert (Hnone : ∀ (b : bool) o, lastLabelled b hands = None → o ∈ hands →
            String.eqb (HandResult.categoryName o) "Left" ≠ b).
  { intros b o Hn Hin Hb. unfold lastLabelled in Hn. apply last_None in Hn.
    assert (Hf : o ∈ filter (λ h, String.eqb (HandResult.categoryName h) "Left" = b) hands)
      by (apply list_elem_of_filter; by split).
    rewrite Hn in Hf. by apply elem_of_nil in Hf. }
  eexists _, _. split; [|split; [reflexivity|split; [reflexivity|]]].
  - unfold processFrame. rewrite Hh. cbn [mbind option_bind default].
    rewrite (processHands_last _ _ None None Hall). cbn [fst snd].
    by destruct (lastLabelled true hands), (lastLabelled false hands).
  - split_and!.
    + destruct (lastLabelled true hands) as [o|] eqn:E; cbn [mbind option_bind].
      * destruct (Hside true left_hand o E) as (Hb & Hin & d & -> & _).
        split; [|by eexists]. intros _. exists o. split; [done|].
        by apply String.eqb_eq.
      * split; [by intros [? ?]|]. intros (o & Hin & Hl).
        destruct (Hnone true o E Hin). by apply String.eqb_eq.
    + destruct (lastLabelled false hands) as [o|] eqn:E; cbn [mbind option_bind].
      * destruct (Hside false right_hand o E) as (Hb & Hin & d & -> & _).
        split; [|by eexists]. intros _. exists o. split; [done|].
        by apply String.eqb_neq.
      * split; [by intros [? ?]|]. intros (o & Hin & Hl).
        destruct (Hnone false o E Hin). by apply String.eqb_neq.
    + intros d. destruct (lastLabelled true hands) as [o|] eqn:E; [|done].
      cbn [mbind option_bind].
      destruct (Hside true left_hand o E) as (_ & _ & d' & -> & Hd). by intros [= <-].
    + intros d. destruct (lastLabelled false hands) as [o|] eqn:E; [|done].
      cbn [mbind option_bind].
      destruct (Hside false right_hand o E) as (_ & _ & d' & -> & Hd). by intros [= <-].
Qed.

Lemma detected_hands_are_routed_by_label_witness :
  Forall (λ o, handObservation (HandResult.landmarks o) (HandResult.worldLandmarks o))
         [ {| HandResult.categoryName := "Right";
              HandResult.landmarks := openHandLandmarks;
              HandResult.worldLandmarks := None |} ]
  ∧ ∃ r, processFrame NoFace
           (Some [ {| HandResult.categoryName := "Right";
                      HandResult.landmarks := openHandLandmarks;
                      HandResult.worldLandmarks := None |} ]) initialHead
         = Some (initialHead, None, Some r)
         ∧ skeletonOf right_hand r.
Proof.
  assert (H : Forall (λ o, handObservation (HandResult.landmarks o)
                             (HandResult.worldLandmarks o))
                [ {| HandResult.categoryName := "Right";
                     HandResult.landmarks := openHandLandmarks;
                     HandResult.worldLandmarks := None |} ]).
  { apply Forall_cons. split; [|constructor]. split; [reflexivity | exact I]. }
  split; [exact H|].
  destruct (detected_hands_are_routed_by_label NoFace _ initialHead I H)
    as (l & r & E & Hl & Hr & Hil & Hir & _ & Hsr).
  destruct l as [d|].
  { destruct (proj1 Hil (ltac:(by eexists))) as (o & Ho & Hn).
    apply list_elem_of_singleton in Ho. subst o. discriminate Hn. }
  destruct r as [d|].
  - exists d. split; [exact E | by apply Hsr].
  - destruct (proj2 Hir) as [? ?]; [|discriminate].
    eexists. split; [apply list_elem_of_singleton; reflexivity | discriminate].
Defined.

(** ** The frame callbacks of a session *)

Lemma filter_all {A} (P : A → Prop) `{∀ x, Decision (P x)} (l : list A) :
  Forall P l → filter P l = l.
Proof.
  induction 1 as [|x l Hx Hl IH]; [done|].
  rewrite filter_cons_True by done. by rewrite IH.
Qed.

Lemma NoDup_fst_filter {A B} (P : A * B → Prop) `{∀ x, Decision (P x)}
    (l : list (A * B)) :
  NoDup l.*1 → NoDup (filter P l).*1.
Proof.
  induction l as [|e l IH]; [done|].
  rewrite fmap_cons. intros [Hn Hd]%NoDup_cons. rewrite filter_cons.
  destruct (decide (P e)); [|by apply IH].
  rewrite fmap_cons. apply NoDup_cons. split; [|by apply IH].
  intros (e' & He & Hin)%list_elem_of_fmap. apply list_elem_of_filter in Hin as [_ Hin].
  apply Hn. apply list_elem_of_fmap. by exists e'.
Qed.

Lemma fresh_handle_unused (s : XRSession.t) :
  callbacksFresh s → XRSession._nextCallbackId s ∉ (XRSession._frameCallbacks s).*1.
Proof.
  intros [Hall _] (e & He & Hin)%list_elem_of_fmap.
  pose proof (proj1 (Forall_forall _ _) Hall e Hin) as Hlt. cbn in Hlt. lia.
Qed.

Lemma requestAnimationFrame_appends (callback : nat) (s : XRSession.t) :
  callbacksFresh s →
  XRSession._frameCallbacks (requestAnimationFrame callback s).2
  = XRSession._frameCallbacks s ++ [(XRSession._nextCallbackId s, callback)].
Proof.
  intros Hf. unfold requestAnimationFrame.
  cbn [snd XRSession.set_frameCallbacks XRSession._frameCallbacks].
  rewrite bool_decide_eq_false_2; [done|]. by apply fresh_handle_unused.
Qed.

Lemma requestAnimationFrame_fresh (callback : nat) (s : XRSession.t) :
  callbacksFresh s → callbacksFresh (requestAnimationFrame callback s).2.
Proof.
  intros Hf. pose proof (requestAnimationFrame_appends callback s Hf) as E.
  destruct Hf as [Hall Hnd]. unfold callbacksFresh. rewrite E.
  cbn [requestAnimationFrame snd XRSession.set_frameCallbacks XRSession._nextCallbackId].
  split.
  - apply Forall_app. split.
    + eapply Forall_impl; [exact Hall|]. cbn. intros. lia.
    + apply Forall_cons. split; [cbn; lia | constructor].
  - rewrite fmap_app. apply NoDup_app. split_and!; [done | | apply NoDup_singleton].
    intros x Hx Hx'. cbn in Hx'. apply list_elem_of_singleton in Hx'. subst x.
    by apply (fresh_handle_unused s).
Qed.

Lemma cancelAnimationFrame_fresh (id : nat) (s : XRSession.t) :
  callbacksFresh s → callbacksFresh (cancelAnimationFrame id s).
Proof.
  intros [Hall Hnd]. unfold callbacksFresh, cancelAnimationFrame.
  cbn [XRSession.set_frameCallbacks XRSession._frameCallbacks XRSession._nextCallbackId].
  split; [|by apply NoDup_fst_filter].
  apply Forall_forall. intros e [_ Hin]%list_elem_of_filter.
  by apply (proj1 (Forall_forall _ _) Hall).
Qed.

(** X17. On a session whose pending callbacks carry distinct handles below
    the next handle, [requestAnimationFrame] returns a handle that no
    pending callback carries and appends the callback under it, after the
    callbacks already pending; the next request returns another handle;
    [cancelAnimationFrame] of the handle just returned restores the
    pending callbacks as they were, and of a handle that is not pending
    changes none; after a cancellation the handle is not pending.  Both
    methods keep the handles distinct and below the next handle. *)
Theorem frame_callback_handles (callback : nat) (s : XRSession.t) :
  callbacksFresh s →
  ((requestAnimationFrame callback s).1 ∉ (XRSession._frameCallbacks s).*1)
  ∧ XRSession._frameCallbacks (requestAnimationFrame callback s).2
    = XRSession._frameCallbacks s ++ [((requestAnimationFrame callback s).1, callback)]
  ∧ callbacksFresh (requestAnimationFrame callback s).2
  ∧ (∀ callback', (requestAnimationFrame callback' (requestAnimationFrame callback s).2).1
                  ≠ (requestAnimationFrame callback s).1)
  ∧ XRSession._frameCallbacks
      (cancelAnimationFrame (requestAnimationFrame callback s).1
         (requestAnimationFrame callback s).2)
    = XRSession._frameCallbacks s
  ∧ (∀ id, id ∉ (XRSession._frameCallbacks s).*1 →
       XRSession._frameCallbacks (cancelAnimationFrame id s) = XRSession._frameCallbacks s)
  ∧ (∀ id, (id ∉ (XRSession._frameCallbacks (cancelAnimationFrame id s)).*1)
           ∧ callbacksFresh (cancelAnimationFrame id s)).
Proof.
  intros Hf. pose proof (fresh_handle_unused s Hf) as Hun.
  assert (Hother : ∀ id, id ∉ (XRSession._frameCallbacks s).*1 →
            filter (λ e : nat * nat, e.1 ≠ id) (XRSession._frameCallbacks s)
            = XRSession._frameCallbacks s).
  { intros id Hid. apply filter_all. apply Forall_forall. intros e Hin Heq.
    apply Hid. apply list_elem_of_fmap. by exists e. }
  split_and!.
  - exact Hun.
  - by apply requestAnimationFrame_appends.
  - by apply requestAnimationFrame_fresh.
  - intros callback'. cbn. lia.
  - unfold cancelAnimationFrame.
    cbn [XRSession.set_frameCallbacks XRSession._frameCallbacks].
    rewrite (requestAnimationFrame_appends callback s Hf).
    cbn [requestAnimationFrame fst]. rewrite filter_app, (Hother _ Hun).
    rewrite filter_cons_False by (cbn; tauto). rewrite filter_nil. apply app_nil_r.
  - intros id Hid. unfold cancelAnimationFrame.
    cbn [XRSession.set_frameCallbacks XRSession._frameCallbacks]. by apply Hother.
  - intros id. split; [|by apply cancelAnimationFrame_fresh].
    unfold cancelAnimationFrame.
    cbn [XRSession.set_frameCallbacks XRSession._frameCallbacks].
    intros (e & He & [Hp _]%list_elem_of_filter)%list_elem_of_fmap. by apply Hp.
Qed.

Lemma frame_callback_handles_witness :
  ∃ session,
    World.sessions (XRSession_new "immersive-vr"
                      {| XRSessionInit.requiredFeatures := None;
                         XRSessionInit.optionalFeatures := None |} initialWorld).2
      !! (XRSession_new "immersive-vr"
            {| XRSessionInit.requiredFeatures := None;
               XRSessionInit.optionalFeatures := None |} initialWorld).1
    = Some session
    ∧ callbacksFresh session
    ∧ XRSession._frameCallbacks (requestAnimationFrame 7 session).2 = [(1%nat, 7%nat)]
    ∧ XRSession._frameCallbacks
        (cancelAnimationFrame 1 (requestAnimationFrame 7 session).2) = [].
Proof.
  destruct (XRSession_new_session "immersive-vr"
              {| XRSessionInit.requiredFeatures := None;
                 XRSessionInit.optionalFeatures := None |} initialWorld)
    as (session & Hl & _ & _ & Hc & _).
  exists session.
  assert (Hf : callbacksFresh session)
    by (unfold callbacksFresh; rewrite Hc; split; constructor).
  assert (Hn : XRSession._nextCallbackId session = 1%nat).
  { unfold XRSession_new, window_requestAnimationFrame in Hl. cbn in Hl.
    rewrite lookup_insert_eq in Hl. by injection Hl as <-. }
  destruct (frame_callback_handles 7 session Hf) as (_ & Ha & _ & _ & Hcancel & _).
  split; [exact Hl|]. split; [exact Hf|]. split.
  - rewrite Ha, Hc. cbn [requestAnimationFrame fst]. by rewrite Hn.
  - cbn [requestAnimationFrame fst] in Hcancel. rewrite Hn in Hcancel.
    by rewrite Hcancel, Hc.
Defined.

(** ** Input sources never throw *)

Lemma detectGestures_total (hd : HandData.t) (src : XRInputSource.t) (s : nat) :
  XRInputSource._session src = Some s →
  ∃ src' events,
    _detectGestures hd src = Some (src', events)
    ∧ XRInputSource._handTrackingEnabled src' = XRInputSource._handTrackingEnabled src
    ∧ XRInputSource._session src' = Some s
    ∧ XRInputSource.hand src' = XRInputSource.hand src
    ∧ Forall (λ e, e.1 = s) events.
Proof.
  intros Hs. unfold _detectGestures.
  destruct (_ <? _)%nat; [by eauto 10|].
  destruct (_ !! 4%nat); [|by eauto 10]. destruct (_ !! 9%nat); [|by eauto 10].
  cbv zeta. rewrite Hs. cbn [mbind option_bind].
  destruct (_ && negb _).
  { eexists _, _. split; [reflexivity|]. split_and!; try done.
    apply Forall_cons. by split. }
  destruct (negb _ && _); [|by eauto 10].
  eexists _, _. split; [reflexivity|]. split_and!; try done.
  apply Forall_cons. by split.
Qed.

Lemma updateHand_total (handTrackingEnabled : bool) (s : nat)
    (data : option HandData.t) (src : XRInputSource.t) :
  sourceInvariant handTrackingEnabled s src →
  ∃ src' events,
    _updateHand data src = Some (src', events)
    ∧ sourceInvariant handTrackingEnabled s src'
    ∧ Forall (λ e, e.1 = s) events.
Proof.
  intros Hinv. pose proof Hinv as (Hte & Hs & Hh).
  assert (H1 : ∃ this1,
    (match XRInputSource.hand src with
     | Some h =>
         if XRInputSource._handTrackingEnabled src
         then h' ← XRHand_update data h; Some (XRInputSource.set_hand (Some h') src)
         else Some src
     | None => Some src
     end) = Some this1 ∧ sourceInvariant handTrackingEnabled s this1).
  { destruct (XRInputSource.hand src) as [h|] eqn:Eh; [|by exists src].
    rewrite Hte. destruct handTrackingEnabled; [|by exists src].
    destruct (Hh eq_refl) as (h0 & [= <-] & Hr).
    destruct (XRHand_update_total h data Hr) as (h' & -> & Hr' & _).
    eexists. split; [reflexivity|]. split_and!; try done.
    intros _. by exists h'. }
  destruct H1 as (this1 & E1 & Hinv1). pose proof Hinv1 as (Hte1 & Hs1 & Hh1).
  unfold _updateHand. rewrite E1. cbn [mbind option_bind].
  destruct data as [hd|];
    [|exists this1, []; split; [reflexivity|]; split; [exact Hinv1 | constructor]].
  destruct (HandData.joints hd !! 0%nat) as [wrist|];
    [|exists this1, []; split; [reflexivity|]; split; [exact Hinv1 | constructor]].
  cbv zeta.
  match goal with |- context [_updateGamepad hd ?x] =>
    destruct (updateGamepad_keeps hd x) as (Kte & Kh & Ks & _);
    set (this3 := _updateGamepad hd x) in *
  end.
  cbn [XRInputSource.set_spaces XRInputSource._handTrackingEnabled XRInputSource.hand
       XRInputSource._session] in Kte, Kh, Ks.
  assert (H3 : sourceInvariant handTrackingEnabled s this3).
  { split_and!; [congruence | congruence |]. rewrite Kh. exact Hh1. }
  destruct (negb _ && _);
    [|exists this3, []; split; [reflexivity|]; split; [exact H3 | constructor]].
  destruct (detectGestures_total hd this3 s (proj1 (proj2 H3)))
    as (src' & events & -> & Dte & Ds & Dh & Dev).
  eexists _, _. split; [reflexivity|]. split; [|exact Dev].
  destruct H3 as (H3a & H3b & H3c). split_and!; [congruence | done |].
  rewrite Dh. exact H3c.
Qed.

Lemma updateSide_total (side : Handedness) (handTrackingEnabled : bool) (s : nat)
    (data : option HandData.t) (source : option XRInputSource.t) (active : bool) :
  (active = true → is_Some source) →
  (∀ src, source = Some src → sourceInvariant handTrackingEnabled s src) →
  ∃ u, updateSide side handTrackingEnabled (Some s) data source active = Some u
       ∧ (SideUpdate.active u = true → is_Some (SideUpdate.source u))
       ∧ (∀ src, SideUpdate.source u = Some src →
            sourceInvariant handTrackingEnabled s src)
       ∧ Forall (λ e, e.1 = s) (SideUpdate.events u).
Proof.
  intros Hact Hsrc.
  assert (Hnew : sourceInvariant handTrackingEnabled s
                   (unupdatedSource side handTrackingEnabled (Some s) data)).
  { split_and!; [done | done |]. intros ->. eexists. split; [reflexivity | constructor]. }
  unfold updateSide.
  destruct (_ && negb active).
  { destruct source as [src|].
    - destruct (updateHand_total _ s data src (Hsrc src eq_refl))
        as (src' & events & -> & Hi & Hev).
      eexists. split; [reflexivity|]. cbn. split_and!; [by eauto | | done].
      by intros ? [= <-].
    - change (XRInputSource_new side data handTrackingEnabled (Some s))
        with (_updateHand data (unupdatedSource side handTrackingEnabled (Some s) data)).
      destruct (updateHand_total _ s data _ Hnew) as (src' & events & -> & Hi & Hev).
      eexists. split; [reflexivity|]. cbn. split_and!; [by eauto | | done].
      by intros ? [= <-]. }
  destruct (negb _ && active) eqn:Ed.
  { apply andb_true_iff in Ed as [_ ->].
    destruct (Hact eq_refl) as [src Es]. subst source.
    pose proof (Hsrc src eq_refl) as (Hte & Hs & Hh).
    destruct (negb handTrackingEnabled) eqn:En; cbn [mbind option_bind].
    - destruct (default false (XRInputSource._isPinching src)).
      + eexists. split; [reflexivity|]. cbn. split_and!; [done | |].
        * intros ? [= <-]. split_and!; try done.
        * apply Forall_cons. by split.
      + eexists. split; [reflexivity|]. cbn. split_and!; [done | | done].
        intros ? [= <-]. by split_and!.
    - eexists. split; [reflexivity|]. cbn. split_and!; [done | | done].
      intros ? [= <-]. by split_and!. }
  destruct source as [src|]; [|by eexists; split; [reflexivity | cbn; split_and!]].
  destruct (match data with Some d => HandData.visible d | None => false end).
  - destruct (updateHand_total _ s data src (Hsrc src eq_refl))
      as (src' & events & -> & Hi & Hev).
    eexists. split; [reflexivity|]. cbn. split_and!; [by eauto | | done].
    by intros ? [= <-].
  - eexists. split; [reflexivity|]. cbn. split_and!; [by eauto | done | done].
Qed.

Lemma update_total (s : nat) (leftData rightData : option HandData.t)
    (arr : XRInputSourceArray.t) :
  arrayInvariant s arr →
  ∃ arr' events,
    XRInputSourceArray_update leftData rightData arr = Some (arr', events)
    ∧ arrayInvariant s arr'
    ∧ Forall (λ e, e.1 = s) events.
Proof.
  intros (Hs & Hla & Hra & Hl & Hr). unfold XRInputSourceArray_update. rewrite Hs.
  destruct (updateSide_total left_hand (XRInputSourceArray._handTrackingEnabled arr) s
              leftData _ _ Hla Hl) as (l & -> & Hla' & Hl' & Hel).
  destruct (updateSide_total right_hand (XRInputSourceArray._handTrackingEnabled arr) s
              rightData _ _ Hra Hr) as (r & -> & Hra' & Hr' & Her).
  cbn [mbind option_bind]. eexists _, _. split; [reflexivity|]. split.
  - split_and!; done.
  - apply Forall_app. split; [done|]. apply Forall_app. split; [done|].
    destruct (_ || _); [|constructor]. apply Forall_cons. by split.
Qed.

(** ** The states a page can reach *)

Ltac world_simpl :=
  unfold World.set_videoElement, World.set_isTracking, World.set_currentSession,
    World.set_sessions, World.set_animationFrames, World.set_trackingStarts,
    World.set_tracking, World.set_dispatched, startCamera,
    window_cancelAnimationFrame, window_requestAnimationFrame;
  cbn [World.videoElement World.isTracking World.currentSession World.head
       World.leftHandData World.rightHandData World.stereo World.sessions
       World.animationFrames World.nextAnimationFrame World.stoppedStreams
       World.trackingStarts World.dispatched fst snd entryWorld].

Lemma sessionInvariant_mono (n n' s : nat) (session : XRSession.t) :
  (n <= n')%nat → sessionInvariant n s session → sessionInvariant n' s session.
Proof.
  intros Hle (Hc & Ha & Hid). split_and!; [done | done |].
  intros id E. specialize (Hid id E). lia.
Qed.

Lemma worldInvariant_initial : worldInvariant initialWorld.
Proof.
  unfold worldInvariant, initialWorld. simpl. split_and!.
  - split; [discriminate | by intros [? ?]].
  - discriminate.
  - lia.
  - intros id s H. by rewrite lookup_empty in H.
  - intros s session H. by rewrite lookup_empty in H.
Qed.

Lemma worldInvariant_requestSession (mode : string) (options : XRSessionInit.t)
    (w : World.t) :
  worldInvariant w → worldInvariant (requestSession mode options w).2.
Proof.
  intros Hw. pose proof Hw as (Ht & Hc & Hn & Hf & Hs).
  unfold requestSession. destruct (World.currentSession w) eqn:Ec; [exact Hw|].
  unfold XRSession_new, window_requestAnimationFrame. cbv zeta. cbn [fst snd].
  set (this := fresh (dom (World.sessions w))). unfold worldInvariant. world_simpl.
  split_and!.
  - split; [by eauto | done].
  - intros s [= <-]. rewrite lookup_insert_eq. by eexists.
  - lia.
  - intros id s H. destruct (decide (id = World.nextAnimationFrame w)) as [->|Hne].
    + rewrite lookup_insert_eq in H. injection H as <-. split; [lia|].
      rewrite lookup_insert_eq. by eexists.
    + rewrite lookup_insert_ne in H by done. destruct (Hf id s H) as [Hlt Hin].
      split; [lia|]. destruct (decide (s = this)) as [->|Hne'].
      * rewrite lookup_insert_eq. by eexists.
      * by rewrite lookup_insert_ne.
  - intros s session H. destruct (decide (s = this)) as [->|Hne].
    + rewrite lookup_insert_eq in H. injection H as <-.
      split_and!.
      * split; constructor.
      * split_and!; done.
      * simpl. intros id [= <-]. lia.
    + rewrite lookup_insert_ne in H by done.
      eapply sessionInvariant_mono; [|by apply Hs]. lia.
Qed.

Lemma worldInvariant_end (this : nat) (w w' : World.t) :
  worldInvariant w → XRSession_end this w = Some w' → worldInvariant w'.
Proof.
  intros (Ht & Hc & Hn & Hf & Hs) He.
  destruct (World.sessions w !! this) as [session|] eqn:E;
    [|unfold XRSession_end in He; by rewrite E in He].
  destruct (XRSession_end_spec this session w E)
    as (w1 & He' & Hss & Htr & Hfr & Hnx & _ & _ & Hcur & _).
  rewrite He in He'. injection He' as <-.
  unfold worldInvariant. rewrite Hss, Htr, Hnx, Hcur.
  split_and!.
  - split; [discriminate | by intros [? ?]].
  - discriminate.
  - exact Hn.
  - intros id s H.
    assert (H' : World.animationFrames w !! id = Some s).
    { rewrite Hfr in H. destruct (XRSession._animationFrameId session) as [i|]; [|done].
      destruct (i =? 0)%nat; [done|]. by apply lookup_delete_Some in H as [_ H]. }
    destruct (Hf id s H') as [Hlt Hin]. split; [done|].
    destruct (decide (s = this)) as [->|Hne].
    + rewrite lookup_insert_eq. by eexists.
    + by rewrite lookup_insert_ne.
  - intros s session' H. destruct (decide (s = this)) as [->|Hne].
    + rewrite lookup_insert_eq in H. injection H as <-. exact (Hs this session E).
    + rewrite lookup_insert_ne in H by done. by apply Hs.
Qed.

Lemma worldInvariant_loop_enter (id : nat)
    (camera : option (FaceResult * option (list HandResult.t)))
    (w : World.t) (r : LoopEntry) :
  worldInvariant w → loop_enter id camera w = Some r → worldInvariant (entryWorld r).
Proof.
  intros (Ht & Hc & Hn & Hf & Hs) He. unfold loop_enter in He.
  destruct (World.animationFrames w !! id) as [this|] eqn:Ef; [|discriminate He].
  cbn [mbind option_bind] in He.
  destruct (World.sessions w !! this) as [session|] eqn:E; [|discriminate He].
  cbn [mbind option_bind] in He.
  assert (Hsub : ∀ id' s, delete id (World.animationFrames w) !! id' = Some s →
            (id' < World.nextAnimationFrame w)%nat ∧ is_Some (World.sessions w !! s)).
  { intros id' s H. apply lookup_delete_Some in H as [_ H]. by apply Hf. }
  destruct (XRSession._ended session) eqn:Eend.
  { injection He as <-. unfold worldInvariant. world_simpl. by split_and!. }
  set (w1 := window_cancelAnimationFrame id w) in *.
  destruct (match camera with
            | Some c => t ← processFrame c.1 c.2 (World.head w1);
                        Some (World.set_tracking t.1.1 t.1.2 t.2 w1)
            | None => Some w1
            end) as [w2|] eqn:E2; [|discriminate He].
  cbn [mbind option_bind] in He.
  assert (Hw2 : World.isTracking w2 = World.isTracking w
                ∧ World.currentSession w2 = World.currentSession w
                ∧ World.sessions w2 = World.sessions w
                ∧ World.animationFrames w2 = delete id (World.animationFrames w)
                ∧ World.nextAnimationFrame w2 = World.nextAnimationFrame w).
  { destruct camera as [c|].
    - destruct (processFrame c.1 c.2 (World.head w1)) as [t|]; [|discriminate E2].
      injection E2 as <-. subst w1. world_simpl. by split_and!.
    - injection E2 as <-. subst w1. world_simpl. by split_and!. }
  destruct Hw2 as (Wt & Wc & Ws & Wf & Wn).
  destruct (Hs this session E) as (Hcb & Harr & Hid).
  destruct (update_total this (World.leftHandData w2) (World.rightHandData w2) _ Harr)
    as (arr' & events & Eu & Harr' & _).
  rewrite Eu in He. cbn [mbind option_bind fst snd] in He. injection He as <-.
  unfold worldInvariant. world_simpl. rewrite Wt, Wc, Ws, Wf, Wn.
  split_and!.
  - exact Ht.
  - intros s Hcs. destruct (Hc s Hcs) as (session0 & E0 & Hend0).
    destruct (decide (s = this)) as [->|Hne].
    + rewrite lookup_insert_eq. eexists. split; [reflexivity|]. simpl.
      rewrite E in E0. by injection E0 as <-.
    + rewrite lookup_insert_ne by done. by exists session0.
  - exact Hn.
  - intros id' s H. destruct (Hsub id' s H) as [Hlt Hin]. split; [done|].
    destruct (decide (s = this)) as [->|Hne].
    + rewrite lookup_insert_eq. by eexists.
    + by rewrite lookup_insert_ne.
  - intros s session' H. destruct (decide (s = this)) as [->|Hne].
    + rewrite lookup_insert_eq in H. injection H as <-.
      split_and!; [split; constructor | exact Harr' | exact Hid].
    + rewrite lookup_insert_ne in H by done. by apply Hs.
Qed.

Lemma worldInvariant_loop_leave (this : nat) (w w' : World.t) :
  worldInvariant w → loop_leave this w = Some w' → worldInvariant w'.
Proof.
  intros (Ht & Hc & Hn & Hf & Hs) He. unfold loop_leave in He.
  destruct (World.sessions w !! this) as [session|] eqn:E; [|discriminate He].
  cbn [mbind option_bind] in He. unfold window_requestAnimationFrame in He.
  injection He as <-. unfold worldInvariant. world_simpl.
  split_and!.
  - exact Ht.
  - intros s Hcs. destruct (Hc s Hcs) as (session0 & E0 & Hend0).
    destruct (decide (s = this)) as [->|Hne].
    + rewrite lookup_insert_eq. eexists. split; [reflexivity|]. simpl.
      rewrite E in E0. by injection E0 as <-.
    + rewrite lookup_insert_ne by done. by exists session0.
  - lia.
  - intros id s H. destruct (decide (id = World.nextAnimationFrame w)) as [->|Hne].
    + rewrite lookup_insert_eq in H. injection H as <-. split; [lia|].
      rewrite lookup_insert_eq. by eexists.
    + rewrite lookup_insert_ne in H by done. destruct (Hf id s H) as [Hlt Hin].
      split; [lia|]. destruct (decide (s = this)) as [->|Hne'].
      * rewrite lookup_insert_eq. by eexists.
      * by rewrite lookup_insert_ne.
  - intros s session' H. destruct (decide (s = this)) as [->|Hne].
    + rewrite lookup_insert_eq in H. injection H as <-.
      destruct (Hs this session E) as (Hcb & Harr & Hid).
      split_and!; [exact Hcb | exact Harr |]. simpl. intros id [= <-]. lia.
    + rewrite lookup_insert_ne in H by done.
      eapply sessionInvariant_mono; [|by apply Hs]. lia.
Qed.

Lemma sessionInvariant_call (n s : nat) (c : SessionCall) (session : XRSession.t) :
  sessionInvariant n s session → sessionInvariant n s (sessionCall c session).
Proof.
  intros (Hcb & Harr & Hid). destruct c as [callback | id | type]; cbn [sessionCall].
  - split_and!; [by apply requestAnimationFrame_fresh | exact Harr | exact Hid].
  - split_and!; [by apply cancelAnimationFrame_fresh | exact Harr | exact Hid].
  - unfold requestReferenceSpace.
    destruct (XRSession._referenceSpaces session !! type); by split_and!.
Qed.

Lemma sessionCall_ended (c : SessionCall) (session : XRSession.t) :
  XRSession._ended (sessionCall c session) = XRSession._ended session.
Proof.
  destruct c as [callback | id | type]; cbn [sessionCall]; [done | done |].
  unfold requestReferenceSpace. by destruct (XRSession._referenceSpaces session !! type).
Qed.

Lemma worldInvariant_sessionCall (this : nat) (session : XRSession.t) (c : SessionCall)
    (w : World.t) :
  worldInvariant w → World.sessions w !! this = Some session →
  worldInvariant (World.set_sessions (<[this := sessionCall c session]> (World.sessions w)) w).
Proof.
  intros (Ht & Hc & Hn & Hf & Hs) E. unfold worldInvariant. world_simpl.
  split_and!.
  - exact Ht.
  - intros s Hcs. destruct (Hc s Hcs) as (session0 & E0 & Hend0).
    destruct (decide (s = this)) as [->|Hne].
    + rewrite lookup_insert_eq. eexists. split; [reflexivity|].
      rewrite sessionCall_ended. rewrite E in E0. by injection E0 as <-.
    + rewrite lookup_insert_ne by done. by exists session0.
  - exact Hn.
  - intros id s H. destruct (Hf id s H) as [Hlt Hin]. split; [done|].
    destruct (decide (s = this)) as [->|Hne].
    + rewrite lookup_insert_eq. by eexists.
    + by rewrite lookup_insert_ne.
  - intros s session' H. destruct (decide (s = this)) as [->|Hne].
    + rewrite lookup_insert_eq in H. injection H as <-.
      apply sessionInvariant_call. by apply Hs.
    + rewrite lookup_insert_ne in H by done. by apply Hs.
Qed.

Lemma worldInvariant_step (w w' : World.t) :
  worldInvariant w → step w w' → worldInvariant w'.
Proof.
  intros Hw Hstep. destruct Hstep.
  - by apply worldInvariant_requestSession.
  - by eapply worldInvariant_end.
  - unfold worldInvariant in *. by world_simpl.
  - by eapply worldInvariant_loop_enter.
  - by eapply worldInvariant_loop_leave.
  - by apply worldInvariant_sessionCall.
Qed.

(** X18. In every state a page can reach by requesting sessions, ending
    session objects (any of them, any number of times), calling
    [requestAnimationFrame], [cancelAnimationFrame] and
    [requestReferenceSpace] on them, and by the camera starting and the
    window firing frames: tracking is on exactly while there is an active
    session; the active session is a session object that has not ended;
    every pending animation frame belongs to a session object and the
    handle a session has recorded is never 0; the pending callbacks of
    every session carry distinct handles; and the input sources of every
    session dispatch on that session. *)
Theorem reachable_states_keep_the_invariant (w : World.t) :
  reachable w → worldInvariant w.
Proof.
  unfold reachable. intros H.
  apply (rtc_ind_r (R := step) worldInvariant initialWorld worldInvariant_initial);
    [|exact H].
  intros w1 w2 _ Hstep IH. by eapply worldInvariant_step.
Qed.

Lemma reachable_states_keep_the_invariant_witness :
  reachable (requestSession "immersive-vr"
               {| XRSessionInit.requiredFeatures := None;
                  XRSessionInit.optionalFeatures := Some ["hand-tracking"%string] |}
               initialWorld).2
  ∧ worldInvariant (requestSession "immersive-vr"
                      {| XRSessionInit.requiredFeatures := None;
                         XRSessionInit.optionalFeatures := Some ["hand-tracking"%string] |}
                      initialWorld).2.
Proof.
  assert (H : reachable (requestSession "immersive-vr"
                           {| XRSessionInit.requiredFeatures := None;
                              XRSessionInit.optionalFeatures := Some ["hand-tracking"%string] |}
                           initialWorld).2)
    by (apply rtc_once; constructor).
  split; [exact H|]. exact (reachable_states_keep_the_invariant _ H).
Defined.

(** ** The frame loop *)

Lemma processFrame_total (face : FaceResult) (hands : option (list HandResult.t))
    (h : HeadState) :
  cameraWellFormed (Some (face, hands)) → is_Some (processFrame face hands h).
Proof.
  intros [Hface Hall]. unfold processFrame.
  assert (Hh : ∃ h', (match face with
                      | FaceMatrix m => Some (updateHeadFromMatrix m h)
                      | FaceLandmarks l => updateHeadFromLandmarks l h
                      | NoFace => Some h
                      end) = Some h').
  { destruct face as [m | l |]; [by eexists | | by eexists].
    unfold updateHeadFromLandmarks. destruct Hface as [nose ->]. by eexists. }
  destruct Hh as [h' ->]. cbn [mbind option_bind].
  rewrite (processHands_last _ _ None None Hall). by eexists.
Qed.

(** X19. In a state that satisfies the invariant of the reachable states,
    firing a pending animation frame never throws, whether the camera has
    a new frame (with a well-formed answer of the detectors) or not.  The
    frame is no longer pending afterwards.  If the session of the frame
    has ended the loop returns and nothing else changes.  Otherwise the
    callbacks handed to the application are the pending callbacks of the
    session, in the order of their registration, and the session has no
    pending callback left, so that none is called twice; the events
    dispatched are dispatched on this session; and the turn of the loop
    then ends by requesting the next frame for this session. *)
Theorem frame_loop_never_throws (id this : nat)
    (camera : option (FaceResult * option (list HandResult.t))) (w : World.t) :
  worldInvariant w →
  World.animationFrames w !! id = Some this →
  cameraWellFormed camera →
  ∃ session r,
    World.sessions w !! this = Some session
    ∧ loop_enter id camera w = Some r
    ∧ worldInvariant (entryWorld r)
    ∧ World.animationFrames (entryWorld r) = delete id (World.animationFrames w)
    ∧ if XRSession._ended session
      then r = LoopReturned (window_cancelAnimationFrame id w)
      else ∃ w' session' events w'',
             r = LoopCalls (XRSession._frameCallbacks session) w'
             ∧ World.sessions w' !! this = Some session'
             ∧ XRSession._frameCallbacks session' = []
             ∧ XRSession._nextCallbackId session' = XRSession._nextCallbackId session
             ∧ XRSession._ended session' = false
             ∧ World.dispatched w' = World.dispatched w ++ events
             ∧ Forall (λ e, e.1 = this) events
             ∧ loop_leave this w' = Some w''
             ∧ World.animationFrames w'' !! World.nextAnimationFrame w = Some this
             ∧ worldInvariant w''.
Proof.
  intros Hw Hfr Hcam. pose proof Hw as (Ht & Hc & Hn & Hf & Hs).
  destruct (Hf id this Hfr) as [_ [session E]]. exists session.
  destruct (loop_enter id camera w) as [r|] eqn:Er.
  - exists r. pose proof (worldInvariant_loop_enter id camera w r Hw Er) as Hr.
    split; [exact E|]. split; [reflexivity|]. split; [exact Hr|].
    unfold loop_enter in Er. rewrite Hfr in Er. cbn [mbind option_bind] in Er.
    rewrite E in Er. cbn [mbind option_bind] in Er.
    destruct (XRSession._ended session) eqn:Eend.
    { injection Er as <-. split; reflexivity. }
    set (w1 := window_cancelAnimationFrame id w) in *.
    destruct (match camera with
              | Some c => t ← processFrame c.1 c.2 (World.head w1);
                          Some (World.set_tracking t.1.1 t.1.2 t.2 w1)
              | None => Some w1
              end) as [w2|] eqn:E2; [|discriminate Er].
    cbn [mbind option_bind] in Er.
    assert (Hw2 : World.sessions w2 = World.sessions w
                  ∧ World.animationFrames w2 = delete id (World.animationFrames w)
                  ∧ World.nextAnimationFrame w2 = World.nextAnimationFrame w
                  ∧ World.dispatched w2 = World.dispatched w).
    { destruct camera as [c|].
      - destruct (processFrame c.1 c.2 (World.head w1)) as [t|]; [|discriminate E2].
        injection E2 as <-. subst w1. world_simpl. by split_and!.
      - injection E2 as <-. subst w1. world_simpl. by split_and!. }
    destruct Hw2 as (Ws & Wf & Wn & Wd).
    destruct (Hs this session E) as (Hcb & Harr & Hid).
    destruct (update_total this (World.leftHandData w2) (World.rightHandData w2) _ Harr)
      as (arr' & events & Eu & Harr' & Hev).
    rewrite Eu in Er. cbn [mbind option_bind fst snd] in Er. injection Er as <-.
    cbn [entryWorld] in Hr |- *.
    match type of Hr with worldInvariant ?x => set (w' := x) in * end.
    assert (Es' : World.sessions w' !! this
                  = Some (XRSession.set_frameCallbacks [] (XRSession._nextCallbackId session)
                            (XRSession.set_inputSources arr' session))).
    { subst w'. world_simpl. rewrite Ws. apply lookup_insert_eq. }
    split; [subst w'; world_simpl; exact Wf|].
    destruct (loop_leave this w') as [w''|] eqn:El;
      [|unfold loop_leave in El; rewrite Es' in El; discriminate El].
    exists w', (XRSession.set_frameCallbacks [] (XRSession._nextCallbackId session)
                  (XRSession.set_inputSources arr' session)), events, w''.
    split_and!; try reflexivity.
    + exact Es'.
    + exact Eend.
    + subst w'. world_simpl. by rewrite Wd.
    + exact Hev.
    + exact El.
    + unfold loop_leave in El. rewrite Es' in El. cbn [mbind option_bind] in El.
      injection El as <-. subst w'. world_simpl. rewrite Wn. apply lookup_insert_eq.
    + by apply (worldInvariant_loop_leave this w' w'' Hr).
  - exfalso. unfold loop_enter in Er. rewrite Hfr in Er. cbn [mbind option_bind] in Er.
    rewrite E in Er. cbn [mbind option_bind] in Er.
    destruct (XRSession._ended session); [discriminate Er|].
    destruct camera as [[face hands]|].
    + destruct (processFrame_total face hands
                  (World.head (window_cancelAnimationFrame id w)) Hcam) as [t Et].
      cbn [fst snd] in Er. rewrite Et in Er. cbn [mbind option_bind] in Er.
      destruct (Hs this session E) as (_ & Harr & _).
      match type of Er with context [XRInputSourceArray_update ?l ?r ?a] =>
        destruct (update_total this l r a Harr) as (arr' & events & Eu & _)
      end.
      rewrite Eu in Er. discriminate Er.
    + cbn [mbind option_bind] in Er.
      destruct (Hs this session E) as (_ & Harr & _).
      match type of Er with context [XRInputSourceArray_update ?l ?r ?a] =>
        destruct (update_total this l r a Harr) as (arr' & events & Eu & _)
      end.
      rewrite Eu in Er. discriminate Er.
Qed.

Lemma requestSession_returns (mode : string) (options : XRSessionInit.t) (w : World.t) :
  World.currentSession w = None →
  (requestSession mode options w).1 = Returned (XRSession_new mode options w).1
  ∧ World.currentSession (requestSession mode options w).2
    = Some (XRSession_new mode options w).1
  ∧ World.sessions (requestSession mode options w).2
    = World.sessions (XRSession_new mode options w).2
  ∧ World.animationFrames (requestSession mode options w).2
    = World.animationFrames (XRSession_new mode options w).2
  ∧ (∀ other, other ≠ (XRSession_new mode options w).1 →
       World.sessions (XRSession_new mode options w).2 !! other
       = World.sessions w !! other).
Proof.
  intros Ec. unfold requestSession. rewrite Ec.
  unfold XRSession_new, window_requestAnimationFrame. cbv zeta. cbn [fst snd].
  world_simpl. split_and!; try reflexivity.
  intros other Hne. by rewrite lookup_insert_ne.
Qed.

Lemma frame_loop_never_throws_witness :
  ∃ w this session r,
    w = (requestSession "immersive-vr"
           {| XRSessionInit.requiredFeatures := None;
              XRSessionInit.optionalFeatures := None |} initialWorld).2
    ∧ worldInvariant w
    ∧ World.animationFrames w !! 1%nat = Some this
    ∧ cameraWellFormed None
    ∧ World.sessions w !! this = Some session
    ∧ loop_enter 1 None w = Some r.
Proof.
  set (options := {| XRSessionInit.requiredFeatures := None;
                     XRSessionInit.optionalFeatures := None |}).
  set (w := (requestSession "immersive-vr" options initialWorld).2).
  assert (Hw : worldInvariant w)
    by (apply worldInvariant_requestSession, worldInvariant_initial).
  destruct (requestSession_returns "immersive-vr" options initialWorld eq_refl)
    as (_ & _ & _ & Ef & _).
  destruct (XRSession_new_session "immersive-vr" options initialWorld)
    as (session0 & _ & _ & _ & _ & _ & _ & Hfr0).
  assert (Hfr : World.animationFrames w
                  !! 1%nat = Some (XRSession_new "immersive-vr" options initialWorld).1)
    by (subst w; rewrite Ef; exact Hfr0).
  destruct (frame_loop_never_throws 1 _ None w Hw Hfr I)
    as (session & r & Es & Er & _).
  exists w, (XRSession_new "immersive-vr" options initialWorld).1, session, r.
  split; [reflexivity|]. split; [exact Hw|]. split; [exact Hfr|]. split; [exact I|].
  split; [exact Es | exact Er].
Defined.

(** ** Ending sessions *)

(** X20. [end()] called on a session object that is not the active session
    (an object the application still holds from before) still turns
    tracking off, stops the camera and clears the active session, while
    the session that was active is left as it was, neither ended nor told:
    the only event is the 'end' event of the object [end()] was called
    on.  A session can then be requested again, and the new session is
    another object than the one that was active. *)
Theorem end_on_another_session_clears_the_active_one (mode : string)
    (options : XRSessionInit.t) (other active : nat) (sOther sActive : XRSession.t)
    (w : World.t) :
  other ≠ active →
  World.currentSession w = Some active →
  World.sessions w !! other = Some sOther →
  World.sessions w !! active = Some sActive →
  ∃ w1 created,
    XRSession_end other w = Some w1
    ∧ World.currentSession w1 = None
    ∧ World.isTracking w1 = false
    ∧ World.videoElement w1 = None
    ∧ World.sessions w1 !! active = Some sActive
    ∧ World.dispatched w1 = World.dispatched w ++ [(other, XRSessionEvent "end")]
    ∧ (requestSession mode options w1).1 = Returned created
    ∧ created ≠ active
    ∧ World.currentSession (requestSession mode options w1).2 = Some created
    ∧ World.sessions (requestSession mode options w1).2 !! active = Some sActive.
Proof.
  intros Hne Hcur Eo Ea.
  destruct (XRSession_end_spec other sOther w Eo)
    as (w1 & He & Hss & Htr & _ & _ & Hv & _ & Hc1 & Hd & _).
  assert (Ea1 : World.sessions w1 !! active = Some sActive)
    by (rewrite Hss, lookup_insert_ne; done).
  destruct (requestSession_returns mode options w1 Hc1) as (Hr & Hc2 & Hs2 & _ & Hoth).
  assert (Hnew : (XRSession_new mode options w1).1 ≠ active).
  { intros Heq. pose proof (XRSession_new_fresh mode options w1) as Hfresh.
    rewrite Heq, Ea1 in Hfresh. discriminate Hfresh. }
  exists w1, (XRSession_new mode options w1).1. split_and!; try done.
  rewrite Hs2, Hoth by done. exact Ea1.
Qed.

Lemma end_on_another_session_clears_the_active_one_witness :
  ∃ first second w sSecond w1,
    first ≠ second
    ∧ reachable w
    ∧ World.currentSession w = Some second
    ∧ World.sessions w !! second = Some sSecond
    ∧ XRSession._ended sSecond = false
    ∧ XRSession_end first w = Some w1
    ∧ World.currentSession w1 = None
    ∧ World.isTracking w1 = false
    ∧ World.sessions w1 !! second = Some sSecond.
Proof.
  set (options := {| XRSessionInit.requiredFeatures := None;
                     XRSessionInit.optionalFeatures := None |}).
  set (w1 := (requestSession "immersive-vr" options initialWorld).2).
  set (first := (XRSession_new "immersive-vr" options initialWorld).1).
  destruct (requestSession_returns "immersive-vr" options initialWorld eq_refl)
    as (_ & _ & Hs1 & _ & _).
  destruct (XRSession_new_session "immersive-vr" options initialWorld)
    as (sFirst & El1 & _).
  assert (E1 : World.sessions w1 !! first = Some sFirst)
    by (subst w1 first; rewrite Hs1; exact El1).
  destruct (XRSession_end_spec first sFirst w1 E1)
    as (w2 & He2 & Hss2 & _ & _ & _ & _ & _ & Hc2 & _).
  set (w3 := (requestSession "immersive-vr" options w2).2).
  set (second := (XRSession_new "immersive-vr" options w2).1).
  destruct (requestSession_returns "immersive-vr" options w2 Hc2)
    as (_ & Hc3 & Hs3 & _ & Hoth3).
  destruct (XRSession_new_session "immersive-vr" options w2)
    as (sSecond & El3 & _ & Hend3 & _).
  assert (E2first : World.sessions w2 !! first = Some (XRSession.set_ended true sFirst))
    by (rewrite Hss2; apply lookup_insert_eq).
  assert (Hne : first ≠ second).
  { intros Heq. pose proof (XRSession_new_fresh "immersive-vr" options w2) as Hfresh.
    fold second in Hfresh. rewrite <- Heq, E2first in Hfresh. discriminate Hfresh. }
  assert (E3first : World.sessions w3 !! first = Some (XRSession.set_ended true sFirst))
    by (subst w3; rewrite Hs3, Hoth3 by exact Hne; exact E2first).
  assert (E3second : World.sessions w3 !! second = Some sSecond)
    by (subst w3 second; rewrite Hs3; exact El3).
  destruct (end_on_another_session_clears_the_active_one "immersive-vr" options
              first second _ sSecond w3 Hne Hc3 E3first E3second)
    as (w4 & created & He4 & Hc4 & Ht4 & _ & Es4 & _).
  exists first, second, w3, sSecond, w4.
  split; [exact Hne|]. split.
  { unfold reachable. eapply rtc_l; [apply (step_requestSession "immersive-vr" options)|].
    fold w1. eapply rtc_l; [apply (step_end first w1 w2 He2)|].
    apply rtc_once. apply (step_requestSession "immersive-vr" options). }
  split; [exact Hc3|]. split; [exact E3second|]. split; [exact Hend3|].
  split; [exact He4|]. split; [exact Hc4|]. split; [exact Ht4 | exact Es4].
Defined.

Lemma step_keeps_ended (this : nat) (s : XRSession.t) (w w' : World.t) :
  step w w' →
  World.sessions w !! this = Some s → XRSession._ended s = true →
  ∃ s', World.sessions w' !! this = Some s' ∧ XRSession._ended s' = true.
Proof.
  intros Hstep E Hend. destruct Hstep as [mode options w | this0 w w' He | stream w
    | id camera w r He | this0 w w' He | this0 session c w E0].
  - destruct (World.currentSession w) eqn:Ec.
    + unfold requestSession. rewrite Ec. by exists s.
    + destruct (requestSession_returns mode options w Ec) as (_ & _ & -> & _ & Hoth).
      exists s. split; [|done]. rewrite Hoth; [done|].
      intros ->. by rewrite XRSession_new_fresh in E.
  - destruct (World.sessions w !! this0) as [s0|] eqn:E0;
      [|unfold XRSession_end in He; by rewrite E0 in He].
    destruct (XRSession_end_spec this0 s0 w E0) as (w1 & He' & Hss & _).
    rewrite He in He'. injection He' as <-. rewrite Hss.
    destruct (decide (this = this0)) as [->|Hne].
    + rewrite lookup_insert_eq. by eexists.
    + rewrite lookup_insert_ne by done. by exists s.
  - exists s. by world_simpl.
  - unfold loop_enter in He.
    destruct (World.animationFrames w !! id) as [this0|]; [|discriminate He].
    cbn [mbind option_bind] in He.
    destruct (World.sessions w !! this0) as [s0|] eqn:E0; [|discriminate He].
    cbn [mbind option_bind] in He.
    destruct (XRSession._ended s0) eqn:Eend0.
    { injection He as <-. exists s. by world_simpl. }
    set (w1 := window_cancelAnimationFrame id w) in *.
    destruct (match camera with
              | Some c => t ← processFrame c.1 c.2 (World.head w1);
                          Some (World.set_tracking t.1.1 t.1.2 t.2 w1)
              | None => Some w1
              end) as [w2|] eqn:E2; [|discriminate He].
    cbn [mbind option_bind] in He.
    assert (Ws : World.sessions w2 = World.sessions w).
    { destruct camera as [c|].
      - destruct (processFrame c.1 c.2 (World.head w1)) as [t|]; [|discriminate E2].
        injection E2 as <-. subst w1. by world_simpl.
      - injection E2 as <-. subst w1. by world_simpl. }
    destruct (XRInputSourceArray_update _ _ _) as [u|]; [|discriminate He].
    cbn [mbind option_bind] in He. injection He as <-. world_simpl. rewrite Ws.
    destruct (decide (this = this0)) as [->|Hne].
    + rewrite E in E0. injection E0 as <-. congruence.
    + rewrite lookup_insert_ne by done. by exists s.
  - unfold loop_leave in He.
    destruct (World.sessions w !! this0) as [s0|] eqn:E0; [|discriminate He].
    cbn [mbind option_bind] in He. unfold window_requestAnimationFrame in He.
    injection He as <-. world_simpl.
    destruct (decide (this = this0)) as [->|Hne].
    + rewrite lookup_insert_eq. eexists. split; [reflexivity|].
      rewrite E in E0. by injection E0 as <-.
    + rewrite lookup_insert_ne by done. by exists s.
  - world_simpl. destruct (decide (this = this0)) as [->|Hne].
    + rewrite lookup_insert_eq. eexists. split; [reflexivity|].
      rewrite sessionCall_ended. rewrite E in E0. by injection E0 as <-.
    + rewrite lookup_insert_ne by done. by exists s.
Qed.

(** X21. Ended is for good: after [end()] on a session object, whatever the
    page does next (new sessions, calls on any session object, camera and
    animation frames), the object stays ended, and every animation frame
    that fires for it returns at once: no callback of the application is
    handed over, no event is dispatched, no tracking data is read and no
    further frame is requested. *)
Theorem ended_session_never_runs_again (this : nat) (w0 w w' : World.t) :
  XRSession_end this w0 = Some w →
  rtc step w w' →
  (∃ s', World.sessions w' !! this = Some s' ∧ XRSession._ended s' = true)
  ∧ ∀ id camera,
      World.animationFrames w' !! id = Some this →
      loop_enter id camera w' = Some (LoopReturned (window_cancelAnimationFrame id w')).
Proof.
  intros He Hsteps.
  assert (H0 : ∃ s, World.sessions w !! this = Some s ∧ XRSession._ended s = true).
  { destruct (World.sessions w0 !! this) as [s0|] eqn:E0;
      [|unfold XRSession_end in He; by rewrite E0 in He].
    destruct (XRSession_end_spec this s0 w0 E0) as (w1 & He' & Hss & _).
    rewrite He in He'. injection He' as <-. rewrite Hss, lookup_insert_eq. by eexists. }
  assert (H : ∃ s', World.sessions w' !! this = Some s' ∧ XRSession._ended s' = true).
  { clear He. induction Hsteps as [w|w1 w2 w3 Hstep _ IH]; [exact H0|].
    apply IH. destruct H0 as (s & E & Hend).
    by apply (step_keeps_ended this s w1 w2). }
  split; [exact H|]. destruct H as (s' & E & Hend).
  intros id camera Hfr. by apply (ended_loop_returns id this s').
Qed.

Lemma ended_session_never_runs_again_witness :
  ∃ this w w',
    XRSession_end this
      (requestSession "immersive-vr"
         {| XRSessionInit.requiredFeatures := None;
            XRSessionInit.optionalFeatures := None |} initialWorld).2 = Some w
    ∧ rtc step w w'
    ∧ ∃ s', World.sessions w' !! this = Some s' ∧ XRSession._ended s' = true.
Proof.
  set (options := {| XRSessionInit.requiredFeatures := None;
                     XRSessionInit.optionalFeatures := None |}).
  set (w1 := (requestSession "immersive-vr" options initialWorld).2).
  set (this := (XRSession_new "immersive-vr" options initialWorld).1).
  destruct (requestSession_returns "immersive-vr" options initialWorld eq_refl)
    as (_ & _ & Hs1 & _ & _).
  destruct (XRSession_new_session "immersive-vr" options initialWorld)
    as (s & El1 & _).
  assert (E1 : World.sessions w1 !! this = Some s)
    by (subst w1 this; rewrite Hs1; exact El1).
  destruct (XRSession_end_spec this s w1 E1) as (w2 & He2 & _).
  assert (Hsteps : rtc step w2 (requestSession "immersive-ar" options w2).2)
    by (apply rtc_once; constructor).
  destruct (ended_session_never_runs_again this w1 w2 _ He2 Hsteps) as [H _].
  exists this, w2, (requestSession "immersive-ar" options w2).2.
  split; [exact He2|]. split; [exact Hsteps | exact H].
Defined.

(** ** A pinch, through the session *)

(** X22. For the session object that [new XRSession] stores when
    'hand-tracking' is not among the features asked for: when its input
    sources are updated tick after tick with a visible left hand that is
    open, then pinched on one tick and held, then open again, the ticks
    dispatch, on this session, one 'inputsourceschange' event adding the
    left source on the first tick, one 'selectstart' on the first pinched
    tick and one 'selectend' on the first open tick after it, and nothing
    on any other tick. *)
Theorem new_session_reports_a_pinch (mode : string) (options : XRSessionInit.t)
    (w : World.t) (first pinch release : HandData.t)
    (above held after : list HandData.t) :
  includes "hand-tracking" (default [] (XRSessionInit.requiredFeatures options))
  || includes "hand-tracking" (default [] (XRSessionInit.optionalFeatures options)) = false →
  Forall (λ hd, HandData.visible hd = true)
         (first :: above ++ [pinch] ++ held ++ [release] ++ after) →
  handOpen first → Forall handOpen above →
  handPinched pinch → Forall handPinched held →
  handOpen release → Forall handOpen after →
  ∃ session arr1,
    World.sessions (XRSession_new mode options w).2 !! (XRSession_new mode options w).1
    = Some session
    ∧ updateLeftTicks (first :: above ++ [pinch] ++ held ++ [release] ++ after)
        (XRSession.inputSources session)
      = Some (arr1,
              [[((XRSession_new mode options w).1,
                 XRInputSourcesChangeEvent "inputsourceschange" [left_hand] [])]]
              ++ replicate (length above) []
              ++ [[((XRSession_new mode options w).1, XRSelectEvent "selectstart" left_hand)]]
              ++ replicate (length held) []
              ++ [[((XRSession_new mode options w).1, XRSelectEvent "selectend" left_hand)]]
              ++ replicate (length after) []).
Proof.
  intros Hopt Hvis Hfirst Habove Hpinch Hheld Hrelease Hafter.
  destruct (new_session_input_sources mode options w Hopt)
    as (session & El & Hte & Hsess & Hl & Hla & Hr & Hra).
  destruct (pinch_through_input_source_array (XRSession_new mode options w).1
              (XRSession.inputSources session) first pinch release above held after
              Hte Hsess Hl Hla Hr Hra Hvis Hfirst Habove Hpinch Hheld Hrelease Hafter)
    as (arr1 & E).
  by exists session, arr1.
Qed.

Lemma new_session_reports_a_pinch_witness :
  ∃ session arr1,
    World.sessions
      (XRSession_new "immersive-vr"
         {| XRSessionInit.requiredFeatures := None;
            XRSessionInit.optionalFeatures := None |} initialWorld).2
      !! (XRSession_new "immersive-vr"
            {| XRSessionInit.requiredFeatures := None;
               XRSessionInit.optionalFeatures := None |} initialWorld).1
    = Some session
    ∧ updateLeftTicks [openPose; pinchPose; pinchPose; openPose]
        (XRSession.inputSources session)
      = Some (arr1,
              [ [((XRSession_new "immersive-vr"
                     {| XRSessionInit.requiredFeatures := None;
                        XRSessionInit.optionalFeatures := None |} initialWorld).1,
                  XRInputSourcesChangeEvent "inputsourceschange" [left_hand] [])];
                [((XRSession_new "immersive-vr"
                     {| XRSessionInit.requiredFeatures := None;
                        XRSessionInit.optionalFeatures := None |} initialWorld).1,
                  XRSelectEvent "selectstart" left_hand)];
                [];
                [((XRSession_new "immersive-vr"
                     {| XRSessionInit.requiredFeatures := None;
                        XRSessionInit.optionalFeatures := None |} initialWorld).1,
                  XRSelectEvent "selectend" left_hand)] ]).
Proof.
  destruct (new_session_reports_a_pinch "immersive-vr"
              {| XRSessionInit.requiredFeatures := None;
                 XRSessionInit.optionalFeatures := None |} initialWorld
              openPose pinchPose openPose [] [pinchPose] [] eq_refl)
    as (session & arr1 & El & E).
  - repeat (apply Forall_cons; split; [reflexivity|]). constructor.
  - exact openPose_open.
  - constructor.
  - exact pinchPose_pinched.
  - apply Forall_cons. split; [exact pinchPose_pinched | constructor].
  - exact openPose_open.
  - constructor.
  - exists session, arr1. split; [exact El | exact E].
Defined.

(** ** The session singleton *)

Lemma quietStep_keeps_active (s : nat) (w w' : World.t) :
  quietStep w w' → activeSession s w → activeSession s w'.
Proof.
  intros Hstep (Hc & session & E & Hend).
  destruct Hstep as [mode options w | stream w | id camera w r He | this0 w w' He
    | this0 session0 c w E0].
  - unfold requestSession. rewrite Hc. by split; [|exists session].
  - split; [exact Hc | by exists session].
  - unfold loop_enter in He.
    destruct (World.animationFrames w !! id) as [this0|]; [|discriminate He].
    cbn [mbind option_bind] in He.
    destruct (World.sessions w !! this0) as [s0|] eqn:E0; [|discriminate He].
    cbn [mbind option_bind] in He.
    destruct (XRSession._ended s0) eqn:Eend0.
    { injection He as <-. split; [exact Hc | by exists session]. }
    set (w1 := window_cancelAnimationFrame id w) in *.
    destruct (match camera with
              | Some c => t ← processFrame c.1 c.2 (World.head w1);
                          Some (World.set_tracking t.1.1 t.1.2 t.2 w1)
              | None => Some w1
              end) as [w2|] eqn:E2; [|discriminate He].
    cbn [mbind option_bind] in He.
    assert (Hw2 : World.sessions w2 = World.sessions w
                  ∧ World.currentSession w2 = World.currentSession w).
    { destruct camera as [c|].
      - destruct (processFrame c.1 c.2 (World.head w1)) as [t|]; [|discriminate E2].
        injection E2 as <-. subst w1. by world_simpl.
      - injection E2 as <-. subst w1. by world_simpl. }
    destruct Hw2 as [Ws Wc].
    destruct (XRInputSourceArray_update _ _ _) as [u|]; [|discriminate He].
    cbn [mbind option_bind] in He. injection He as <-.
    unfold activeSession. world_simpl. rewrite Ws, Wc. split; [exact Hc|].
    destruct (decide (s = this0)) as [->|Hne].
    + rewrite lookup_insert_eq. eexists. split; [reflexivity|].
      rewrite E in E0. by injection E0 as <-.
    + rewrite lookup_insert_ne by done. by exists session.
  - unfold loop_leave in He.
    destruct (World.sessions w !! this0) as [s0|] eqn:E0; [|discriminate He].
    cbn [mbind option_bind] in He. unfold window_requestAnimationFrame in He.
    injection He as <-. unfold activeSession. world_simpl. split; [exact Hc|].
    destruct (decide (s = this0)) as [->|Hne].
    + rewrite lookup_insert_eq. eexists. split; [reflexivity|].
      rewrite E in E0. by injection E0 as <-.
    + rewrite lookup_insert_ne by done. by exists session.
  - unfold activeSession. world_simpl. split; [exact Hc|].
    destruct (decide (s = this0)) as [->|Hne].
    + rewrite lookup_insert_eq. eexists. split; [reflexivity|].
      rewrite sessionCall_ended. rewrite E in E0. by injection E0 as <-.
    + rewrite lookup_insert_ne by done. by exists session.
Qed.

Lemma requested_session_is_active (mode : string) (options : XRSessionInit.t)
    (w : World.t) (s : nat) :
  (requestSession mode options w).1 = Returned s →
  activeSession s (requestSession mode options w).2.
Proof.
  intros Hr. destruct (World.currentSession w) eqn:Ec.
  { unfold requestSession in Hr. rewrite Ec in Hr. discriminate Hr. }
  destruct (requestSession_returns mode options w Ec) as (Hr' & Hc & Hs & _).
  rewrite Hr' in Hr. injection Hr as <-.
  destruct (XRSession_new_session mode options w) as (session & El & _ & Hend & _).
  split; [exact Hc|]. exists session. by rewrite Hs.
Qed.

(** C2, as the code has it.  From the moment [requestSession] returns a
    session and for as long as [end()] is not called on any session
    object, whatever else the page does (further requests, calls on the
    session, camera and animation frames), the session is the one the
    singleton holds and it has not ended; a further [requestSession] throws
    an [InvalidStateError] and leaves the whole state, the existing session
    and the table of sessions included, as it was.  Once [end()] has run
    on that session, a request returns a new session, not ended, of the
    mode asked for, which the singleton then holds, and the ended session
    keeps its flag. *)
Theorem second_request_fails_until_end (mode0 mode : string)
    (options0 options : XRSessionInit.t) (w0 w : World.t) (s : nat) :
  (requestSession mode0 options0 w0).1 = Returned s →
  rtc quietStep (requestSession mode0 options0 w0).2 w →
  ∃ session,
    World.currentSession w = Some s
    ∧ World.sessions w !! s = Some session
    ∧ XRSession._ended session = false
    ∧ requestSession mode options w
      = (Thrown "InvalidStateError" "Session already active", w)
    ∧ ∃ w1 s' w2 session',
        XRSession_end s w = Some w1
        ∧ World.currentSession w1 = None
        ∧ requestSession mode options w1 = (Returned s', w2)
        ∧ s' ≠ s
        ∧ World.currentSession w2 = Some s'
        ∧ World.isTracking w2 = true
        ∧ World.sessions w2 !! s' = Some session'
        ∧ XRSession.mode session' = mode
        ∧ XRSession._ended session' = false
        ∧ World.sessions w2 !! s = Some (XRSession.set_ended true session).
Proof.
  intros Hr Hsteps.
  assert (Ha : activeSession s w).
  { pose proof (requested_session_is_active mode0 options0 w0 s Hr) as H0.
    clear Hr. induction Hsteps as [w|w1 w2 w3 Hstep _ IH]; [exact H0|].
    apply IH. by apply (quietStep_keeps_active s w1 w2). }
  destruct Ha as (Hc & session & E & Hend). exists session.
  destruct (request_with_singleton_set w s session mode options Hc E) as [Hfail Hafter].
  by split_and!.
Qed.

Lemma second_request_fails_until_end_witness :
  let options := {| XRSessionInit.requiredFeatures := None;
                    XRSessionInit.optionalFeatures := Some ["hand-tracking"%string] |} in
  let r := requestSession "immersive-vr" options initialWorld in
  let w := startCamera 7 (requestSession "immersive-ar" options r.2).2 in
  ∃ s,
    r.1 = Returned s
    ∧ rtc quietStep r.2 w
    ∧ World.currentSession w = Some s
    ∧ requestSession "inline" options w
      = (Thrown "InvalidStateError" "Session already active", w).
Proof.
  intros options r w.
  assert (Hr : r.1 = Returned (XRSession_new "immersive-vr" options initialWorld).1)
    by reflexivity.
  assert (Hsteps : rtc quietStep r.2 w).
  { eapply rtc_l; [apply (quiet_requestSession "immersive-ar" options)|].
    apply rtc_once. apply quiet_startCamera. }
  destruct (second_request_fails_until_end "immersive-vr" "inline" options options
              initialWorld w _ Hr Hsteps) as (session' & Hc & _ & _ & Hfail & _).
  exists (XRSession_new "immersive-vr" options initialWorld).1.
  split; [exact Hr|]. split; [exact Hsteps|]. split; [exact Hc | exact Hfail].
Defined.

(** C2, as the claim has it, fails: a session is requested and ended, a
    second session is requested, and [end()] is called once more on the
    first session object.  The second session was requested and has not
    ended, yet a request now returns a third session instead of failing,
    and the second session is still not ended beside it. *)
Lemma request_succeeds_beside_a_live_session :
  let options := {| XRSessionInit.requiredFeatures := None;
                    XRSessionInit.optionalFeatures := None |} in
  let r1 := requestSession "immersive-vr" options initialWorld in
  ∃ first w2 second w4 sSecond third,
    r1.1 = Returned first
    ∧ XRSession_end first r1.2 = Some w2
    ∧ (requestSession "immersive-vr" options w2).1 = Returned second
    ∧ XRSession_end first (requestSession "immersive-vr" options w2).2 = Some w4
    ∧ World.sessions w4 !! second = Some sSecond
    ∧ XRSession._ended sSecond = false
    ∧ requestSession "immersive-vr" options w4
      ≠ (Thrown "InvalidStateError" "Session already active", w4)
    ∧ (requestSession "immersive-vr" options w4).1 = Returned third
    ∧ third ≠ second
    ∧ World.sessions (requestSession "immersive-vr" options w4).2 !! second = Some sSecond.
Proof.
  intros options r1.
  set (first := (XRSession_new "immersive-vr" options initialWorld).1).
  destruct (requestSession_returns "immersive-vr" options initialWorld eq_refl)
    as (Hr1 & _ & Hs1 & _ & _).
  destruct (XRSession_new_session "immersive-vr" options initialWorld)
    as (sFirst & El1 & _).
  assert (E1 : World.sessions r1.2 !! first = Some sFirst)
    by (subst r1 first; rewrite Hs1; exact El1).
  destruct (XRSession_end_spec first sFirst r1.2 E1)
    as (w2 & He2 & Hss2 & _ & _ & _ & _ & _ & Hc2 & _).
  set (w3 := (requestSession "immersive-vr" options w2).2).
  set (second := (XRSession_new "immersive-vr" options w2).1).
  destruct (requestSession_returns "immersive-vr" options w2 Hc2)
    as (Hr3 & _ & Hs3 & _ & Hoth3).
  destruct (XRSession_new_session "immersive-vr" options w2)
    as (sSecond & El3 & _ & Hend3 & _).
  assert (E2first : World.sessions w2 !! first = Some (XRSession.set_ended true sFirst))
    by (rewrite Hss2; apply lookup_insert_eq).
  assert (Hne : first ≠ second).
  { intros Heq. pose proof (XRSession_new_fresh "immersive-vr" options w2) as Hfresh.
    fold second in Hfresh. rewrite <- Heq, E2first in Hfresh. discriminate Hfresh. }
  assert (E3first : World.sessions w3 !! first = Some (XRSession.set_ended true sFirst))
    by (subst w3; rewrite Hs3, Hoth3 by exact Hne; exact E2first).
  assert (E3second : World.sessions w3 !! second = Some sSecond)
    by (subst w3 second; rewrite Hs3; exact El3).
  destruct (XRSession_end_spec first _ w3 E3first)
    as (w4 & He4 & Hss4 & _ & _ & _ & _ & _ & Hc4 & _).
  assert (E4second : World.sessions w4 !! second = Some sSecond)
    by (rewrite Hss4, lookup_insert_ne by exact Hne; exact E3second).
  destruct (requestSession_returns "immersive-vr" options w4 Hc4)
    as (Hr5 & _ & Hs5 & _ & Hoth5).
  assert (Hne5 : (XRSession_new "immersive-vr" options w4).1 ≠ second).
  { intros Heq. pose proof (XRSession_new_fresh "immersive-vr" options w4) as Hfresh.
    rewrite Heq, E4second in Hfresh. discriminate Hfresh. }
  exists first, w2, second, w4, sSecond, (XRSession_new "immersive-vr" options w4).1.
  split; [exact Hr1|]. split; [exact He2|]. split; [exact Hr3|]. split; [exact He4|].
  split; [exact E4second|]. split; [exact Hend3|]. split.
  { intros Heq. apply (f_equal fst) in Heq. cbn [fst] in Heq.
    rewrite Hr5 in Heq. discriminate Heq. }
  split; [exact Hr5|]. split; [exact Hne5|].
  rewrite Hs5, Hoth5 by (intros Heq; by apply Hne5). exact E4second.
Qed.
